(** * Boids: toroidal vector geometry, flocks and the per-tick update

    A shallow embedding of the simulation core of the [boids] package
    ([vector2d.py], [utilities.py], [models.py], [system.py]) and the
    properties its specification states about it.

    Numbers.  The source computes with Python floats; the specification's
    data model speaks of "real numbers".  The embedding takes the latter
    reading: every float is a real number ([R]), arithmetic is exact, and
    the only arithmetic failure is Python's [ZeroDivisionError] on a zero
    divisor.  Rounding, overflow and signed zeros are outside the model.

    Objects.  [Vector2D] is immutable and is embedded as a value.  [Boid]
    objects are mutable and shared: the population list of a [BoidSystem]
    is embedded as a store ([list Boid.t]) in which the identity of a boid
    is its index, and the neighbour dictionaries of a [Flock], which are
    keyed by object identity, hold these indices.  *)

From Stdlib Require Import Reals Lra Lia List ZArith Bool Permutation.
Import ListNotations.
Local Open Scope R_scope.

(** ** Exceptions *)

(** The exceptions the embedded code can raise.  [LookupError] belongs to
    the embedding only: it is what a reference (an index) outside of the
    store yields; Python references cannot dangle. *)
Inductive exception : Type :=
| ZeroDivisionError
| NotImplementedError
| LookupError.

Inductive result (A : Type) : Type :=
| Ok (a : A)
| Raise (e : exception).

Arguments Ok {A} a.
Arguments Raise {A} e.

Definition bind {A B : Type} (c : result A) (k : A -> result B) : result B :=
  match c with
  | Ok a => k a
  | Raise e => Raise e
  end.

Notation "x <- c ;; k" := (bind c (fun x => k))
  (at level 61, c at next level, right associativity).

Fixpoint mapM {A B : Type} (f : A -> result B) (l : list A) : result (list B) :=
  match l with
  | [] => Ok []
  | a :: rest => b <- f a ;; bs <- mapM f rest ;; Ok (b :: bs)
  end.

Definition lookup {A : Type} (store : list A) (i : nat) : result A :=
  match nth_error store i with
  | Some a => Ok a
  | None => Raise LookupError
  end.

(** [store[i] = a] for an index inside the store; the store is unchanged
    otherwise (such a write never happens in the source). *)
Fixpoint assign {A : Type} (store : list A) (i : nat) (a : A) : list A :=
  match store, i with
  | [], _ => []
  | _ :: rest, O => a :: rest
  | b :: rest, S j => b :: assign rest j a
  end.

(** ** Comparisons and scalar operators of Python on floats *)

Definition Rltb (a b : R) : bool := if Rlt_dec a b then true else false.
Definition Rleb (a b : R) : bool := if Rle_dec a b then true else false.
Definition Reqb (a b : R) : bool := if Req_dec_T a b then true else false.

(** [math.floor] *)
Definition floor (a : R) : R := IZR (Int_part a).

(** [math.copysign(a, b)]: the magnitude of [a] with the sign of [b]. *)
Definition copysign (a b : R) : R :=
  if Rltb b 0 then - Rabs a else Rabs a.

Definition Operator : Type := R -> R -> result R.

(** The functions of the [operator] module that [vector2d.py] imports, on
    numbers ([mod_] is [operator.mod]). *)
Module operator.

Definition add : Operator := fun a b => Ok (a + b).
Definition sub : Operator := fun a b => Ok (a - b).
Definition mul : Operator := fun a b => Ok (a * b).
Definition truediv : Operator := fun a b =>
  if Reqb b 0 then Raise ZeroDivisionError else Ok (a / b).
Definition floordiv : Operator := fun a b =>
  if Reqb b 0 then Raise ZeroDivisionError else Ok (floor (a / b)).
Definition mod_ : Operator := fun a b =>
  if Reqb b 0 then Raise ZeroDivisionError else Ok (a - b * floor (a / b)).

End operator.

(** ** vector2d.py *)

Module Vector2D.

Record t : Type := mk { x : R; y : R }.

(** What the right operand of an arithmetic operator can be: an [int] or
    [float], a [Vector2D], or any other object. *)
Inductive operand : Type :=
| Number (s : R)
| Vector (v : t)
| Object.

Definition magnitude (self : t) : R :=
  sqrt (x self * x self + y self * y self).

Definition __bool__ (self : t) : bool := negb (Reqb (magnitude self) 0).

Definition tolerance : R := / 1000000000000.

Definition __eq__ (self other : t) : bool :=
  Rltb (Rabs (x other - x self)) tolerance
  && Rltb (Rabs (y other - y self)) tolerance.

Definition unit (self : t) : result t :=
  let magnitude := magnitude self in
  ux <- operator.truediv (x self) magnitude ;;
  uy <- operator.truediv (y self) magnitude ;;
  Ok (mk ux uy).

Definition __abs__ (self : t) : t := mk (Rabs (x self)) (Rabs (y self)).
Definition __neg__ (self : t) : t := mk (- x self) (- y self).

Definition _apply_operator (operator : Operator) (self : t) (other : operand)
  : result t :=
  match other with
  | Number s =>
      rx <- operator (x self) s ;; ry <- operator (y self) s ;; Ok (mk rx ry)
  | Vector v =>
      rx <- operator (x self) (x v) ;; ry <- operator (y self) (y v) ;;
      Ok (mk rx ry)
  | Object => Raise NotImplementedError
  end.

Definition __add__ := _apply_operator operator.add.
Definition __radd__ := _apply_operator operator.add.
Definition __mod__ := _apply_operator operator.mod_.
Definition __mul__ := _apply_operator operator.mul.
Definition __rmul__ := _apply_operator operator.mul.
Definition __sub__ := _apply_operator operator.sub.
Definition __rsub__ := _apply_operator operator.sub.
Definition __floordiv__ := _apply_operator operator.floordiv.
Definition __truediv__ := _apply_operator operator.truediv.

(** The operator calls of the package whose operand kinds are fixed at
    the call site and whose scalar operator cannot raise, written as
    total functions; [apply_operator_plus] and its neighbours below
    relate them to [_apply_operator]. *)
Definition plus (v w : t) : t := mk (x v + x w) (y v + y w).
Definition minus (v w : t) : t := mk (x v - x w) (y v - y w).
Definition scale (s : R) (v : t) : t := mk (x v * s) (y v * s).

Definition Zero : t := mk 0 0.

Definition resize (self : t) (magnitude' : R) : result t :=
  if Reqb (magnitude self) 0 then Raise ZeroDivisionError
  else
    factor <- operator.truediv magnitude' (magnitude self) ;;
    Ok (scale factor self).

(** [rotate(angle)], with the angle in radians. *)
Definition rotate (self : t) (angle : R) : t :=
  let cos_angle := cos angle in
  let sin_angle := sin angle in
  mk (x self * cos_angle - y self * sin_angle)
     (y self * cos_angle + x self * sin_angle).

Definition from_radial (angle magnitude' : R) : t :=
  mk (magnitude' * cos angle) (magnitude' * sin angle).

(** [random()]: the two calls of the generator, each a number of [[0, 1)],
    are the arguments, in the order in which they are made. *)
Definition random (first second : R) : t :=
  from_radial (first * 2 * PI) second.

End Vector2D.

(** [s - v] for a number [s] and a vector [v]: [float.__sub__] does not know
    [Vector2D] and returns [NotImplemented], so Python evaluates the
    reflected method of the right operand, [v.__rsub__(s)]. *)
Definition number_minus_vector (s : R) (v : Vector2D.t) : result Vector2D.t :=
  Vector2D.__rsub__ v (Vector2D.Number s).

(** ** utilities.py *)

Module utilities.

(** The builtin [sum(data)]: Python starts from the integer [0], and
    [0 + v] is [v.__radd__(0)], which adds [0] to both components. *)
Definition sum (data : list Vector2D.t) : Vector2D.t :=
  fold_left Vector2D.plus data Vector2D.Zero.

(** [mean(data)] is [sum(data) * (1 / len(data))]; the quotient raises on
    an empty collection. *)
Definition mean (data : list Vector2D.t) : result Vector2D.t :=
  weight <- operator.truediv 1 (INR (length data)) ;;
  Ok (Vector2D.scale weight (sum data)).

End utilities.

(** ** models.py *)

(** The abstract base class [Model]: anything with a [position]. *)
Class Model (A : Type) : Type := { position : A -> Vector2D.t }.

(** The methods of [Model].  [frame] is the class attribute [Model.frame],
    built from the window constants of [constants.py]. *)
Section Model_methods.

Context {A B : Type} `{Model A} `{Model B}.
Variable frame : Vector2D.t.

(** One axis of [displacement]: [delta] if it is no longer than half of the
    frame, and [delta] moved by one frame against its sign otherwise. *)
Definition wrap (extent delta : R) : R :=
  if Rltb extent (Rabs (2 * delta)) then delta - copysign extent delta
  else delta.

Definition displacement (self : A) (other : B) : Vector2D.t :=
  let delta := Vector2D.minus (position other) (position self) in
  Vector2D.mk (wrap (Vector2D.x frame) (Vector2D.x delta))
              (wrap (Vector2D.y frame) (Vector2D.y delta)).

Definition distance (self : A) (other : B) : R :=
  Vector2D.magnitude (displacement self other).

End Model_methods.

(** [self.get_image(other)] is [other.position + other.displacement(self)]. *)
Definition get_image {A B : Type} `{Model A} `{Model B}
  (frame : Vector2D.t) (self : A) (other : B) : Vector2D.t :=
  Vector2D.plus (position other) (displacement frame other self).

Module Boid.

Record t : Type := mk {
  _position : Vector2D.t;
  velocity : Vector2D.t;
  acceleration : Vector2D.t
}.

Definition max_velocity : R := 200.
Definition max_acceleration : R := 50.

(** [Boid(position, velocity, acceleration)]: the position is reduced into
    the frame, velocity and acceleration are stored as they are given. *)
Definition __init__ (frame position velocity acceleration : Vector2D.t)
  : result t :=
  position <- Vector2D.__mod__ position (Vector2D.Vector frame) ;;
  Ok (mk position velocity acceleration).

(** The setter of the property [acceleration]. *)
Definition set_acceleration (self : t) (new_acceleration : Vector2D.t)
  : result t :=
  new_acceleration <-
    (if Rltb max_acceleration (Vector2D.magnitude new_acceleration)
     then u <- Vector2D.unit new_acceleration ;;
          Ok (Vector2D.scale max_acceleration u)
     else Ok new_acceleration) ;;
  Ok (mk (_position self) (velocity self) new_acceleration).

(** The setter of the property [velocity]. *)
Definition set_velocity (self : t) (new_velocity : Vector2D.t) : result t :=
  new_velocity <-
    (if Rleb max_velocity (Vector2D.magnitude new_velocity)
     then u <- Vector2D.unit new_velocity ;;
          Ok (Vector2D.scale max_velocity u)
     else Ok new_velocity) ;;
  Ok (mk (_position self) new_velocity (acceleration self)).

Definition update (frame : Vector2D.t) (self : t) (timestep : R) : result t :=
  self <- set_velocity self
            (Vector2D.plus (velocity self)
                           (Vector2D.scale timestep (acceleration self))) ;;
  position <- Vector2D.__mod__
                (Vector2D.plus (_position self)
                               (Vector2D.scale timestep (velocity self)))
                (Vector2D.Vector frame) ;;
  Ok (mk position (velocity self) (acceleration self)).

(** [Boid.random()], from the four numbers its two random vectors draw. *)
Definition random (frame : Vector2D.t) (draw1 draw2 draw3 draw4 : R)
  : result t :=
  position <- Vector2D.__truediv__ frame (Vector2D.Number 2) ;;
  __init__ frame position
    (Vector2D.scale max_velocity (Vector2D.random draw1 draw2))
    (Vector2D.random draw3 draw4).

End Boid.

#[export] Instance Boid_Model : Model Boid.t := {| position := Boid._position |}.

Module Obstacle.

(** The vertex list [_coordinates] serves rendering only and is left out. *)
Record t : Type := mk { _position : Vector2D.t }.

(** The builtin [round(a)], to the nearest integer and to the even one of
    two that are equally near. *)
Definition round (a : R) : R :=
  let below := Int_part a in
  let rest := a - IZR below in
  if Rltb rest (1 / 2) then IZR below
  else if Rltb (1 / 2) rest then IZR (below + 1)
  else if Z.even below then IZR below else IZR (below + 1).

Definition __init__ (frame position : Vector2D.t) : result t :=
  position <- Vector2D.__mod__ position (Vector2D.Vector frame) ;;
  Ok (mk (Vector2D.mk (round (Vector2D.x position))
                      (round (Vector2D.y position)))).

(** [Obstacle.random()], from the two numbers its random vector draws. *)
Definition random (frame : Vector2D.t) (draw1 draw2 : R) : result t :=
  position <- Vector2D.__mul__ (Vector2D.random draw1 draw2)
                (Vector2D.Vector frame) ;;
  __init__ frame position.

End Obstacle.

#[export] Instance Obstacle_Model : Model Obstacle.t :=
  {| position := Obstacle._position |}.

(** ** system.py *)

(** A [for] loop over [l] that threads the state [s] through its body. *)
Fixpoint foldM {S A : Type} (body : S -> A -> result S) (l : list A) (s : S)
  : result S :=
  match l with
  | [] => Ok s
  | a :: rest => s' <- body s a ;; foldM body rest s'
  end.

Module Flock.

(** [boid] is a reference to the owning boid and the keys of [neighbors]
    are references into the population, both read through the store of
    the moment; the keys of [obstacles] index the obstacle list.  A
    dictionary is a list of its items in insertion order; the keys are
    distinct because every candidate is a different index. *)
Record t : Type := mk {
  boid : nat;
  radius : R;
  neighbors : list (nat * R);
  obstacles : list (nat * R);
  alignment_coefficient : R;
  cohesion_coefficient : R;
  fear_coefficient : R;
  separation_coefficient : R
}.

(** The dictionary comprehension of [get_neighbors], over the candidates
    from the one of identity [identity] on. *)
Fixpoint get_neighbors_from {A : Type} `{Model A} (frame : Vector2D.t)
  (boid : Boid.t) (population : list A) (radius : R) (identity : nat)
  : list (nat * R) :=
  match population with
  | [] => []
  | other_boid :: rest =>
      let distance := distance frame boid other_boid in
      if Rltb 0 distance && Rltb distance radius
      then (identity, distance)
             :: get_neighbors_from frame boid rest radius (S identity)
      else get_neighbors_from frame boid rest radius (S identity)
  end.

Definition get_neighbors {A : Type} `{Model A} (frame : Vector2D.t)
  (boid : Boid.t) (population : list A) (radius : R) : list (nat * R) :=
  get_neighbors_from frame boid population radius 0.

Definition __init__ (frame : Vector2D.t) (population : list Boid.t)
  (obstacles : list Obstacle.t) (boid : nat) (radius : R)
  (alignment cohesion fear separation : R) : result t :=
  owner <- lookup population boid ;;
  Ok (mk boid radius
         (get_neighbors frame owner population radius)
         (get_neighbors frame owner obstacles radius)
         alignment cohesion fear separation).

(** The properties below are cached, and each is first read inside
    [apply_impulse]: they are functions of the population at that moment. *)
Section properties.

Variable frame : Vector2D.t.
Variable population : list Boid.t.
Variable obstacle_list : list Obstacle.t.
Variable self : t.

Definition steering_vector (desired_velocity : Vector2D.t)
  : result Vector2D.t :=
  owner <- lookup population (boid self) ;;
  if negb (Vector2D.__bool__ desired_velocity) then Ok Vector2D.Zero
  else
    resized <- Vector2D.resize desired_velocity Boid.max_velocity ;;
    Ok (Vector2D.minus resized (Boid.velocity owner)).

Definition average_velocity : result Vector2D.t :=
  data <- mapM (fun item : nat * R =>
                  neighbor <- lookup population (fst item) ;;
                  Ok (Boid.velocity neighbor))
               (neighbors self) ;;
  utilities.mean data.

Definition center_of_mass : result Vector2D.t :=
  data <- mapM (fun item : nat * R =>
                  neighbor <- lookup population (fst item) ;;
                  owner <- lookup population (boid self) ;;
                  Ok (get_image frame neighbor owner))
               (neighbors self) ;;
  utilities.mean data.

Definition alignment_vector : result Vector2D.t :=
  desired <- average_velocity ;;
  steering_vector desired.

Definition cohesion_vector : result Vector2D.t :=
  center <- center_of_mass ;;
  owner <- lookup population (boid self) ;;
  steering_vector (Vector2D.minus center (position owner)).

(** The generator of [fear_vector]:
    [obstacle.displacement(self.boid) / distance] for every item. *)
Definition fear_terms : result (list Vector2D.t) :=
  mapM (fun item : nat * R =>
          obstacle <- lookup obstacle_list (fst item) ;;
          owner <- lookup population (boid self) ;;
          Vector2D.__truediv__ (displacement frame obstacle owner)
                               (Vector2D.Number (snd item)))
       (obstacles self).

Definition fear_vector : result Vector2D.t :=
  data <- fear_terms ;;
  correction_vector <- utilities.mean data ;;
  steering_vector correction_vector.

(** The generator of [separation_vector]. *)
Definition separation_terms : result (list Vector2D.t) :=
  mapM (fun item : nat * R =>
          neighbor <- lookup population (fst item) ;;
          owner <- lookup population (boid self) ;;
          Vector2D.__truediv__ (displacement frame neighbor owner)
                               (Vector2D.Number (snd item)))
       (neighbors self).

Definition separation_vector : result Vector2D.t :=
  data <- separation_terms ;;
  correction_vector <- utilities.mean data ;;
  steering_vector correction_vector.

(** The impulse that [apply_impulse] assigns to the owner's acceleration. *)
Definition impulse : result Vector2D.t :=
  impulse <- Ok Vector2D.Zero ;;
  impulse <-
    (match neighbors self with
     | [] => Ok impulse
     | _ :: _ =>
         alignment <- alignment_vector ;;
         impulse <- Ok (Vector2D.plus impulse
                          (Vector2D.scale (alignment_coefficient self) alignment)) ;;
         cohesion <- cohesion_vector ;;
         impulse <- Ok (Vector2D.plus impulse
                          (Vector2D.scale (cohesion_coefficient self) cohesion)) ;;
         separation <- separation_vector ;;
         Ok (Vector2D.plus impulse
               (Vector2D.scale (separation_coefficient self) separation))
     end) ;;
  match obstacles self with
  | [] => Ok impulse
  | _ :: _ =>
      fear <- fear_vector ;;
      Ok (Vector2D.plus impulse (Vector2D.scale (fear_coefficient self) fear))
  end.

(** [apply_impulse] returns the population after the assignment
    [self.boid.acceleration = impulse]. *)
Definition apply_impulse : result (list Boid.t) :=
  impulse <- impulse ;;
  owner <- lookup population (boid self) ;;
  owner <- Boid.set_acceleration owner impulse ;;
  Ok (assign population (boid self) owner).

End properties.

End Flock.

Module BoidSystem.

(** The seed and the initial counts, which only the random construction
    reads, are left out. *)
Record t : Type := mk {
  radius : R;
  population : list Boid.t;
  obstacles : list Obstacle.t;
  flocks : list Flock.t;
  alignment : R;
  cohesion : R;
  fear : R;
  separation : R
}.

Definition with_population (self : t) (population : list Boid.t)
  (flocks : list Flock.t) : t :=
  mk (radius self) population (obstacles self) flocks
     (alignment self) (cohesion self) (fear self) (separation self).

Definition add_boid (frame : Vector2D.t) (self : t) (x_coordinate y_coordinate : R)
  : result t :=
  baby_boid <- Boid.__init__ frame (Vector2D.mk x_coordinate y_coordinate)
                 (Vector2D.mk 0 0) (Vector2D.mk 0 0) ;;
  Ok (with_population self (population self ++ [baby_boid]) (flocks self)).

Definition add_obstacle (frame : Vector2D.t) (self : t)
  (x_coordinate y_coordinate : R) : result t :=
  obstacle <- Obstacle.__init__ frame (Vector2D.mk x_coordinate y_coordinate) ;;
  Ok (mk (radius self) (population self) (obstacles self ++ [obstacle])
         (flocks self) (alignment self) (cohesion self) (fear self)
         (separation self)).

(** The list comprehension of [update]: [flock_of] is its constructor
    call, made for every boid of the population, in order. *)
Definition flock_of (frame : Vector2D.t) (self : t) (boid : nat)
  : result Flock.t :=
  Flock.__init__ frame (population self) (obstacles self) boid
    (radius self) (alignment self) (cohesion self) (fear self)
    (separation self).

Definition build_flocks (frame : Vector2D.t) (self : t) : result (list Flock.t) :=
  mapM (flock_of frame self) (seq 0 (length (population self))).

(** The body of the loop of [update]:
    [flock.apply_impulse(); flock.boid.update(timestep)]. *)
Definition update_step (frame : Vector2D.t) (obstacles : list Obstacle.t)
  (timestep : R) (population : list Boid.t) (flock : Flock.t)
  : result (list Boid.t) :=
  population <- Flock.apply_impulse frame population obstacles flock ;;
  owner <- lookup population (Flock.boid flock) ;;
  owner <- Boid.update frame owner timestep ;;
  Ok (assign population (Flock.boid flock) owner).

Definition update (frame : Vector2D.t) (self : t) (timestep : R) : result t :=
  flocks <- build_flocks frame self ;;
  population <- foldM (update_step frame (obstacles self) timestep)
                  flocks (population self) ;;
  Ok (with_population self population flocks).

(** The two-phase reference of the specification: "compute-all-impulses,
    then integrate-all-motion".  The flocks are built as in [update]; every
    impulse is computed from the population as it is before the tick, and
    only then is each impulse assigned and each boid integrated. *)
Definition integrate_step (frame : Vector2D.t) (timestep : R)
  (population : list Boid.t) (item : Flock.t * Vector2D.t)
  : result (list Boid.t) :=
  owner <- lookup population (Flock.boid (fst item)) ;;
  owner <- Boid.set_acceleration owner (snd item) ;;
  owner <- Boid.update frame owner timestep ;;
  Ok (assign population (Flock.boid (fst item)) owner).

Definition update_two_phase (frame : Vector2D.t) (self : t) (timestep : R)
  : result t :=
  flocks <- build_flocks frame self ;;
  impulses <- mapM (Flock.impulse frame (population self) (obstacles self))
                flocks ;;
  population <- foldM (integrate_step frame timestep)
                  (combine flocks impulses) (population self) ;;
  Ok (with_population self population flocks).

(** [new()], from the numbers drawn for each boid and for each obstacle;
    the lengths of the two lists are the counts given to the constructor. *)
Definition new (frame : Vector2D.t) (boid_draws : list (R * R * R * R))
  (obstacle_draws : list (R * R)) : result (list Boid.t * list Obstacle.t) :=
  boids <- mapM (fun draws : R * R * R * R =>
                   let '(draw1, draw2, draw3, draw4) := draws in
                   Boid.random frame draw1 draw2 draw3 draw4)
             boid_draws ;;
  obstacles <- mapM (fun draws : R * R =>
                       Obstacle.random frame (fst draws) (snd draws))
                 obstacle_draws ;;
  Ok (boids, obstacles).

(** [BoidSystem(boid_count, obstacle_count, radius)]. *)
Definition __init__ (frame : Vector2D.t) (boid_draws : list (R * R * R * R))
  (obstacle_draws : list (R * R)) (radius : R) : result t :=
  created <- new frame boid_draws obstacle_draws ;;
  Ok (mk radius (fst created) (snd created) [] 10 10 10 12).

End BoidSystem.

(** ** The vocabulary of the properties and the scenes of the concrete runs *)

(** A frame has nonnegative extents; the window constants are positive. *)
Definition valid_frame (frame : Vector2D.t) : Prop :=
  0 <= Vector2D.x frame /\ 0 <= Vector2D.y frame.

(** A position inside of the frame, its far edges included (the rounding
    of [Obstacle] can reach them). *)
Definition in_frame (frame p : Vector2D.t) : Prop :=
  (0 <= Vector2D.x p <= Vector2D.x frame)
  /\ (0 <= Vector2D.y p <= Vector2D.y frame).

(** The frame and the two boids of the displacement test of the package. *)
Definition test_frame : Vector2D.t := Vector2D.mk 40 30.
Definition boid_at (px py : R) : Boid.t :=
  Boid.mk (Vector2D.mk px py) Vector2D.Zero Vector2D.Zero.

(** What a caller can do to a boid: assign to the property [acceleration]
    (as [apply_impulse] does), assign to the property [velocity], and call
    [update]. *)
Inductive action : Type :=
| Assign_acceleration (impulse : Vector2D.t)
| Assign_velocity (v : Vector2D.t)
| Update (timestep : R).

Definition perform (frame : Vector2D.t) (self : Boid.t) (a : action)
  : result Boid.t :=
  match a with
  | Assign_acceleration impulse => Boid.set_acceleration self impulse
  | Assign_velocity v => Boid.set_velocity self v
  | Update timestep => Boid.update frame self timestep
  end.

Definition run (frame : Vector2D.t) (self : Boid.t) (actions : list action)
  : result Boid.t :=
  foldM (perform frame) actions self.

Definition acceleration_bounded (self : Boid.t) : Prop :=
  Vector2D.magnitude (Boid.acceleration self) <= Boid.max_acceleration.

(** What [steering_vector] returns for an owner of velocity [owner_velocity]. *)
Definition steering (owner_velocity desired : Vector2D.t) : Vector2D.t :=
  if Vector2D.__bool__ desired
  then Vector2D.minus
         (Vector2D.scale (Boid.max_velocity / Vector2D.magnitude desired) desired)
         owner_velocity
  else Vector2D.Zero.

(** The scene of the fear-only run: the frame of the tests, a boid
    at rest at [(5, 5)] and an obstacle at [(8, 5)], with the radius of the
    tests and the coefficients that [BoidSystem] starts with. *)
Definition lone_boid : list Boid.t := [boid_at 5 5].
Definition lone_obstacle : list Obstacle.t := [Obstacle.mk (Vector2D.mk 8 5)].
Definition lone_flock : Flock.t := Flock.mk 0 10 [] [(0%nat, 3)] 10 10 10 12.

(** The scene of the run that separates [update] from the two-phase
    reference: the frame and the radius of the tests, the coefficients
    that [BoidSystem] starts with, no obstacle, and two boids at rest, as
    [add_boid(12, 5)] and [add_boid(10, 5)] make them. *)
Definition pair_population : list Boid.t := [boid_at 12 5; boid_at 10 5].
Definition pair_system : BoidSystem.t :=
  BoidSystem.mk 10 pair_population [] [] 10 10 10 12.
Definition first_flock : Flock.t := Flock.mk 0 10 [(1%nat, 2)] [] 10 10 10 12.
Definition second_flock : Flock.t := Flock.mk 1 10 [(0%nat, 2)] [] 10 10 10 12.

(** The first boid after the tick, and the second one after the tick of
    [update] ([follower]) and of the two-phase reference ([fleeing]). *)
Definition moved : Boid.t :=
  Boid.mk (Vector2D.mk (25 / 2) 5) (Vector2D.mk 5 0) (Vector2D.mk 50 0).
Definition follower : Boid.t :=
  Boid.mk (Vector2D.mk (21 / 2) 5) (Vector2D.mk 5 0) (Vector2D.mk 50 0).
Definition fleeing : Boid.t :=
  Boid.mk (Vector2D.mk (19 / 2) 5) (Vector2D.mk (-5) 0) (Vector2D.mk (-50) 0).

(** A position reduced into the frame, as [Model] keeps it. *)
Definition normalized (frame p : Vector2D.t) : Prop :=
  (0 <= Vector2D.x p < Vector2D.x frame)
  /\ (0 <= Vector2D.y p < Vector2D.y frame).

(** A number that the random generator can return. *)
Definition drawn (u : R) : Prop := 0 <= u < 1.

(** The limits that the setters of [Boid] enforce. *)
Definition within_limits (self : Boid.t) : Prop :=
  Vector2D.magnitude (Boid.velocity self) <= Boid.max_velocity
  /\ Vector2D.magnitude (Boid.acceleration self) <= Boid.max_acceleration.

(** What every boid is after a tick: reduced into the frame and within
    the limits of the setters. *)
Definition settled (frame : Vector2D.t) (self : Boid.t) : Prop :=
  normalized frame (position self) /\ within_limits self.

(** The numbers drawn for a random boid, the magnitudes among them being
    numbers that the generator can return. *)
Definition magnitudes_drawn (draws : R * R * R * R) : Prop :=
  let '(_, draw2, _, draw4) := draws in drawn draw2 /\ drawn draw4.

(** The sum of a list of numbers. *)
Fixpoint total (l : list R) : R :=
  match l with
  | [] => 0
  | a :: rest => a + total rest
  end.

(** * Properties *)

(** ** Comparisons *)

Lemma Rltb_true (a b : R) : a < b -> Rltb a b = true.
Proof. intros Hab. unfold Rltb. destruct (Rlt_dec a b); [reflexivity | contradiction]. Qed.

Lemma Rltb_false (a b : R) : b <= a -> Rltb a b = false.
Proof. intros Hab. unfold Rltb. destruct (Rlt_dec a b); [lra | reflexivity]. Qed.

Lemma Rltb_lt (a b : R) : Rltb a b = true <-> a < b.
Proof.
  split; [ | apply Rltb_true ].
  unfold Rltb. destruct (Rlt_dec a b); [trivial | discriminate].
Qed.

Lemma Rleb_true (a b : R) : a <= b -> Rleb a b = true.
Proof. intros Hab. unfold Rleb. destruct (Rle_dec a b); [reflexivity | contradiction]. Qed.

Lemma Rleb_false (a b : R) : b < a -> Rleb a b = false.
Proof. intros Hab. unfold Rleb. destruct (Rle_dec a b); [lra | reflexivity]. Qed.

Lemma Reqb_true (a b : R) : a = b -> Reqb a b = true.
Proof. intros Hab. unfold Reqb. destruct (Req_dec_T a b); [reflexivity | contradiction]. Qed.

Lemma Reqb_false (a b : R) : a <> b -> Reqb a b = false.
Proof. intros Hab. unfold Reqb. destruct (Req_dec_T a b); [contradiction | reflexivity]. Qed.

Lemma truediv_value (a b : R) : b <> 0 -> operator.truediv a b = Ok (a / b).
Proof. intros Hb. unfold operator.truediv. now rewrite Reqb_false. Qed.

Lemma truediv_zero (a : R) : operator.truediv a 0 = Raise ZeroDivisionError.
Proof. unfold operator.truediv. now rewrite Reqb_true. Qed.

(** ** Vectors *)

Lemma vector_eq (v w : Vector2D.t) :
  Vector2D.x v = Vector2D.x w -> Vector2D.y v = Vector2D.y w -> v = w.
Proof. destruct v, w; simpl; intros; subst; reflexivity. Qed.

(** A goal [v = w] on vectors, by linear arithmetic on the components. *)
Ltac vector_lra := apply vector_eq; simpl; lra.

(** The calls of [_apply_operator] that cannot raise. *)
Lemma apply_operator_plus (v w : Vector2D.t) :
  Vector2D.__add__ v (Vector2D.Vector w) = Ok (Vector2D.plus v w).
Proof. reflexivity. Qed.

Lemma apply_operator_minus (v w : Vector2D.t) :
  Vector2D.__sub__ v (Vector2D.Vector w) = Ok (Vector2D.minus v w).
Proof. reflexivity. Qed.

Lemma apply_operator_scale (s : R) (v : Vector2D.t) :
  Vector2D.__rmul__ v (Vector2D.Number s) = Ok (Vector2D.scale s v)
  /\ Vector2D.__mul__ v (Vector2D.Number s) = Ok (Vector2D.scale s v).
Proof. split; reflexivity. Qed.

Lemma apply_operator_radd_zero (v : Vector2D.t) :
  Vector2D.__radd__ v (Vector2D.Number 0) = Ok (Vector2D.plus Vector2D.Zero v).
Proof. unfold Vector2D.__radd__; simpl. f_equal. vector_lra. Qed.

Lemma magnitude_nonneg (v : Vector2D.t) : 0 <= Vector2D.magnitude v.
Proof. apply sqrt_pos. Qed.

Lemma magnitude_zero (v : Vector2D.t) :
  Vector2D.magnitude v = 0 <-> v = Vector2D.Zero.
Proof.
  split.
  - intros Hm. unfold Vector2D.magnitude in Hm.
    apply sqrt_eq_0 in Hm; [ | nra ].
    apply vector_eq; simpl; nra.
  - intros ->. unfold Vector2D.magnitude; simpl.
    replace (0 * 0 + 0 * 0) with 0 by lra. apply sqrt_0.
Qed.

Lemma magnitude_scale (s : R) (v : Vector2D.t) :
  Vector2D.magnitude (Vector2D.scale s v) = Rabs s * Vector2D.magnitude v.
Proof.
  unfold Vector2D.magnitude; simpl.
  replace (Vector2D.x v * s * (Vector2D.x v * s)
           + Vector2D.y v * s * (Vector2D.y v * s))
    with (Rsqr s * (Vector2D.x v * Vector2D.x v + Vector2D.y v * Vector2D.y v))
    by (unfold Rsqr; ring).
  rewrite sqrt_mult; [ | apply Rle_0_sqr | nra ].
  now rewrite sqrt_Rsqr_abs.
Qed.

Lemma magnitude_axis (a : R) : Vector2D.magnitude (Vector2D.mk a 0) = Rabs a.
Proof.
  unfold Vector2D.magnitude; simpl.
  replace (a * a + 0 * 0) with (Rsqr a) by (unfold Rsqr; ring).
  apply sqrt_Rsqr_abs.
Qed.

Lemma unit_value (v : Vector2D.t) :
  Vector2D.magnitude v <> 0 ->
  Vector2D.unit v = Ok (Vector2D.scale (/ Vector2D.magnitude v) v).
Proof.
  intros Hm. unfold Vector2D.unit.
  rewrite !truediv_value by assumption. reflexivity.
Qed.

Lemma resize_value (v : Vector2D.t) (m : R) :
  Vector2D.magnitude v <> 0 ->
  Vector2D.resize v m = Ok (Vector2D.scale (m / Vector2D.magnitude v) v).
Proof.
  intros Hm. unfold Vector2D.resize.
  rewrite Reqb_false by assumption.
  rewrite truediv_value by assumption. reflexivity.
Qed.

Lemma resize_zero (v : Vector2D.t) (m : R) :
  Vector2D.magnitude v = 0 -> Vector2D.resize v m = Raise ZeroDivisionError.
Proof. intros Hm. unfold Vector2D.resize. now rewrite Reqb_true. Qed.

Lemma magnitude_resized (v : Vector2D.t) (m : R) :
  Vector2D.magnitude v <> 0 ->
  Vector2D.magnitude (Vector2D.scale (m / Vector2D.magnitude v) v) = Rabs m.
Proof.
  intros Hm. rewrite magnitude_scale.
  pose proof (magnitude_nonneg v) as Hpos.
  unfold Rdiv. rewrite Rabs_mult, Rabs_inv.
  rewrite (Rabs_right (Vector2D.magnitude v)) by lra.
  field. assumption.
Qed.

(** C4.  [s - v] for a number [s] and a vector [v] is evaluated by
    [__rsub__], which applies [sub] with the receiver on the left: the
    result is [(v.x - s, v.y - s)], the negation of the broadcast
    [(s - v.x, s - v.y)].  At [s = 1] and [v = (0, 0)] the code yields
    [(-1, -1)] where elementwise scalar semantics gives [(1, 1)]. *)
Theorem number_minus_vector_reversed :
  (forall (s : R) (v : Vector2D.t),
      number_minus_vector s v
      = Ok (Vector2D.mk (Vector2D.x v - s) (Vector2D.y v - s)))
  /\ number_minus_vector 1 (Vector2D.mk 0 0) = Ok (Vector2D.mk (-1) (-1))
  /\ Vector2D.mk (-1) (-1) <> Vector2D.mk (1 - 0) (1 - 0).
Proof.
  split; [ reflexivity | split ].
  - unfold number_minus_vector, Vector2D.__rsub__; simpl. f_equal. vector_lra.
  - intros Heq. apply (f_equal Vector2D.x) in Heq. simpl in Heq. lra.
Qed.

(** C8.  [resize] raises [ZeroDivisionError] exactly when the magnitude of
    the receiver is zero, and raises nothing else.  On a receiver of
    nonzero magnitude it returns the receiver scaled by [m / magnitude],
    a vector of magnitude [|m|]: for a target magnitude [m >= 0] the factor
    is nonnegative (positive when [m] is), so the direction is kept, and
    the magnitude of the result is [m].  The receiver is an immutable
    value and is not changed. *)
Theorem resize_spec (v : Vector2D.t) (m : R) :
  (Vector2D.resize v m = Raise ZeroDivisionError <-> Vector2D.magnitude v = 0)
  /\ (Vector2D.magnitude v <> 0 ->
      exists w : Vector2D.t,
        Vector2D.resize v m = Ok w
        /\ w = Vector2D.scale (m / Vector2D.magnitude v) v
        /\ Vector2D.magnitude w = Rabs m
        /\ (0 <= m ->
            0 <= m / Vector2D.magnitude v /\ Vector2D.magnitude w = m)
        /\ (0 < m -> 0 < m / Vector2D.magnitude v)).
Proof.
  split.
  - split.
    + intros Hraise.
      destruct (Req_dec_T (Vector2D.magnitude v) 0) as [Hz | Hnz]; [assumption | ].
      rewrite resize_value in Hraise by assumption. discriminate.
    + apply resize_zero.
  - intros Hnz. exists (Vector2D.scale (m / Vector2D.magnitude v) v).
    pose proof (magnitude_nonneg v) as Hpos.
    assert (0 < / Vector2D.magnitude v) as Hinv
        by (apply Rinv_0_lt_compat; lra).
    split; [now apply resize_value | ].
    split; [reflexivity | ].
    split; [now apply magnitude_resized | ].
    split.
    + intros Hm. split.
      * apply Rmult_le_pos; lra.
      * rewrite magnitude_resized by assumption. apply Rabs_right. lra.
    + intros Hm. now apply Rmult_lt_0_compat.
Qed.

Lemma resize_spec_witness :
  exists w : Vector2D.t,
    Vector2D.resize (Vector2D.mk 3 4) 10 = Ok w /\ Vector2D.magnitude w = 10.
Proof.
  assert (0 <= 10) as Hm by lra.
  assert (Vector2D.magnitude (Vector2D.mk 3 4) <> 0) as Hnz.
  { intros Hz. apply magnitude_zero in Hz.
    apply (f_equal Vector2D.x) in Hz. simpl in Hz. lra. }
  destruct (proj2 (resize_spec (Vector2D.mk 3 4) 10) Hnz)
    as [w [Hw [_ [_ [Htarget _]]]]].
  exists w. split; [exact Hw | exact (proj2 (Htarget Hm))].
Defined.

(** ** The toroidal geometry of [Model] *)

Lemma wrap_cases (extent delta : R) :
  (extent < Rabs (2 * delta)
   /\ ((delta < 0 /\ wrap extent delta = delta + Rabs extent)
       \/ (0 <= delta /\ wrap extent delta = delta - Rabs extent)))
  \/ (Rabs (2 * delta) <= extent /\ wrap extent delta = delta).
Proof.
  unfold wrap, copysign.
  destruct (Rlt_dec extent (Rabs (2 * delta))) as [Hfar | Hnear].
  - left. split; [assumption | ].
    rewrite (Rltb_true _ _ Hfar).
    destruct (Rlt_dec delta 0) as [Hneg | Hpos].
    + left. rewrite (Rltb_true _ _ Hneg). split; [assumption | lra].
    + right. rewrite Rltb_false by lra. split; lra.
  - right. rewrite Rltb_false by lra. split; lra.
Qed.

Lemma wrap_opp (extent delta : R) :
  0 <= extent -> wrap extent (- delta) = - wrap extent delta.
Proof.
  intros Hext.
  assert (Rabs (2 * - delta) = Rabs (2 * delta)) as Habs.
  { replace (2 * - delta) with (- (2 * delta)) by ring. apply Rabs_Ropp. }
  destruct (wrap_cases extent delta) as [[Hfar Hd] | [Hnear Hd]];
    destruct (wrap_cases extent (- delta)) as [[Hfar' Hd'] | [Hnear' Hd']];
    rewrite Habs in *; try lra.
  assert (delta <> 0) as Hnz.
  { intros ->. rewrite Rmult_0_r, Rabs_R0 in Hfar. lra. }
  destruct Hd as [[? ->] | [? ->]]; destruct Hd' as [[? ->] | [? ->]]; lra.
Qed.

Lemma wrap_bound (extent delta : R) :
  0 <= extent -> Rabs delta <= extent -> Rabs (wrap extent delta) <= extent / 2.
Proof.
  intros Hext Hdelta.
  destruct (wrap_cases extent delta) as [[Hfar Hd] | [Hnear Hd]].
  - rewrite (Rabs_right extent) in Hd by lra.
    unfold Rabs in *.
    destruct (Rcase_abs (2 * delta)); destruct (Rcase_abs delta);
      destruct Hd as [[? ->] | [? ->]];
      match goal with |- context [Rcase_abs ?a] => destruct (Rcase_abs a) end;
      lra.
  - rewrite Hd. unfold Rabs in *.
    destruct (Rcase_abs (2 * delta)); destruct (Rcase_abs delta); lra.
Qed.

Lemma wrap_image (extent delta : R) :
  exists k : Z,
    (k = (-1)%Z \/ k = 0%Z \/ k = 1%Z)
    /\ wrap extent delta = delta + IZR k * extent.
Proof.
  destruct (wrap_cases extent delta) as [[_ Hd] | [_ Hd]].
  - unfold Rabs in Hd. destruct (Rcase_abs extent);
      destruct Hd as [[_ ->] | [_ ->]].
    + exists (-1)%Z. split; [tauto | lra].
    + exists 1%Z. split; [tauto | lra].
    + exists 1%Z. split; [tauto | lra].
    + exists (-1)%Z. split; [tauto | lra].
  - exists 0%Z. split; [tauto | lra].
Qed.

Lemma wrap_near (extent delta : R) :
  Rabs (2 * delta) <= extent -> wrap extent delta = delta.
Proof. intros Hnear. unfold wrap. now rewrite Rltb_false. Qed.

Section Geometry.

Context {A B : Type} `{Model A} `{Model B}.
Variable frame : Vector2D.t.

Lemma displacement_opp (a : A) (b : B) :
  valid_frame frame ->
  displacement frame a b = Vector2D.__neg__ (displacement frame b a).
Proof.
  intros [Hx Hy]. unfold displacement, Vector2D.__neg__; simpl.
  rewrite <- !wrap_opp by assumption.
  f_equal; f_equal; ring.
Qed.

Lemma eq_refl_tolerance (v : Vector2D.t) : Vector2D.__eq__ v v = true.
Proof.
  unfold Vector2D.__eq__, Vector2D.tolerance.
  replace (Vector2D.x v - Vector2D.x v) with 0 by ring.
  replace (Vector2D.y v - Vector2D.y v) with 0 by ring.
  rewrite Rabs_R0. rewrite Rltb_true; [reflexivity | ].
  apply Rinv_0_lt_compat. lra.
Qed.

Lemma displacement_bound (a : A) (b : B) :
  valid_frame frame ->
  in_frame frame (position a) -> in_frame frame (position b) ->
  Rabs (Vector2D.x (displacement frame a b)) <= Vector2D.x frame / 2
  /\ Rabs (Vector2D.y (displacement frame a b)) <= Vector2D.y frame / 2.
Proof.
  intros [Hx Hy] [Hax Hay] [Hbx Hby].
  unfold displacement; simpl.
  split; apply wrap_bound; try assumption; unfold Rabs;
    match goal with |- context [Rcase_abs ?r] => destruct (Rcase_abs r) end; lra.
Qed.

Lemma displacement_self (a : A) (b : B) :
  valid_frame frame -> position a = position b ->
  displacement frame a b = Vector2D.Zero.
Proof.
  intros [Hx Hy] Hpos. unfold displacement. rewrite Hpos. simpl.
  replace (Vector2D.x (position b) - Vector2D.x (position b)) with 0 by ring.
  replace (Vector2D.y (position b) - Vector2D.y (position b)) with 0 by ring.
  rewrite !wrap_near; [reflexivity | | ];
    rewrite Rmult_0_r, Rabs_R0; assumption.
Qed.

Lemma distance_self (a : A) (b : B) :
  valid_frame frame -> position a = position b -> distance frame a b = 0.
Proof.
  intros Hframe Hpos. unfold distance.
  rewrite displacement_self by assumption. now apply magnitude_zero.
Qed.

End Geometry.

Lemma magnitude_box (v : Vector2D.t) (a b : R) :
  Rabs (Vector2D.x v) <= a -> Rabs (Vector2D.y v) <= b ->
  Vector2D.magnitude v <= sqrt (a * a + b * b).
Proof.
  intros Ha Hb. unfold Vector2D.magnitude.
  apply sqrt_le_1_alt.
  pose proof (Rabs_pos (Vector2D.x v)) as Hxpos.
  pose proof (Rabs_pos (Vector2D.y v)) as Hypos.
  assert (Vector2D.x v * Vector2D.x v = Rabs (Vector2D.x v) * Rabs (Vector2D.x v)) as ->.
  { unfold Rabs. destruct (Rcase_abs (Vector2D.x v)); ring. }
  assert (Vector2D.y v * Vector2D.y v = Rabs (Vector2D.y v) * Rabs (Vector2D.y v)) as ->.
  { unfold Rabs. destruct (Rcase_abs (Vector2D.y v)); ring. }
  nra.
Qed.

(** The positions that the code gives to a boid lie inside of the frame. *)
Lemma mod_range (a b : R) :
  0 < b -> exists r : R, operator.mod_ a b = Ok r /\ 0 <= r < b.
Proof.
  intros Hb. unfold operator.mod_. rewrite Reqb_false by lra.
  eexists; split; [reflexivity | ].
  unfold floor. destruct (base_Int_part (a / b)) as [Hlow Hhigh].
  assert (a = b * (a / b)) as Ha by (field; lra).
  split; nra.
Qed.

Lemma vector_mod_in_frame (frame p : Vector2D.t) :
  0 < Vector2D.x frame -> 0 < Vector2D.y frame ->
  exists q : Vector2D.t,
    Vector2D.__mod__ p (Vector2D.Vector frame) = Ok q /\ in_frame frame q.
Proof.
  intros Hx Hy. unfold Vector2D.__mod__, Vector2D._apply_operator.
  destruct (mod_range (Vector2D.x p) _ Hx) as [rx [-> Hrx]].
  destruct (mod_range (Vector2D.y p) _ Hy) as [ry [-> Hry]].
  simpl. eexists; split; [reflexivity | ].
  unfold in_frame; simpl. lra.
Qed.

Lemma Boid_init_in_frame (frame p v a : Vector2D.t) :
  0 < Vector2D.x frame -> 0 < Vector2D.y frame ->
  exists b : Boid.t,
    Boid.__init__ frame p v a = Ok b /\ in_frame frame (position b).
Proof.
  intros Hx Hy. unfold Boid.__init__.
  destruct (vector_mod_in_frame frame p Hx Hy) as [q [-> Hq]].
  simpl. eexists; split; [reflexivity | exact Hq].
Qed.

(** The rounding of [Obstacle] can reach the far edge of a frame of whole
    extents, and no further. *)
Lemma round_range (a : R) (w : Z) :
  0 <= a < IZR w -> 0 <= Obstacle.round a <= IZR w.
Proof.
  intros [Hlow Hhigh].
  destruct (base_Int_part a) as [Hbelow Habove].
  assert (-1 < Int_part a < w)%Z as [Hneg Hlt]
      by (split; apply lt_IZR; simpl; lra).
  assert (0 <= IZR (Int_part a)) as Hzero by (apply IZR_le; lia).
  assert (IZR (Int_part a + 1) <= IZR w) as Hnext by (apply IZR_le; lia).
  assert (IZR (Int_part a) <= IZR (Int_part a + 1)) as Hstep
      by (apply IZR_le; lia).
  unfold Obstacle.round.
  destruct (Rltb (a - IZR (Int_part a)) (1 / 2)); [lra | ].
  destruct (Rltb (1 / 2) (a - IZR (Int_part a))); [lra | ].
  destruct (Z.even (Int_part a)); lra.
Qed.

Lemma Obstacle_init_in_frame (w h : Z) (p : Vector2D.t) :
  (0 < w)%Z -> (0 < h)%Z ->
  exists o : Obstacle.t,
    Obstacle.__init__ (Vector2D.mk (IZR w) (IZR h)) p = Ok o
    /\ in_frame (Vector2D.mk (IZR w) (IZR h)) (position o).
Proof.
  intros Hw Hh. unfold Obstacle.__init__.
  destruct (vector_mod_in_frame (Vector2D.mk (IZR w) (IZR h)) p)
    as [q [Hq Hin]]; [now apply IZR_lt | now apply IZR_lt | ].
  assert (0 <= Vector2D.x q < IZR w /\ 0 <= Vector2D.y q < IZR h)
    as [Hx Hy].
  { revert Hq. unfold Vector2D.__mod__, Vector2D._apply_operator.
    destruct (mod_range (Vector2D.x p) (IZR w)) as [rx [Hrx Hxr]];
      [now apply (IZR_lt 0) | ].
    destruct (mod_range (Vector2D.y p) (IZR h)) as [ry [Hry Hyr]];
      [now apply (IZR_lt 0) | ].
    simpl. rewrite Hrx, Hry. cbn [bind]. intros Heq.
    injection Heq as <-. simpl. split; assumption. }
  rewrite Hq. cbn [bind]. eexists; split; [reflexivity | ].
  unfold in_frame; simpl. split; now apply round_range.
Qed.

(** C5.  In a frame of nonnegative extents, [a.displacement(b)] is the
    negation of [b.displacement(a)] for every two models, exactly and
    therefore also under the tolerant equality [__eq__] of vectors. *)
Theorem displacement_antisymmetric {A B : Type} `{Model A} `{Model B}
  (frame : Vector2D.t) (a : A) (b : B) :
  valid_frame frame ->
  displacement frame a b = Vector2D.__neg__ (displacement frame b a)
  /\ Vector2D.__eq__ (displacement frame a b)
       (Vector2D.__neg__ (displacement frame b a)) = true.
Proof.
  intros Hframe.
  rewrite <- (displacement_opp frame a b Hframe).
  split; [reflexivity | apply eq_refl_tolerance].
Qed.

Lemma test_frame_valid : valid_frame test_frame.
Proof. unfold valid_frame, test_frame; simpl; lra. Qed.

Lemma boid_at_in_test_frame (px py : R) :
  0 <= px <= 40 -> 0 <= py <= 30 -> in_frame test_frame (position (boid_at px py)).
Proof. intros Hx Hy. unfold in_frame, test_frame; simpl. lra. Qed.

Lemma displacement_antisymmetric_witness :
  displacement test_frame (boid_at 5 5) (boid_at 30 15)
  = Vector2D.__neg__ (displacement test_frame (boid_at 30 15) (boid_at 5 5)).
Proof.
  apply (displacement_antisymmetric test_frame (boid_at 5 5) (boid_at 30 15)).
  unfold valid_frame, test_frame; simpl; lra.
Defined.

(** C6.  For two models inside of a frame of width [W] and height [H],
    each component of the displacement is at most half of the extent of
    the frame on its axis, and the distance is at most
    [sqrt ((W/2)^2 + (H/2)^2)]. *)
Theorem distance_bound {A B : Type} `{Model A} `{Model B}
  (frame : Vector2D.t) (a : A) (b : B) :
  valid_frame frame ->
  in_frame frame (position a) -> in_frame frame (position b) ->
  Rabs (Vector2D.x (displacement frame a b)) <= Vector2D.x frame / 2
  /\ Rabs (Vector2D.y (displacement frame a b)) <= Vector2D.y frame / 2
  /\ distance frame a b
     <= sqrt (Vector2D.x frame / 2 * (Vector2D.x frame / 2)
              + Vector2D.y frame / 2 * (Vector2D.y frame / 2)).
Proof.
  intros Hframe Ha Hb.
  destruct (displacement_bound frame a b Hframe Ha Hb) as [Hx Hy].
  split; [assumption | split; [assumption | ]].
  unfold distance. now apply magnitude_box.
Qed.

Lemma distance_bound_witness :
  distance test_frame (boid_at 5 5) (boid_at 30 15)
  <= sqrt (40 / 2 * (40 / 2) + 30 / 2 * (30 / 2)).
Proof.
  apply (distance_bound test_frame (boid_at 5 5) (boid_at 30 15)).
  - unfold valid_frame, test_frame; simpl; lra.
  - unfold in_frame, test_frame; simpl; lra.
  - unfold in_frame, test_frame; simpl; lra.
Defined.

(** C10.  [a.get_image(b)] is a periodic copy of the position of [a]: it is
    that position moved by [k] frame widths and [l] frame heights, with
    [k] and [l] among -1, 0 and 1. *)
Theorem get_image_periodic {A B : Type} `{Model A} `{Model B}
  (frame : Vector2D.t) (a : A) (b : B) :
  exists k l : Z,
    (k = (-1)%Z \/ k = 0%Z \/ k = 1%Z)
    /\ (l = (-1)%Z \/ l = 0%Z \/ l = 1%Z)
    /\ Vector2D.x (get_image frame a b)
       = Vector2D.x (position a) + IZR k * Vector2D.x frame
    /\ Vector2D.y (get_image frame a b)
       = Vector2D.y (position a) + IZR l * Vector2D.y frame.
Proof.
  unfold get_image, displacement; simpl.
  destruct (wrap_image (Vector2D.x frame)
              (Vector2D.x (position a) - Vector2D.x (position b)))
    as [k [Hk ->]].
  destruct (wrap_image (Vector2D.y frame)
              (Vector2D.y (position a) - Vector2D.y (position b)))
    as [l [Hl ->]].
  exists k, l. repeat split; try assumption; ring.
Qed.

(** ** Neighbour discovery *)

Section Neighbors.

Context {A : Type} `{Model A}.
Variable frame : Vector2D.t.
Variable boid : Boid.t.
Variable radius : R.

Lemma get_neighbors_from_In (population : list A) (start i : nat) (d : R) :
  In (i, d) (Flock.get_neighbors_from frame boid population radius start)
  <-> exists other : A,
        (start <= i)%nat
        /\ nth_error population (i - start) = Some other
        /\ d = distance frame boid other
        /\ 0 < d < radius.
Proof.
  revert start. induction population as [ | candidate rest IH]; intros start; simpl.
  - split; [contradiction | ].
    intros [other [_ [Hnth _]]]. destruct (i - start)%nat; discriminate.
  - assert (forall other : A,
               (start <= i)%nat /\ nth_error (candidate :: rest) (i - start) = Some other
               <-> (i = start /\ other = candidate)
                   \/ ((S start <= i)%nat /\ nth_error rest (i - S start) = Some other))
      as Hsplit.
    { intros other. destruct (Nat.eq_dec i start) as [-> | Hneq].
      - rewrite Nat.sub_diag. simpl. split.
        + intros [_ Heq]. left. split; [reflexivity | congruence].
        + intros [[_ ->] | [Hlt _]]; [split; [lia | reflexivity] | lia].
      - split.
        + intros [Hle Hnth]. right. split; [lia | ].
          replace (i - start)%nat with (S (i - S start)) in Hnth by lia.
          exact Hnth.
        + intros [[Heq _] | [Hle Hnth]]; [contradiction | ].
          split; [lia | ].
          replace (i - start)%nat with (S (i - S start)) by lia. exact Hnth. }
    destruct (Rltb 0 (distance frame boid candidate)
              && Rltb (distance frame boid candidate) radius) eqn:Hin.
    + apply andb_true_iff in Hin. destruct Hin as [Hpos Hlt].
      apply Rltb_lt in Hpos. apply Rltb_lt in Hlt.
      simpl. rewrite IH. split.
      * intros [Heq | [other [Hle [Hnth Hd]]]].
        -- inversion Heq; subst. exists candidate.
           destruct (proj2 (Hsplit candidate)) as [Hle Hnth];
             [left; split; reflexivity | ].
           repeat split; try assumption.
        -- exists other.
           destruct (proj2 (Hsplit other)) as [Hle' Hnth'];
             [right; split; assumption | ].
           repeat split; try assumption; apply Hd.
      * intros [other [Hle [Hnth Hd]]].
        destruct (proj1 (Hsplit other) (conj Hle Hnth)) as [[-> ->] | [Hle' Hnth']].
        -- left. destruct Hd as [-> _]. reflexivity.
        -- right. exists other. repeat split; try assumption; apply Hd.
    + rewrite IH. split.
      * intros [other [Hle [Hnth Hd]]]. exists other.
        destruct (proj2 (Hsplit other)) as [Hle' Hnth'];
          [right; split; assumption | ].
        repeat split; try assumption; apply Hd.
      * intros [other [Hle [Hnth [Hd [Hpos Hlt]]]]].
        destruct (proj1 (Hsplit other) (conj Hle Hnth)) as [[-> ->] | [Hle' Hnth']].
        -- subst d. rewrite (Rltb_true _ _ Hpos), (Rltb_true _ _ Hlt) in Hin.
           discriminate.
        -- exists other. repeat split; assumption.
Qed.

Lemma get_neighbors_In (population : list A) (i : nat) (d : R) :
  In (i, d) (Flock.get_neighbors frame boid population radius)
  <-> exists other : A,
        nth_error population i = Some other
        /\ d = distance frame boid other
        /\ 0 < d < radius.
Proof.
  unfold Flock.get_neighbors. rewrite get_neighbors_from_In.
  rewrite Nat.sub_0_r. split.
  - intros [other [_ Hrest]]. exists other. exact Hrest.
  - intros [other Hrest]. exists other. split; [lia | exact Hrest].
Qed.

End Neighbors.

(** C7.  A candidate of the population is an item of the mapping returned
    by [get_neighbors], with its distance as the value, exactly when that
    wrap-aware distance [d] to the owning boid satisfies [0 < d < radius].
    A candidate at the position of the boid (the boid itself) is at
    distance zero and is left out, a candidate at distance [radius] is left
    out, and one at distance [radius - e] for [0 < e < radius] is included. *)
Theorem get_neighbors_spec {A : Type} `{Model A} (frame : Vector2D.t)
  (boid : Boid.t) (population : list A) (radius : R) :
  valid_frame frame ->
  (forall (i : nat) (d : R),
      In (i, d) (Flock.get_neighbors frame boid population radius)
      <-> exists other : A,
            nth_error population i = Some other
            /\ d = distance frame boid other
            /\ 0 < d < radius)
  /\ (forall (i : nat) (other : A),
         nth_error population i = Some other ->
         position other = position boid ->
         distance frame boid other = 0
         /\ forall d : R,
             ~ In (i, d) (Flock.get_neighbors frame boid population radius))
  /\ (forall (i : nat) (other : A),
         nth_error population i = Some other ->
         distance frame boid other = radius ->
         forall d : R,
           ~ In (i, d) (Flock.get_neighbors frame boid population radius))
  /\ (forall (i : nat) (other : A) (e : R),
         nth_error population i = Some other ->
         0 < e < radius ->
         distance frame boid other = radius - e ->
         In (i, radius - e) (Flock.get_neighbors frame boid population radius)).
Proof.
  intros Hframe. split; [ | split; [ | split ] ].
  - intros i d. apply get_neighbors_In.
  - intros i other Hnth Hpos.
    assert (distance frame boid other = 0) as Hzero
        by (apply distance_self; [assumption | now symmetry]).
    split; [assumption | ].
    intros d Hin. apply get_neighbors_In in Hin.
    destruct Hin as [other' [Hnth' [Hd Hrange]]].
    assert (other' = other) by congruence. subst other'. lra.
  - intros i other Hnth Hdist d Hin. apply get_neighbors_In in Hin.
    destruct Hin as [other' [Hnth' [Hd Hrange]]].
    assert (other' = other) by congruence. subst other'. lra.
  - intros i other e Hnth He Hdist. apply get_neighbors_In.
    exists other. repeat split; try assumption; lra.
Qed.

(** ** The store and the loops *)

Lemma lookup_Ok {A : Type} (store : list A) (i : nat) :
  (i < length store)%nat -> exists a : A, lookup store i = Ok a.
Proof.
  intros Hi. unfold lookup.
  destruct (nth_error store i) as [a | ] eqn:Hnth.
  - exists a. reflexivity.
  - apply nth_error_None in Hnth. lia.
Qed.

Lemma lookup_Ok_inv {A : Type} (store : list A) (i : nat) (a : A) :
  lookup store i = Ok a -> nth_error store i = Some a /\ (i < length store)%nat.
Proof.
  unfold lookup. destruct (nth_error store i) as [a' | ] eqn:Hnth; [ | discriminate ].
  intros Heq. inversion Heq; subst. split; [reflexivity | ].
  apply nth_error_Some. congruence.
Qed.

Lemma length_assign {A : Type} (store : list A) (i : nat) (a : A) :
  length (assign store i a) = length store.
Proof.
  revert i. induction store as [ | b rest IH]; intros [ | j]; simpl; auto.
Qed.

Lemma lookup_assign_same {A : Type} (store : list A) (i : nat) (a : A) :
  (i < length store)%nat -> lookup (assign store i a) i = Ok a.
Proof.
  revert i. induction store as [ | b rest IH]; intros [ | j] Hi; simpl in *;
    try lia; [reflexivity | ].
  unfold lookup in *. simpl. apply IH. lia.
Qed.

Lemma lookup_assign_other {A : Type} (store : list A) (i j : nat) (a : A) :
  i <> j -> lookup (assign store i a) j = lookup store j.
Proof.
  revert i j. induction store as [ | b rest IH]; intros [ | i] [ | j] Hneq;
    simpl; try reflexivity; try contradiction.
  unfold lookup in *. simpl. apply IH. congruence.
Qed.

Lemma mapM_Ok {A B : Type} (f : A -> result B) (l : list A) :
  (forall a : A, In a l -> exists b : B, f a = Ok b) ->
  exists bs : list B, mapM f l = Ok bs /\ length bs = length l.
Proof.
  induction l as [ | a rest IH]; intros Hall; simpl.
  - exists []. split; reflexivity.
  - destruct (Hall a (or_introl eq_refl)) as [b ->].
    destruct IH as [bs [-> Hlen]].
    { intros a' Hin. apply Hall. now right. }
    simpl. exists (b :: bs). split; [reflexivity | simpl; congruence].
Qed.

Lemma mean_Ok (data : list Vector2D.t) :
  data <> [] ->
  utilities.mean data
  = Ok (Vector2D.scale (1 / INR (length data)) (utilities.sum data)).
Proof.
  intros Hdata. unfold utilities.mean.
  rewrite truediv_value; [reflexivity | ].
  apply not_0_INR. destruct data; [contradiction | simpl; lia].
Qed.

Lemma mean_empty : utilities.mean [] = Raise ZeroDivisionError.
Proof. unfold utilities.mean. simpl. now rewrite truediv_zero. Qed.

Lemma vector_truediv_Ok (v : Vector2D.t) (d : R) :
  d <> 0 ->
  Vector2D.__truediv__ v (Vector2D.Number d)
  = Ok (Vector2D.mk (Vector2D.x v / d) (Vector2D.y v / d)).
Proof.
  intros Hd. unfold Vector2D.__truediv__, Vector2D._apply_operator.
  rewrite !truediv_value by assumption. reflexivity.
Qed.

(** ** Flocks *)

Lemma bool_false_zero (v : Vector2D.t) :
  Vector2D.__bool__ v = false <-> Vector2D.magnitude v = 0.
Proof.
  unfold Vector2D.__bool__, Reqb.
  destruct (Req_dec_T (Vector2D.magnitude v) 0); simpl; split;
    intros; congruence.
Qed.

(** The guard of [steering_vector] keeps [resize] from raising. *)
Lemma steering_vector_value (population : list Boid.t) (self : Flock.t)
  (owner : Boid.t) (desired : Vector2D.t) :
  lookup population (Flock.boid self) = Ok owner ->
  Flock.steering_vector population self desired
  = Ok (if Vector2D.__bool__ desired
        then Vector2D.minus
               (Vector2D.scale (Boid.max_velocity / Vector2D.magnitude desired)
                               desired)
               (Boid.velocity owner)
        else Vector2D.Zero).
Proof.
  intros Howner. unfold Flock.steering_vector. rewrite Howner. simpl.
  destruct (Vector2D.__bool__ desired) eqn:Hbool; simpl; [ | reflexivity ].
  rewrite resize_value; [reflexivity | ].
  intros Hz. apply bool_false_zero in Hz. congruence.
Qed.

Section Built_flock.

Variable frame : Vector2D.t.
Variable population : list Boid.t.
Variable obstacle_list : list Obstacle.t.
Variables (boid : nat) (radius alignment cohesion fear separation : R).
Variable flock : Flock.t.
Hypothesis Hbuilt :
  Flock.__init__ frame population obstacle_list boid radius
    alignment cohesion fear separation = Ok flock.

Lemma built_owner : Flock.boid flock = boid /\ (boid < length population)%nat.
Proof.
  unfold Flock.__init__ in Hbuilt.
  destruct (lookup population boid) as [owner | ] eqn:Howner; [ | discriminate ].
  apply lookup_Ok_inv in Howner. simpl in Hbuilt.
  inversion Hbuilt; subst; simpl. split; [reflexivity | apply Howner].
Qed.

Lemma built_neighbors (i : nat) (d : R) :
  In (i, d) (Flock.neighbors flock) -> (i < length population)%nat /\ 0 < d < radius.
Proof.
  unfold Flock.__init__ in Hbuilt.
  destruct (lookup population boid) as [owner | ]; [ | discriminate ].
  simpl in Hbuilt. inversion Hbuilt; subst; simpl.
  intros Hin. apply get_neighbors_In in Hin.
  destruct Hin as [other [Hnth [_ Hrange]]].
  split; [ | exact Hrange ].
  apply nth_error_Some. congruence.
Qed.

Lemma built_obstacles (i : nat) (d : R) :
  In (i, d) (Flock.obstacles flock) ->
  (i < length obstacle_list)%nat /\ 0 < d < radius.
Proof.
  unfold Flock.__init__ in Hbuilt.
  destruct (lookup population boid) as [owner | ]; [ | discriminate ].
  simpl in Hbuilt. inversion Hbuilt; subst; simpl.
  intros Hin. apply get_neighbors_In in Hin.
  destruct Hin as [other [Hnth [_ Hrange]]].
  split; [ | exact Hrange ].
  apply nth_error_Some. congruence.
Qed.

(** The population at the moment the properties of the flock are read:
    the same boids, possibly moved since the flock was built. *)
Variable population' : list Boid.t.
Hypothesis Hsame : length population' = length population.

Lemma built_owner_lookup :
  exists owner : Boid.t, lookup population' (Flock.boid flock) = Ok owner.
Proof.
  destruct built_owner as [-> Hlt]. apply lookup_Ok. lia.
Qed.

Lemma separation_terms_Ok :
  exists data : list Vector2D.t,
    Flock.separation_terms frame population' flock = Ok data
    /\ length data = length (Flock.neighbors flock).
Proof.
  unfold Flock.separation_terms. apply mapM_Ok.
  intros [i d] Hin.
  destruct (built_neighbors i d Hin) as [Hi Hd]. cbn [fst snd].
  destruct (lookup_Ok population' i) as [neighbor ->]; [lia | ].
  destruct built_owner_lookup as [owner ->]. cbn [bind fst snd].
  rewrite vector_truediv_Ok by lra. eexists; reflexivity.
Qed.

Lemma fear_terms_Ok :
  exists data : list Vector2D.t,
    Flock.fear_terms frame population' obstacle_list flock = Ok data
    /\ length data = length (Flock.obstacles flock).
Proof.
  unfold Flock.fear_terms. apply mapM_Ok.
  intros [i d] Hin.
  destruct (built_obstacles i d Hin) as [Hi Hd]. cbn [fst snd].
  destruct (lookup_Ok obstacle_list i) as [obstacle ->]; [lia | ].
  destruct built_owner_lookup as [owner ->]. cbn [bind fst snd].
  rewrite vector_truediv_Ok by lra. eexists; reflexivity.
Qed.

Lemma separation_vector_Ok :
  Flock.neighbors flock <> [] ->
  exists v : Vector2D.t, Flock.separation_vector frame population' flock = Ok v.
Proof.
  intros Hne. unfold Flock.separation_vector.
  destruct separation_terms_Ok as [data [-> Hlen]]. simpl.
  rewrite mean_Ok.
  - simpl. destruct built_owner_lookup as [owner Howner].
    rewrite (steering_vector_value _ _ owner) by assumption.
    eexists; reflexivity.
  - intros ->. destruct (Flock.neighbors flock); [contradiction | discriminate].
Qed.

Lemma fear_vector_Ok :
  Flock.obstacles flock <> [] ->
  exists v : Vector2D.t,
    Flock.fear_vector frame population' obstacle_list flock = Ok v.
Proof.
  intros Hne. unfold Flock.fear_vector.
  destruct fear_terms_Ok as [data [-> Hlen]]. simpl.
  rewrite mean_Ok.
  - simpl. destruct built_owner_lookup as [owner Howner].
    rewrite (steering_vector_value _ _ owner) by assumption.
    eexists; reflexivity.
  - intros ->. destruct (Flock.obstacles flock); [contradiction | discriminate].
Qed.

Lemma alignment_vector_Ok :
  Flock.neighbors flock <> [] ->
  exists v : Vector2D.t, Flock.alignment_vector population' flock = Ok v.
Proof.
  intros Hne. unfold Flock.alignment_vector, Flock.average_velocity.
  destruct (mapM_Ok
              (fun item : nat * R =>
                 neighbor <- lookup population' (fst item) ;;
                 Ok (Boid.velocity neighbor))
              (Flock.neighbors flock)) as [data [-> Hlen]].
  { intros [i d] Hin. cbn [fst].
    destruct (built_neighbors i d Hin) as [Hi _].
    destruct (lookup_Ok population' i) as [neighbor ->]; [lia | ].
    eexists; reflexivity. }
  cbn [bind]. rewrite mean_Ok.
  - cbn [bind]. destruct built_owner_lookup as [owner Howner].
    rewrite (steering_vector_value _ _ owner) by assumption.
    eexists; reflexivity.
  - intros ->. destruct (Flock.neighbors flock); [contradiction | discriminate].
Qed.

Lemma cohesion_vector_Ok :
  Flock.neighbors flock <> [] ->
  exists v : Vector2D.t, Flock.cohesion_vector frame population' flock = Ok v.
Proof.
  intros Hne. unfold Flock.cohesion_vector, Flock.center_of_mass.
  destruct built_owner_lookup as [owner Howner].
  destruct (mapM_Ok
              (fun item : nat * R =>
                 neighbor <- lookup population' (fst item) ;;
                 owner <- lookup population' (Flock.boid flock) ;;
                 Ok (get_image frame neighbor owner))
              (Flock.neighbors flock)) as [data [-> Hlen]].
  { intros [i d] Hin. cbn [fst].
    destruct (built_neighbors i d Hin) as [Hi _].
    destruct (lookup_Ok population' i) as [neighbor ->]; [lia | ].
    rewrite Howner. eexists; reflexivity. }
  cbn [bind]. rewrite mean_Ok.
  - cbn [bind]. rewrite Howner. cbn [bind].
    rewrite (steering_vector_value _ _ owner) by assumption.
    eexists; reflexivity.
  - intros ->. destruct (Flock.neighbors flock); [contradiction | discriminate].
Qed.

(** [apply_impulse] computes its impulse without raising. *)
Lemma impulse_Ok :
  exists v : Vector2D.t,
    Flock.impulse frame population' obstacle_list flock = Ok v.
Proof.
  unfold Flock.impulse. cbn [bind].
  assert (exists v : Vector2D.t,
             Flock.neighbors flock <> [] ->
             Flock.alignment_vector population' flock = Ok v) as [a Ha].
  { destruct (Flock.neighbors flock) as [ | item rest] eqn:Hneighbors.
    - exists Vector2D.Zero. intros Habs. now contradiction Habs.
    - destruct alignment_vector_Ok as [a Ha];
        [rewrite Hneighbors; discriminate | ].
      exists a. intros _. exact Ha. }
  assert (exists v : Vector2D.t,
             Flock.neighbors flock <> [] ->
             Flock.cohesion_vector frame population' flock = Ok v) as [c Hc].
  { destruct (Flock.neighbors flock) as [ | item rest] eqn:Hneighbors.
    - exists Vector2D.Zero. intros Habs. now contradiction Habs.
    - destruct cohesion_vector_Ok as [c Hc];
        [rewrite Hneighbors; discriminate | ].
      exists c. intros _. exact Hc. }
  assert (exists v : Vector2D.t,
             Flock.neighbors flock <> [] ->
             Flock.separation_vector frame population' flock = Ok v) as [sv Hsv].
  { destruct (Flock.neighbors flock) as [ | item rest] eqn:Hneighbors.
    - exists Vector2D.Zero. intros Habs. now contradiction Habs.
    - destruct separation_vector_Ok as [sv Hsv];
        [rewrite Hneighbors; discriminate | ].
      exists sv. intros _. exact Hsv. }
  assert (exists v : Vector2D.t,
             Flock.obstacles flock <> [] ->
             Flock.fear_vector frame population' obstacle_list flock = Ok v)
    as [f Hf].
  { destruct (Flock.obstacles flock) as [ | item rest] eqn:Hobstacles.
    - exists Vector2D.Zero. intros Habs. now contradiction Habs.
    - destruct fear_vector_Ok as [f Hf];
        [rewrite Hobstacles; discriminate | ].
      exists f. intros _. exact Hf. }
  destruct (Flock.neighbors flock) as [ | item rest];
    [ | rewrite Ha, Hc, Hsv by discriminate; cbn [bind] ];
    (destruct (Flock.obstacles flock) as [ | item' rest'];
     [ | rewrite Hf by discriminate; cbn [bind] ]);
    eexists; reflexivity.
Qed.

End Built_flock.

(** C9.  In a flock built by the constructor every distance stored in the
    neighbour and the obstacle mapping is strictly positive.  Whatever the
    positions of the boids when the vectors are read, no quotient
    [displacement / distance] of [separation_vector] or [fear_vector]
    raises, and on a non-empty mapping the vector itself is returned. *)
Theorem distance_divisions_safe (frame : Vector2D.t)
  (population : list Boid.t) (obstacle_list : list Obstacle.t)
  (boid : nat) (radius alignment cohesion fear separation : R)
  (flock : Flock.t) :
  Flock.__init__ frame population obstacle_list boid radius
    alignment cohesion fear separation = Ok flock ->
  (forall (i : nat) (d : R), In (i, d) (Flock.neighbors flock) -> 0 < d)
  /\ (forall (i : nat) (d : R), In (i, d) (Flock.obstacles flock) -> 0 < d)
  /\ forall population' : list Boid.t,
      length population' = length population ->
      (exists data : list Vector2D.t,
          Flock.separation_terms frame population' flock = Ok data)
      /\ (exists data : list Vector2D.t,
             Flock.fear_terms frame population' obstacle_list flock = Ok data)
      /\ (Flock.neighbors flock <> [] ->
          exists v : Vector2D.t,
            Flock.separation_vector frame population' flock = Ok v)
      /\ (Flock.obstacles flock <> [] ->
          exists v : Vector2D.t,
            Flock.fear_vector frame population' obstacle_list flock = Ok v).
Proof.
  intros Hbuilt. split; [ | split ].
  - intros i d Hin. eapply built_neighbors in Hin; [ | exact Hbuilt ]. lra.
  - intros i d Hin. eapply built_obstacles in Hin; [ | exact Hbuilt ]. lra.
  - intros population' Hsame. split; [ | split; [ | split ] ].
    + destruct (separation_terms_Ok _ _ _ _ _ _ _ _ _ _ Hbuilt population' Hsame)
        as [data [Hdata _]].
      exists data. exact Hdata.
    + destruct (fear_terms_Ok _ _ _ _ _ _ _ _ _ _ Hbuilt population' Hsame)
        as [data [Hdata _]].
      exists data. exact Hdata.
    + eapply separation_vector_Ok; eassumption.
    + eapply fear_vector_Ok; eassumption.
Qed.

Lemma distance_divisions_safe_witness :
  exists data : list Vector2D.t,
    Flock.separation_terms test_frame [boid_at 5 5; boid_at 8 5]
      (Flock.mk 0 10
         (Flock.get_neighbors test_frame (boid_at 5 5)
            [boid_at 5 5; boid_at 8 5] 10)
         (Flock.get_neighbors test_frame (boid_at 5 5)
            (@nil Obstacle.t) 10)
         1 1 1 1)
    = Ok data.
Proof.
  refine (proj1 (proj2 (proj2
    (distance_divisions_safe test_frame [boid_at 5 5; boid_at 8 5] []
       0%nat 10 1 1 1 1 _ _)) [boid_at 5 5; boid_at 8 5] _)).
  - reflexivity.
  - reflexivity.
Defined.

(** ** The clamps of [Boid] *)

Lemma scale_scale (s k : R) (v : Vector2D.t) :
  Vector2D.scale s (Vector2D.scale k v) = Vector2D.scale (s * k) v.
Proof. apply vector_eq; simpl; ring. Qed.

Lemma scale_one (v : Vector2D.t) : Vector2D.scale 1 v = v.
Proof. apply vector_eq; simpl; ring. Qed.

(** [limit * v.unit] for a vector of magnitude at least [limit > 0]. *)
Lemma rescaled (limit : R) (v : Vector2D.t) :
  0 < limit -> limit <= Vector2D.magnitude v ->
  (u <- Vector2D.unit v ;; Ok (Vector2D.scale limit u))
  = Ok (Vector2D.scale (limit / Vector2D.magnitude v) v)
  /\ Vector2D.magnitude (Vector2D.scale (limit / Vector2D.magnitude v) v)
     = limit.
Proof.
  intros Hlimit Hmag.
  assert (Vector2D.magnitude v <> 0) as Hnz by lra.
  split.
  - rewrite unit_value by assumption. simpl. now rewrite scale_scale.
  - rewrite magnitude_resized by assumption. apply Rabs_right. lra.
Qed.

Lemma max_velocity_pos : 0 < Boid.max_velocity.
Proof. unfold Boid.max_velocity. lra. Qed.

Lemma max_acceleration_pos : 0 < Boid.max_acceleration.
Proof. unfold Boid.max_acceleration. lra. Qed.

Lemma set_velocity_spec (self : Boid.t) (v : Vector2D.t) :
  exists self' : Boid.t,
    Boid.set_velocity self v = Ok self'
    /\ position self' = position self
    /\ Boid.acceleration self' = Boid.acceleration self
    /\ Vector2D.magnitude (Boid.velocity self') <= Boid.max_velocity
    /\ (Boid.max_velocity <= Vector2D.magnitude v ->
        Boid.velocity self'
        = Vector2D.scale (Boid.max_velocity / Vector2D.magnitude v) v
        /\ Vector2D.magnitude (Boid.velocity self') = Boid.max_velocity)
    /\ (Vector2D.magnitude v < Boid.max_velocity -> Boid.velocity self' = v).
Proof.
  unfold Boid.set_velocity.
  destruct (Rle_dec Boid.max_velocity (Vector2D.magnitude v)) as [Hbig | Hsmall].
  - rewrite (Rleb_true _ _ Hbig).
    destruct (rescaled _ v max_velocity_pos Hbig) as [-> Hmag].
    simpl. eexists; split; [reflexivity | ]. simpl.
    repeat split; try lra; try assumption.
  - rewrite Rleb_false by lra. simpl.
    eexists; split; [reflexivity | ]. simpl.
    repeat split; try lra.
Qed.

Lemma set_acceleration_spec (self : Boid.t) (v : Vector2D.t) :
  exists self' : Boid.t,
    Boid.set_acceleration self v = Ok self'
    /\ position self' = position self
    /\ Boid.velocity self' = Boid.velocity self
    /\ Vector2D.magnitude (Boid.acceleration self') <= Boid.max_acceleration
    /\ (Boid.max_acceleration <= Vector2D.magnitude v ->
        Boid.acceleration self'
        = Vector2D.scale (Boid.max_acceleration / Vector2D.magnitude v) v
        /\ Vector2D.magnitude (Boid.acceleration self') = Boid.max_acceleration)
    /\ (Vector2D.magnitude v <= Boid.max_acceleration ->
        Boid.acceleration self' = v).
Proof.
  unfold Boid.set_acceleration.
  destruct (Rlt_dec Boid.max_acceleration (Vector2D.magnitude v)) as [Hbig | Hsmall].
  - rewrite (Rltb_true _ _ Hbig).
    destruct (rescaled _ v max_acceleration_pos (Rlt_le _ _ Hbig)) as [-> Hmag].
    simpl. eexists; split; [reflexivity | ]. simpl.
    repeat split; try lra; try assumption.
  - rewrite Rltb_false by lra. simpl.
    eexists; split; [reflexivity | ]. simpl.
    split; [reflexivity | ]. split; [reflexivity | ]. split; [lra | ].
    split; [ | reflexivity ].
    intros Hle.
    assert (Vector2D.magnitude v = Boid.max_acceleration) as Hedge by lra.
    split; [ | exact Hedge ].
    rewrite Hedge. unfold Rdiv.
    rewrite Rinv_r by (pose proof max_acceleration_pos; lra).
    now rewrite scale_one.
Qed.

Lemma update_spec (frame : Vector2D.t) (self : Boid.t) (timestep : R) :
  0 < Vector2D.x frame -> 0 < Vector2D.y frame ->
  exists self' : Boid.t,
    Boid.update frame self timestep = Ok self'
    /\ Boid.acceleration self' = Boid.acceleration self
    /\ Vector2D.magnitude (Boid.velocity self') <= Boid.max_velocity
    /\ in_frame frame (position self').
Proof.
  intros Hx Hy. unfold Boid.update.
  destruct (set_velocity_spec self
              (Vector2D.plus (Boid.velocity self)
                 (Vector2D.scale timestep (Boid.acceleration self))))
    as [moved [-> [_ [Hacc [Hvel _]]]]].
  cbn [bind].
  destruct (vector_mod_in_frame frame
              (Vector2D.plus (Boid._position moved)
                 (Vector2D.scale timestep (Boid.velocity moved))) Hx Hy)
    as [q [-> Hq]].
  cbn [bind]. eexists; split; [reflexivity | ]. simpl.
  repeat split; try assumption; apply Hq.
Qed.

Lemma foldM_app {S A : Type} (body : S -> A -> result S) (l1 l2 : list A) (s : S) :
  foldM body (l1 ++ l2) s = (s' <- foldM body l1 s ;; foldM body l2 s').
Proof.
  revert s. induction l1 as [ | a rest IH]; intros s; simpl; [reflexivity | ].
  destruct (body s a); simpl; [apply IH | reflexivity].
Qed.

Section Clamps.

Variable frame : Vector2D.t.
Hypothesis Hwidth : 0 < Vector2D.x frame.
Hypothesis Hheight : 0 < Vector2D.y frame.

Lemma perform_spec (self : Boid.t) (a : action) :
  exists self' : Boid.t,
    perform frame self a = Ok self'
    /\ (acceleration_bounded self -> acceleration_bounded self')
    /\ ((exists impulse, a = Assign_acceleration impulse) ->
        acceleration_bounded self').
Proof.
  unfold acceleration_bounded. destruct a as [impulse | v | timestep]; simpl.
  - destruct (set_acceleration_spec self impulse) as [self' [Hrun [_ [_ [Hacc _]]]]].
    exists self'. repeat split; auto.
  - destruct (set_velocity_spec self v) as [self' [Hrun [_ [Hacc _]]]].
    exists self'. rewrite Hacc. repeat split; auto.
    intros [impulse Habs]. discriminate.
  - destruct (update_spec frame self timestep Hwidth Hheight)
      as [self' [Hrun [Hacc _]]].
    exists self'. rewrite Hacc. repeat split; auto.
    intros [impulse Habs]. discriminate.
Qed.

Lemma run_spec (actions : list action) (self : Boid.t) :
  exists self' : Boid.t,
    run frame self actions = Ok self'
    /\ (acceleration_bounded self
        \/ (exists impulse, In (Assign_acceleration impulse) actions) ->
        acceleration_bounded self').
Proof.
  revert self. induction actions as [ | a rest IH]; intros self.
  - exists self. split; [reflexivity | ].
    intros [Hacc | [impulse []]]. exact Hacc.
  - destruct (perform_spec self a) as [self1 [Hstep [Hkeep Hset]]].
    destruct (IH self1) as [self' [Hrun Hacc]].
    exists self'. split.
    + unfold run in *. simpl. rewrite Hstep. exact Hrun.
    + intros [Hbounded | [impulse [Hhere | Hlater]]]; apply Hacc.
      * left. auto.
      * left. apply Hset. exists impulse. now symmetry.
      * right. exists impulse. exact Hlater.
Qed.

End Clamps.

(** C2, as the code has it.  [update] never raises in a frame of positive
    extents, and after any [update] call the magnitude of the velocity is
    at most [max_velocity].  The magnitude of the acceleration is at most
    [max_acceleration] after any [update] call provided that the boid was
    constructed with such an acceleration or that an impulse has been
    assigned to it: the constructor stores its argument without the clamp
    and [update] does not touch the acceleration.  A vector of magnitude at
    least the maximum assigned to [velocity] or to [acceleration] is stored
    rescaled by a positive factor, with the maximum as its magnitude. *)
Theorem clamps_hold (frame : Vector2D.t) (self : Boid.t)
  (actions : list action) (timestep : R) :
  0 < Vector2D.x frame -> 0 < Vector2D.y frame ->
  (exists self' : Boid.t,
      run frame self (actions ++ [Update timestep]) = Ok self'
      /\ Vector2D.magnitude (Boid.velocity self') <= Boid.max_velocity
      /\ (Vector2D.magnitude (Boid.acceleration self) <= Boid.max_acceleration
          \/ (exists impulse, In (Assign_acceleration impulse) actions) ->
          Vector2D.magnitude (Boid.acceleration self') <= Boid.max_acceleration))
  /\ (forall v : Vector2D.t,
         Boid.max_velocity <= Vector2D.magnitude v ->
         exists self' : Boid.t,
           Boid.set_velocity self v = Ok self'
           /\ Boid.velocity self'
              = Vector2D.scale (Boid.max_velocity / Vector2D.magnitude v) v
           /\ 0 < Boid.max_velocity / Vector2D.magnitude v
           /\ Vector2D.magnitude (Boid.velocity self') = Boid.max_velocity)
  /\ (forall v : Vector2D.t,
         Boid.max_acceleration <= Vector2D.magnitude v ->
         exists self' : Boid.t,
           Boid.set_acceleration self v = Ok self'
           /\ Boid.acceleration self'
              = Vector2D.scale (Boid.max_acceleration / Vector2D.magnitude v) v
           /\ 0 < Boid.max_acceleration / Vector2D.magnitude v
           /\ Vector2D.magnitude (Boid.acceleration self')
              = Boid.max_acceleration).
Proof.
  intros Hwidth Hheight. split; [ | split ].
  - destruct (run_spec frame Hwidth Hheight actions self) as [self1 [Hrun Hacc]].
    destruct (update_spec frame self1 timestep Hwidth Hheight)
      as [self' [Hupdate [Hsame [Hvel _]]]].
    exists self'. split; [ | split ].
    + unfold run in *. rewrite foldM_app, Hrun. simpl. now rewrite Hupdate.
    + exact Hvel.
    + intros Hbounded. rewrite Hsame. now apply Hacc.
  - intros v Hbig.
    destruct (set_velocity_spec self v) as [self' [Hset [_ [_ [_ [Hscaled _]]]]]].
    destruct (Hscaled Hbig) as [Hvalue Hmag].
    exists self'. repeat split; try assumption.
    pose proof max_velocity_pos.
    apply Rmult_lt_0_compat; [assumption | apply Rinv_0_lt_compat; lra].
  - intros v Hbig.
    destruct (set_acceleration_spec self v)
      as [self' [Hset [_ [_ [_ [Hscaled _]]]]]].
    destruct (Hscaled Hbig) as [Hvalue Hmag].
    exists self'. repeat split; try assumption.
    pose proof max_acceleration_pos.
    apply Rmult_lt_0_compat; [assumption | apply Rinv_0_lt_compat; lra].
Qed.

Lemma clamps_hold_witness :
  exists self' : Boid.t,
    run test_frame (boid_at 5 10) ([Assign_acceleration (Vector2D.mk 60 0)]
                                   ++ [Update 1]) = Ok self'
    /\ Vector2D.magnitude (Boid.velocity self') <= Boid.max_velocity.
Proof.
  assert (0 < Vector2D.x test_frame) as Hwidth by (simpl; lra).
  assert (0 < Vector2D.y test_frame) as Hheight by (simpl; lra).
  destruct (proj1 (clamps_hold test_frame (boid_at 5 10)
                     [Assign_acceleration (Vector2D.mk 60 0)] 1 Hwidth Hheight))
    as [self' [Hrun [Hvel _]]].
  exists self'. split; assumption.
Defined.

(** C2, as the specification has it, fails on a boid constructed with an
    acceleration beyond the maximum and updated before any impulse is
    assigned: [Boid((5, 10), (0, 0), (100, 0)).update(1)] keeps the
    acceleration [(100, 0)], of magnitude 100, above [max_acceleration]. *)
Lemma acceleration_unclamped_after_update :
  exists self' : Boid.t,
    run test_frame
      (Boid.mk (Vector2D.mk 5 10) Vector2D.Zero (Vector2D.mk 100 0))
      ([] ++ [Update 1]) = Ok self'
    /\ Vector2D.magnitude (Boid.acceleration self') = 100
    /\ Boid.max_acceleration < 100.
Proof.
  assert (0 < Vector2D.x test_frame) as Hwidth by (simpl; lra).
  assert (0 < Vector2D.y test_frame) as Hheight by (simpl; lra).
  destruct (update_spec test_frame
              (Boid.mk (Vector2D.mk 5 10) Vector2D.Zero (Vector2D.mk 100 0))
              1 Hwidth Hheight) as [self' [Hupdate [Hacc _]]].
  exists self'. split; [ | split ].
  - unfold run. simpl. now rewrite Hupdate.
  - rewrite Hacc. simpl. rewrite magnitude_axis. apply Rabs_right. lra.
  - unfold Boid.max_acceleration. lra.
Qed.

(** ** Steering and the impulse *)

Lemma steering_vector_steering (population : list Boid.t) (self : Flock.t)
  (owner : Boid.t) (desired : Vector2D.t) :
  lookup population (Flock.boid self) = Ok owner ->
  Flock.steering_vector population self desired
  = Ok (steering (Boid.velocity owner) desired).
Proof. apply steering_vector_value. Qed.

Lemma plus_Zero_l (v : Vector2D.t) : Vector2D.plus Vector2D.Zero v = v.
Proof. vector_lra. Qed.

Lemma mean_singleton (v : Vector2D.t) : utilities.mean [v] = Ok v.
Proof.
  rewrite mean_Ok by discriminate. f_equal.
  apply vector_eq; simpl; field.
Qed.

Lemma single_obstacle (frame : Vector2D.t) (population : list Boid.t)
  (obstacle_list : list Obstacle.t) (flock : Flock.t) (owner : Boid.t)
  (obstacle : Obstacle.t) (k : nat) (d : R) :
  lookup population (Flock.boid flock) = Ok owner ->
  lookup obstacle_list k = Ok obstacle ->
  d <> 0 ->
  Flock.neighbors flock = [] ->
  Flock.obstacles flock = [(k, d)] ->
  let fear_vector :=
    steering (Boid.velocity owner)
      (Vector2D.mk (Vector2D.x (displacement frame obstacle owner) / d)
                   (Vector2D.y (displacement frame obstacle owner) / d)) in
  Flock.fear_vector frame population obstacle_list flock = Ok fear_vector
  /\ Flock.impulse frame population obstacle_list flock
     = Ok (Vector2D.scale (Flock.fear_coefficient flock) fear_vector).
Proof.
  intros Howner Hobstacle Hd Hneighbors Hobstacles fear_vector.
  assert (Flock.fear_vector frame population obstacle_list flock = Ok fear_vector)
    as Hfear.
  { unfold Flock.fear_vector, Flock.fear_terms. rewrite Hobstacles.
    cbn [mapM fst snd]. rewrite Hobstacle, Howner. cbn [bind].
    rewrite vector_truediv_Ok by assumption. cbn [bind].
    rewrite mean_singleton. cbn [bind].
    now apply steering_vector_steering. }
  split; [exact Hfear | ].
  unfold Flock.impulse. rewrite Hneighbors, Hobstacles. cbn [bind].
  rewrite Hfear. cbn [bind]. now rewrite plus_Zero_l.
Qed.

(** C3, as the code has it.  In a flock built with no agent neighbour and
    exactly one obstacle within the radius, the impulse is
    [fear_coefficient * fear_vector], with nothing from alignment, cohesion
    or separation, and [apply_impulse] assigns it through the setter of
    [acceleration]: the resulting acceleration is that product when its
    magnitude is at most [max_acceleration], and the product rescaled to
    the magnitude [max_acceleration] otherwise. *)
Theorem fear_only_impulse (frame : Vector2D.t) (population : list Boid.t)
  (obstacle_list : list Obstacle.t)
  (boid : nat) (radius alignment cohesion fear separation : R)
  (flock : Flock.t) (k : nat) (d : R) :
  Flock.__init__ frame population obstacle_list boid radius
    alignment cohesion fear separation = Ok flock ->
  Flock.neighbors flock = [] ->
  Flock.obstacles flock = [(k, d)] ->
  exists (fear_vector : Vector2D.t) (owner owner' : Boid.t),
    Flock.fear_vector frame population obstacle_list flock = Ok fear_vector
    /\ Flock.impulse frame population obstacle_list flock
       = Ok (Vector2D.scale fear fear_vector)
    /\ lookup population boid = Ok owner
    /\ Flock.apply_impulse frame population obstacle_list flock
       = Ok (assign population boid owner')
    /\ lookup (assign population boid owner') boid = Ok owner'
    /\ position owner' = position owner
    /\ Boid.velocity owner' = Boid.velocity owner
    /\ (Vector2D.magnitude (Vector2D.scale fear fear_vector)
        <= Boid.max_acceleration ->
        Boid.acceleration owner' = Vector2D.scale fear fear_vector)
    /\ (Boid.max_acceleration
        <= Vector2D.magnitude (Vector2D.scale fear fear_vector) ->
        Boid.acceleration owner'
        = Vector2D.scale
            (Boid.max_acceleration
             / Vector2D.magnitude (Vector2D.scale fear fear_vector))
            (Vector2D.scale fear fear_vector)
        /\ Vector2D.magnitude (Boid.acceleration owner') = Boid.max_acceleration).
Proof.
  intros Hbuilt Hneighbors Hobstacles.
  destruct (built_owner _ _ _ _ _ _ _ _ _ _ Hbuilt) as [Hboid Hlt].
  assert (Flock.fear_coefficient flock = fear) as Hfear.
  { unfold Flock.__init__ in Hbuilt.
    destruct (lookup population boid); [ | discriminate ].
    simpl in Hbuilt. inversion Hbuilt; reflexivity. }
  destruct (lookup_Ok population boid Hlt) as [owner Howner].
  assert (In (k, d) (Flock.obstacles flock)) as Hin
      by (rewrite Hobstacles; left; reflexivity).
  destruct (built_obstacles _ _ _ _ _ _ _ _ _ _ Hbuilt k d Hin) as [Hk Hd].
  destruct (lookup_Ok obstacle_list k Hk) as [obstacle Hobstacle].
  rewrite <- Hboid in Howner.
  destruct (single_obstacle frame population obstacle_list flock owner obstacle
              k d Howner Hobstacle) as [Hvector Himpulse]; try assumption; try lra.
  rewrite Hfear in Himpulse.
  set (fear_vector := steering (Boid.velocity owner)
         (Vector2D.mk (Vector2D.x (displacement frame obstacle owner) / d)
                      (Vector2D.y (displacement frame obstacle owner) / d))) in *.
  destruct (set_acceleration_spec owner (Vector2D.scale fear fear_vector))
    as [owner' [Hset [Hpos [Hvel [_ [Hbig Hsmall]]]]]].
  exists fear_vector, owner, owner'.
  rewrite Hboid in Howner.
  repeat split; try assumption.
  - unfold Flock.apply_impulse. rewrite Himpulse, Hboid. cbn [bind].
    rewrite Howner. cbn [bind]. rewrite Hset. reflexivity.
  - now apply lookup_assign_same.
  - now apply Hbig.
  - now apply Hbig.
Qed.

(** ** Evaluation on an axis

    Models that share their second coordinate, vectors along the first
    axis, and no wrap: the scenes of the concrete runs below. *)

Ltac abs_lra :=
  unfold Rabs;
  repeat match goal with
         | |- context [Rcase_abs ?a] => destruct (Rcase_abs a)
         end;
  lra.

Lemma magnitude_axis_eq (v : Vector2D.t) (a : R) :
  v = Vector2D.mk a 0 -> Vector2D.magnitude v = Rabs a.
Proof. intros ->. apply magnitude_axis. Qed.

Lemma displacement_axis {A B : Type} `{Model A} `{Model B}
  (frame : Vector2D.t) (a : A) (b : B) (delta : R) :
  Vector2D.y (position a) = Vector2D.y (position b) ->
  delta = Vector2D.x (position b) - Vector2D.x (position a) ->
  0 <= Vector2D.y frame ->
  Rabs (2 * delta) <= Vector2D.x frame ->
  displacement frame a b = Vector2D.mk delta 0.
Proof.
  intros Hy Hdelta Hheight Hnear. unfold displacement; simpl.
  rewrite <- Hdelta, Hy.
  replace (Vector2D.y (position b) - Vector2D.y (position b)) with 0 by ring.
  rewrite !wrap_near; [reflexivity | | assumption].
  rewrite Rmult_0_r, Rabs_R0. assumption.
Qed.

Lemma distance_axis {A B : Type} `{Model A} `{Model B}
  (frame : Vector2D.t) (a : A) (b : B) (delta : R) :
  Vector2D.y (position a) = Vector2D.y (position b) ->
  delta = Vector2D.x (position b) - Vector2D.x (position a) ->
  0 <= Vector2D.y frame ->
  Rabs (2 * delta) <= Vector2D.x frame ->
  distance frame a b = Rabs delta.
Proof.
  intros Hy Hdelta Hheight Hnear. unfold distance.
  rewrite (displacement_axis frame a b delta) by assumption.
  apply magnitude_axis.
Qed.

Lemma get_neighbors_from_in {A : Type} `{Model A} (frame : Vector2D.t)
  (boid : Boid.t) (other : A) (rest : list A) (radius d : R) (i : nat) :
  distance frame boid other = d -> 0 < d < radius ->
  Flock.get_neighbors_from frame boid (other :: rest) radius i
  = (i, d) :: Flock.get_neighbors_from frame boid rest radius (S i).
Proof.
  intros Hd [Hpos Hlt]. cbn [Flock.get_neighbors_from]. rewrite Hd.
  now rewrite (Rltb_true _ _ Hpos), (Rltb_true _ _ Hlt).
Qed.

Lemma get_neighbors_from_out {A : Type} `{Model A} (frame : Vector2D.t)
  (boid : Boid.t) (other : A) (rest : list A) (radius d : R) (i : nat) :
  distance frame boid other = d -> d <= 0 \/ radius <= d ->
  Flock.get_neighbors_from frame boid (other :: rest) radius i
  = Flock.get_neighbors_from frame boid rest radius (S i).
Proof.
  intros Hd Hout. cbn [Flock.get_neighbors_from]. rewrite Hd.
  destruct Hout as [Hle | Hge].
  - now rewrite (Rltb_false _ _ Hle).
  - rewrite (Rltb_false _ _ Hge). now rewrite andb_false_r.
Qed.

Lemma steering_axis_pos (owner_velocity desired : Vector2D.t) (a : R) :
  desired = Vector2D.mk a 0 -> 0 < a ->
  steering owner_velocity desired
  = Vector2D.minus (Vector2D.mk Boid.max_velocity 0) owner_velocity.
Proof.
  intros -> Ha. unfold steering, Vector2D.__bool__.
  rewrite magnitude_axis, (Rabs_right a) by lra.
  rewrite Reqb_false by lra. simpl.
  apply vector_eq; simpl; field; lra.
Qed.

Lemma steering_axis_neg (owner_velocity desired : Vector2D.t) (a : R) :
  desired = Vector2D.mk a 0 -> a < 0 ->
  steering owner_velocity desired
  = Vector2D.minus (Vector2D.mk (- Boid.max_velocity) 0) owner_velocity.
Proof.
  intros -> Ha. unfold steering, Vector2D.__bool__.
  rewrite magnitude_axis, (Rabs_left a) by lra.
  rewrite Reqb_false by lra. simpl.
  apply vector_eq; simpl; field; lra.
Qed.

Lemma steering_Zero (owner_velocity desired : Vector2D.t) :
  desired = Vector2D.Zero -> steering owner_velocity desired = Vector2D.Zero.
Proof.
  intros ->. unfold steering, Vector2D.__bool__.
  rewrite (proj2 (magnitude_zero Vector2D.Zero) eq_refl).
  now rewrite Reqb_true.
Qed.

Lemma set_acceleration_axis_pos (self : Boid.t) (v : Vector2D.t) (a : R) :
  v = Vector2D.mk a 0 -> Boid.max_acceleration < a ->
  Boid.set_acceleration self v
  = Ok (Boid.mk (position self) (Boid.velocity self)
                (Vector2D.mk Boid.max_acceleration 0)).
Proof.
  intros -> Ha. pose proof max_acceleration_pos as Hpos.
  unfold Boid.set_acceleration.
  assert (Vector2D.magnitude (Vector2D.mk a 0) = a) as Hmag
      by (rewrite magnitude_axis; apply Rabs_right; lra).
  rewrite Hmag, (Rltb_true _ _ Ha).
  destruct (rescaled Boid.max_acceleration (Vector2D.mk a 0) Hpos) as [-> _];
    [lra | ].
  rewrite Hmag. cbn [bind]. do 2 f_equal.
  apply vector_eq; simpl; field; lra.
Qed.

Lemma set_acceleration_axis_neg (self : Boid.t) (v : Vector2D.t) (a : R) :
  v = Vector2D.mk a 0 -> a < - Boid.max_acceleration ->
  Boid.set_acceleration self v
  = Ok (Boid.mk (position self) (Boid.velocity self)
                (Vector2D.mk (- Boid.max_acceleration) 0)).
Proof.
  intros -> Ha. pose proof max_acceleration_pos as Hpos.
  unfold Boid.set_acceleration.
  assert (Vector2D.magnitude (Vector2D.mk a 0) = - a) as Hmag
      by (rewrite magnitude_axis; apply Rabs_left; lra).
  rewrite Hmag, Rltb_true by lra.
  destruct (rescaled Boid.max_acceleration (Vector2D.mk a 0) Hpos) as [-> _];
    [lra | ].
  rewrite Hmag. cbn [bind]. do 2 f_equal.
  apply vector_eq; simpl; field; lra.
Qed.

Lemma lone_flock_built :
  Flock.__init__ test_frame lone_boid lone_obstacle 0 10 10 10 10 12
  = Ok lone_flock.
Proof.
  unfold Flock.__init__, lone_boid, lone_obstacle, lone_flock, Flock.get_neighbors.
  cbn [lookup nth_error bind].
  rewrite (get_neighbors_from_out test_frame (boid_at 5 5) (boid_at 5 5) [] 10 0).
  - rewrite (get_neighbors_from_in test_frame (boid_at 5 5)
               (Obstacle.mk (Vector2D.mk 8 5)) [] 10 3).
    + reflexivity.
    + rewrite (distance_axis test_frame _ _ 3); simpl; try lra; abs_lra.
    + lra.
  - apply distance_self; [apply test_frame_valid | reflexivity].
  - left. lra.
Qed.

Lemma lone_flock_fear_vector :
  Flock.fear_vector test_frame lone_boid lone_obstacle lone_flock
  = Ok (Vector2D.mk (-200) 0)
  /\ Flock.impulse test_frame lone_boid lone_obstacle lone_flock
     = Ok (Vector2D.mk (-2000) 0).
Proof.
  destruct (single_obstacle test_frame lone_boid lone_obstacle lone_flock
              (boid_at 5 5) (Obstacle.mk (Vector2D.mk 8 5)) 0 3)
    as [Hvector Himpulse]; try reflexivity; try lra.
  rewrite (displacement_axis test_frame _ _ (-3)) in Hvector, Himpulse;
    simpl; try lra; try abs_lra.
  rewrite (steering_axis_neg _ _ (-1)) in Hvector, Himpulse;
    try lra; try (apply vector_eq; simpl; lra).
  rewrite Hvector, Himpulse. unfold Boid.max_velocity.
  split; f_equal; apply vector_eq; simpl; lra.
Qed.

Lemma fear_only_impulse_witness :
  exists fear_vector : Vector2D.t,
    Flock.impulse test_frame lone_boid lone_obstacle lone_flock
    = Ok (Vector2D.scale 10 fear_vector).
Proof.
  destruct (fear_only_impulse test_frame lone_boid lone_obstacle
              0 10 10 10 10 12 lone_flock 0 3
              lone_flock_built eq_refl eq_refl)
    as [fear_vector [owner [owner' [_ [Himpulse _]]]]].
  exists fear_vector. exact Himpulse.
Defined.

(** C3, as the specification has it, fails whenever the product exceeds
    [max_acceleration]: for the lone boid next to the lone obstacle,
    [fear_coefficient * fear_vector] is [10 * (-200, 0) = (-2000, 0)], and
    the acceleration after [apply_impulse] is [(-50, 0)]. *)
Lemma fear_impulse_is_clamped :
  exists (fear_vector : Vector2D.t) (population' : list Boid.t) (owner' : Boid.t),
    Flock.__init__ test_frame lone_boid lone_obstacle 0 10 10 10 10 12
    = Ok lone_flock
    /\ Flock.neighbors lone_flock = []
    /\ length (Flock.obstacles lone_flock) = 1%nat
    /\ Flock.fear_vector test_frame lone_boid lone_obstacle lone_flock
       = Ok fear_vector
    /\ Flock.apply_impulse test_frame lone_boid lone_obstacle lone_flock
       = Ok population'
    /\ lookup population' 0 = Ok owner'
    /\ Boid.acceleration owner' = Vector2D.mk (-50) 0
    /\ Vector2D.scale (Flock.fear_coefficient lone_flock) fear_vector
       = Vector2D.mk (-2000) 0
    /\ Vector2D.x (Boid.acceleration owner')
       <> Vector2D.x (Vector2D.scale (Flock.fear_coefficient lone_flock)
                        fear_vector).
Proof.
  destruct lone_flock_fear_vector as [Hvector Himpulse].
  exists (Vector2D.mk (-200) 0).
  exists [Boid.mk (Vector2D.mk 5 5) Vector2D.Zero (Vector2D.mk (-50) 0)].
  exists (Boid.mk (Vector2D.mk 5 5) Vector2D.Zero (Vector2D.mk (-50) 0)).
  split; [exact lone_flock_built | ].
  split; [reflexivity | ]. split; [reflexivity | ].
  split; [exact Hvector | ].
  split.
  { unfold Flock.apply_impulse. rewrite Himpulse.
    cbn [bind lone_flock Flock.boid lone_boid lookup nth_error].
    rewrite (set_acceleration_axis_neg _ _ (-2000));
      [ | reflexivity | unfold Boid.max_acceleration; lra ].
    cbn [bind assign]. unfold Boid.max_acceleration, boid_at. simpl.
    repeat f_equal; lra. }
  split; [reflexivity | ]. split; [reflexivity | ].
  split; [apply vector_eq; simpl; lra | ].
  simpl. lra.
Qed.

Lemma get_neighbors_spec_witness :
  In (1%nat, 10 - 7)
     (Flock.get_neighbors test_frame (boid_at 5 5) [boid_at 5 5; boid_at 8 5] 10).
Proof.
  apply (proj2 (proj2 (proj2
           (get_neighbors_spec test_frame (boid_at 5 5)
              [boid_at 5 5; boid_at 8 5] 10 test_frame_valid)))
           1%nat (boid_at 8 5) 7).
  - reflexivity.
  - lra.
  - rewrite (distance_axis test_frame _ _ 3); simpl; try lra; abs_lra.
Defined.

(** ** One tick of a pair of boids *)

Lemma mod_small (a b : R) : 0 <= a < b -> operator.mod_ a b = Ok a.
Proof.
  intros [Hlow Hhigh]. unfold operator.mod_. rewrite Reqb_false by lra.
  assert (Int_part (a / b) = 0%Z) as Hfloor.
  { symmetry. apply Int_part_spec.
    assert (a = b * (a / b)) as Ha by (field; lra).
    split; [ | simpl ]; nra. }
  unfold floor. rewrite Hfloor. f_equal. simpl. ring.
Qed.

Lemma vector_mod_small (frame p : Vector2D.t) :
  0 <= Vector2D.x p < Vector2D.x frame ->
  0 <= Vector2D.y p < Vector2D.y frame ->
  Vector2D.__mod__ p (Vector2D.Vector frame) = Ok p.
Proof.
  intros Hx Hy. unfold Vector2D.__mod__, Vector2D._apply_operator.
  rewrite (mod_small _ _ Hx), (mod_small _ _ Hy). cbn [bind].
  destruct p; reflexivity.
Qed.

Lemma set_velocity_small (self : Boid.t) (v : Vector2D.t) :
  Vector2D.magnitude v < Boid.max_velocity ->
  Boid.set_velocity self v
  = Ok (Boid.mk (position self) v (Boid.acceleration self)).
Proof.
  intros Hsmall. unfold Boid.set_velocity.
  now rewrite (Rleb_false _ _ Hsmall).
Qed.

Lemma update_axis (frame : Vector2D.t) (self : Boid.t)
  (px py vx ax timestep vx' px' : R) :
  position self = Vector2D.mk px py ->
  Boid.velocity self = Vector2D.mk vx 0 ->
  Boid.acceleration self = Vector2D.mk ax 0 ->
  vx' = vx + timestep * ax ->
  Rabs vx' < Boid.max_velocity ->
  px' = px + timestep * vx' ->
  0 <= px' < Vector2D.x frame ->
  0 <= py < Vector2D.y frame ->
  Boid.update frame self timestep
  = Ok (Boid.mk (Vector2D.mk px' py) (Vector2D.mk vx' 0) (Vector2D.mk ax 0)).
Proof.
  intros Hpos Hvel Hacc Hvx Hsmall Hpx Hwidth Hheight.
  unfold Boid.update.
  assert (Vector2D.plus (Boid.velocity self)
            (Vector2D.scale timestep (Boid.acceleration self))
          = Vector2D.mk vx' 0) as ->
      by (rewrite Hvel, Hacc; apply vector_eq; simpl; lra).
  rewrite set_velocity_small by (rewrite magnitude_axis; assumption).
  cbn [bind Boid._position Boid.velocity Boid.acceleration].
  rewrite Hpos, Hacc.
  assert (Vector2D.plus (Vector2D.mk px py)
            (Vector2D.scale timestep (Vector2D.mk vx' 0))
          = Vector2D.mk px' py) as ->
      by (apply vector_eq; simpl; lra).
  rewrite vector_mod_small by (simpl; assumption).
  reflexivity.
Qed.

(** Two tests of the package, [test_displacement] (a wrap on the first
    axis, none on the second) and [test_update_position], on the embedding. *)
Example test_displacement :
  displacement test_frame (boid_at 5 5) (boid_at 30 15) = Vector2D.mk (-15) 10.
Proof.
  unfold displacement, wrap, copysign; simpl.
  rewrite (Rltb_true 40) by abs_lra.
  rewrite (Rltb_false (30 - 5)) by lra.
  rewrite (Rltb_false 30) by abs_lra.
  apply vector_eq; simpl; abs_lra.
Qed.

Example test_update_position :
  Boid.update test_frame
    (Boid.mk (Vector2D.mk 5 10) (Vector2D.mk 10 0) Vector2D.Zero) 1
  = Ok (Boid.mk (Vector2D.mk 15 10) (Vector2D.mk 10 0) Vector2D.Zero).
Proof.
  rewrite (update_axis test_frame _ 5 10 10 0 1 10 15);
    try reflexivity; simpl; unfold Boid.max_velocity; try lra; abs_lra.
Qed.

Lemma single_neighbor (frame : Vector2D.t) (population : list Boid.t)
  (obstacle_list : list Obstacle.t) (flock : Flock.t) (owner neighbor : Boid.t)
  (n : nat) (d : R) :
  lookup population (Flock.boid flock) = Ok owner ->
  lookup population n = Ok neighbor ->
  d <> 0 ->
  Flock.neighbors flock = [(n, d)] ->
  Flock.obstacles flock = [] ->
  Flock.impulse frame population obstacle_list flock
  = Ok (Vector2D.plus
          (Vector2D.plus
             (Vector2D.plus Vector2D.Zero
                (Vector2D.scale (Flock.alignment_coefficient flock)
                   (steering (Boid.velocity owner) (Boid.velocity neighbor))))
             (Vector2D.scale (Flock.cohesion_coefficient flock)
                (steering (Boid.velocity owner)
                   (Vector2D.minus (get_image frame neighbor owner)
                                   (position owner)))))
          (Vector2D.scale (Flock.separation_coefficient flock)
             (steering (Boid.velocity owner)
                (Vector2D.mk
                   (Vector2D.x (displacement frame neighbor owner) / d)
                   (Vector2D.y (displacement frame neighbor owner) / d))))).
Proof.
  intros Howner Hneighbor Hd Hneighbors Hobstacles.
  unfold Flock.impulse, Flock.alignment_vector, Flock.average_velocity,
    Flock.cohesion_vector, Flock.center_of_mass,
    Flock.separation_vector, Flock.separation_terms.
  rewrite Hneighbors, Hobstacles. cbn [mapM fst snd bind].
  rewrite Hneighbor, Howner. cbn [bind].
  rewrite !mean_singleton. cbn [bind].
  rewrite (steering_vector_steering _ _ owner) by assumption. cbn [bind].
  rewrite (steering_vector_steering _ _ owner) by assumption. cbn [bind].
  rewrite vector_truediv_Ok by assumption. cbn [bind].
  rewrite mean_singleton. cbn [bind].
  rewrite (steering_vector_steering _ _ owner) by assumption. cbn [bind].
  reflexivity.
Qed.

Lemma cohesion_axis (frame : Vector2D.t) (owner neighbor : Boid.t) (delta : R) :
  Vector2D.y (position owner) = Vector2D.y (position neighbor) ->
  delta = Vector2D.x (position neighbor) - Vector2D.x (position owner) ->
  0 <= Vector2D.y frame ->
  Rabs (2 * delta) <= Vector2D.x frame ->
  Vector2D.minus (get_image frame neighbor owner) (position owner)
  = Vector2D.mk delta 0.
Proof.
  intros Hy Hdelta Hheight Hnear. unfold get_image.
  rewrite (displacement_axis frame owner neighbor delta) by assumption.
  apply vector_eq; simpl; lra.
Qed.

Lemma separation_axis (frame : Vector2D.t) (owner neighbor : Boid.t)
  (delta d : R) :
  Vector2D.y (position neighbor) = Vector2D.y (position owner) ->
  delta = Vector2D.x (position owner) - Vector2D.x (position neighbor) ->
  0 <= Vector2D.y frame ->
  Rabs (2 * delta) <= Vector2D.x frame ->
  Vector2D.mk (Vector2D.x (displacement frame neighbor owner) / d)
              (Vector2D.y (displacement frame neighbor owner) / d)
  = Vector2D.mk (delta / d) 0.
Proof.
  intros Hy Hdelta Hheight Hnear.
  rewrite (displacement_axis frame neighbor owner delta) by assumption.
  apply vector_eq; simpl; unfold Rdiv; ring.
Qed.

Lemma pair_add_boid :
  (sys <- BoidSystem.add_boid test_frame
            (BoidSystem.mk 10 [] [] [] 10 10 10 12) 12 5 ;;
   BoidSystem.add_boid test_frame sys 10 5)
  = Ok pair_system.
Proof.
  unfold BoidSystem.add_boid, Boid.__init__.
  rewrite vector_mod_small by (simpl; lra). cbn [bind].
  unfold BoidSystem.with_population. cbn [BoidSystem.population app].
  rewrite vector_mod_small by (simpl; lra). reflexivity.
Qed.

Lemma pair_flocks_built :
  BoidSystem.build_flocks test_frame pair_system
  = Ok [first_flock; second_flock].
Proof.
  unfold BoidSystem.build_flocks, pair_system, pair_population.
  cbn [BoidSystem.population BoidSystem.obstacles BoidSystem.radius
       BoidSystem.alignment BoidSystem.cohesion BoidSystem.fear
       BoidSystem.separation length seq mapM].
  unfold BoidSystem.flock_of, Flock.__init__, Flock.get_neighbors.
  cbn [BoidSystem.population BoidSystem.obstacles BoidSystem.radius
       BoidSystem.alignment BoidSystem.cohesion BoidSystem.fear
       BoidSystem.separation lookup nth_error bind].
  rewrite (get_neighbors_from_out test_frame (boid_at 12 5) (boid_at 12 5) _ 10 0);
    [ | apply distance_self; [apply test_frame_valid | reflexivity] | left; lra ].
  rewrite (get_neighbors_from_in test_frame (boid_at 12 5) (boid_at 10 5) _ 10 2);
    [ | rewrite (distance_axis test_frame _ _ (-2)); simpl; try lra; abs_lra | lra ].
  rewrite (get_neighbors_from_in test_frame (boid_at 10 5) (boid_at 12 5) _ 10 2);
    [ | rewrite (distance_axis test_frame _ _ 2); simpl; try lra; abs_lra | lra ].
  rewrite (get_neighbors_from_out test_frame (boid_at 10 5) (boid_at 10 5) _ 10 0);
    [ | apply distance_self; [apply test_frame_valid | reflexivity] | left; lra ].
  reflexivity.
Qed.

Lemma first_impulse :
  Flock.impulse test_frame pair_population [] first_flock
  = Ok (Vector2D.mk 400 0).
Proof.
  rewrite (single_neighbor test_frame pair_population [] first_flock
             (boid_at 12 5) (boid_at 10 5) 1 2);
    try reflexivity; try lra.
  rewrite (steering_Zero _ (Boid.velocity (boid_at 10 5))) by reflexivity.
  rewrite (cohesion_axis test_frame _ _ (-2)) by (simpl; try lra; abs_lra).
  rewrite (separation_axis test_frame _ _ 2 2) by (simpl; try lra; abs_lra).
  rewrite (steering_axis_neg _ _ (-2)) by (try reflexivity; lra).
  rewrite (steering_axis_pos _ _ (2 / 2)) by (try reflexivity; lra).
  unfold Boid.max_velocity. f_equal. apply vector_eq; simpl; lra.
Qed.

Lemma second_impulse_before :
  Flock.impulse test_frame pair_population [] second_flock
  = Ok (Vector2D.mk (-400) 0).
Proof.
  rewrite (single_neighbor test_frame pair_population [] second_flock
             (boid_at 10 5) (boid_at 12 5) 0 2);
    try reflexivity; try lra.
  rewrite (steering_Zero _ (Boid.velocity (boid_at 12 5))) by reflexivity.
  rewrite (cohesion_axis test_frame _ _ 2) by (simpl; try lra; abs_lra).
  rewrite (separation_axis test_frame _ _ (-2) 2) by (simpl; try lra; abs_lra).
  rewrite (steering_axis_pos _ _ 2) by (try reflexivity; lra).
  rewrite (steering_axis_neg _ _ (-2 / 2)) by (try reflexivity; lra).
  unfold Boid.max_velocity. f_equal. apply vector_eq; simpl; lra.
Qed.

Lemma second_impulse_after :
  Flock.impulse test_frame [moved; boid_at 10 5] [] second_flock
  = Ok (Vector2D.mk 1600 0).
Proof.
  rewrite (single_neighbor test_frame [moved; boid_at 10 5] [] second_flock
             (boid_at 10 5) moved 0 2);
    try reflexivity; try lra.
  rewrite (steering_axis_pos _ (Boid.velocity moved) 5) by (try reflexivity; lra).
  rewrite (cohesion_axis test_frame _ _ (5 / 2)) by (simpl; try lra; abs_lra).
  rewrite (separation_axis test_frame _ _ (- (5 / 2)) 2)
    by (simpl; try lra; abs_lra).
  rewrite (steering_axis_pos _ _ (5 / 2)) by (try reflexivity; lra).
  rewrite (steering_axis_neg _ _ (- (5 / 2) / 2)) by (try reflexivity; lra).
  unfold Boid.max_velocity. f_equal. apply vector_eq; simpl; lra.
Qed.

Lemma first_step :
  BoidSystem.update_step test_frame [] (1 / 10) pair_population first_flock
  = Ok [moved; boid_at 10 5].
Proof.
  unfold BoidSystem.update_step, Flock.apply_impulse.
  rewrite first_impulse. unfold pair_population.
  cbn [bind first_flock Flock.boid lookup nth_error].
  rewrite (set_acceleration_axis_pos _ _ 400)
    by (try reflexivity; unfold Boid.max_acceleration; lra).
  cbn [bind assign lookup nth_error].
  rewrite (update_axis test_frame _ 12 5 0 50 (1 / 10) 5 (25 / 2));
    try reflexivity; simpl; unfold Boid.max_velocity; try lra; abs_lra.
Qed.

Lemma second_step :
  BoidSystem.update_step test_frame [] (1 / 10) [moved; boid_at 10 5] second_flock
  = Ok [moved; follower].
Proof.
  unfold BoidSystem.update_step, Flock.apply_impulse.
  rewrite second_impulse_after.
  cbn [bind second_flock Flock.boid lookup nth_error].
  rewrite (set_acceleration_axis_pos _ _ 1600)
    by (try reflexivity; unfold Boid.max_acceleration; lra).
  cbn [bind assign lookup nth_error].
  rewrite (update_axis test_frame _ 10 5 0 50 (1 / 10) 5 (21 / 2));
    try reflexivity; simpl; unfold Boid.max_velocity; try lra; abs_lra.
Qed.

Lemma first_integration :
  BoidSystem.integrate_step test_frame (1 / 10) pair_population
    (first_flock, Vector2D.mk 400 0)
  = Ok [moved; boid_at 10 5].
Proof.
  unfold BoidSystem.integrate_step, pair_population.
  cbn [fst snd first_flock Flock.boid lookup nth_error bind].
  rewrite (set_acceleration_axis_pos _ _ 400)
    by (try reflexivity; unfold Boid.max_acceleration; lra).
  cbn [bind].
  rewrite (update_axis test_frame _ 12 5 0 50 (1 / 10) 5 (25 / 2));
    try reflexivity; simpl; unfold Boid.max_velocity; try lra; abs_lra.
Qed.

Lemma second_integration :
  BoidSystem.integrate_step test_frame (1 / 10) [moved; boid_at 10 5]
    (second_flock, Vector2D.mk (-400) 0)
  = Ok [moved; fleeing].
Proof.
  unfold BoidSystem.integrate_step.
  cbn [fst snd second_flock Flock.boid lookup nth_error bind].
  rewrite (set_acceleration_axis_neg _ _ (-400))
    by (try reflexivity; unfold Boid.max_acceleration; lra).
  cbn [bind].
  rewrite (update_axis test_frame _ 10 5 0 (-50) (1 / 10) (-5) (19 / 2));
    try reflexivity; simpl; unfold Boid.max_velocity, Boid.max_acceleration;
    try lra; try abs_lra.
Qed.

(** ** The loop of [update] against the two-phase reference *)

Lemma mapM_ext {A B : Type} (f g : A -> result B) (l : list A) :
  (forall a : A, In a l -> f a = g a) -> mapM f l = mapM g l.
Proof.
  induction l as [ | a rest IH]; intros Hext; simpl; [reflexivity | ].
  rewrite (Hext a (or_introl eq_refl)).
  rewrite IH; [reflexivity | ].
  intros a' Hin. apply Hext. now right.
Qed.

Lemma assign_assign {A : Type} (store : list A) (i : nat) (a b : A) :
  assign (assign store i a) i b = assign store i b.
Proof.
  revert i. induction store as [ | c rest IH]; intros [ | j]; simpl;
    try reflexivity.
  now rewrite IH.
Qed.

(** The impulse of a flock reads the population only at its owner and at
    the keys of its neighbour mapping. *)
Section Impulse_reads.

Variable frame : Vector2D.t.
Variables population population' : list Boid.t.
Variable obstacle_list : list Obstacle.t.
Variable flock : Flock.t.
Hypothesis Howner :
  lookup population (Flock.boid flock) = lookup population' (Flock.boid flock).
Hypothesis Hneighbors :
  forall (n : nat) (d : R),
    In (n, d) (Flock.neighbors flock) ->
    lookup population n = lookup population' n.

Lemma steering_vector_reads (desired : Vector2D.t) :
  Flock.steering_vector population flock desired
  = Flock.steering_vector population' flock desired.
Proof. unfold Flock.steering_vector. now rewrite Howner. Qed.

Lemma alignment_vector_reads :
  Flock.alignment_vector population flock
  = Flock.alignment_vector population' flock.
Proof.
  unfold Flock.alignment_vector, Flock.average_velocity.
  rewrite (mapM_ext _
             (fun item : nat * R =>
                neighbor <- lookup population' (fst item) ;;
                Ok (Boid.velocity neighbor))).
  - destruct (mapM _ (Flock.neighbors flock)); cbn [bind]; [ | reflexivity ].
    destruct (utilities.mean a); cbn [bind]; [ | reflexivity ].
    apply steering_vector_reads.
  - intros [n d] Hin. cbn [fst]. now rewrite (Hneighbors n d Hin).
Qed.

Lemma cohesion_vector_reads :
  Flock.cohesion_vector frame population flock
  = Flock.cohesion_vector frame population' flock.
Proof.
  unfold Flock.cohesion_vector, Flock.center_of_mass.
  rewrite (mapM_ext _
             (fun item : nat * R =>
                neighbor <- lookup population' (fst item) ;;
                owner <- lookup population' (Flock.boid flock) ;;
                Ok (get_image frame neighbor owner))).
  - destruct (mapM _ (Flock.neighbors flock)); cbn [bind]; [ | reflexivity ].
    destruct (utilities.mean a); cbn [bind]; [ | reflexivity ].
    rewrite Howner.
    case (lookup population' (Flock.boid flock)); intros; cbn [bind];
      [ | reflexivity ].
    apply steering_vector_reads.
  - intros [n d] Hin. cbn [fst].
    now rewrite (Hneighbors n d Hin), Howner.
Qed.

Lemma separation_vector_reads :
  Flock.separation_vector frame population flock
  = Flock.separation_vector frame population' flock.
Proof.
  unfold Flock.separation_vector, Flock.separation_terms.
  rewrite (mapM_ext _
             (fun item : nat * R =>
                neighbor <- lookup population' (fst item) ;;
                owner <- lookup population' (Flock.boid flock) ;;
                Vector2D.__truediv__ (displacement frame neighbor owner)
                  (Vector2D.Number (snd item)))).
  - destruct (mapM _ (Flock.neighbors flock)); cbn [bind]; [ | reflexivity ].
    destruct (utilities.mean a); cbn [bind]; [ | reflexivity ].
    apply steering_vector_reads.
  - intros [n d] Hin. cbn [fst snd].
    now rewrite (Hneighbors n d Hin), Howner.
Qed.

Lemma fear_vector_reads :
  Flock.fear_vector frame population obstacle_list flock
  = Flock.fear_vector frame population' obstacle_list flock.
Proof.
  unfold Flock.fear_vector, Flock.fear_terms.
  rewrite (mapM_ext _
             (fun item : nat * R =>
                obstacle <- lookup obstacle_list (fst item) ;;
                owner <- lookup population' (Flock.boid flock) ;;
                Vector2D.__truediv__ (displacement frame obstacle owner)
                  (Vector2D.Number (snd item)))).
  - destruct (mapM _ (Flock.obstacles flock)); cbn [bind]; [ | reflexivity ].
    destruct (utilities.mean a); cbn [bind]; [ | reflexivity ].
    apply steering_vector_reads.
  - intros [n d] Hin. now rewrite Howner.
Qed.

Lemma impulse_reads :
  Flock.impulse frame population obstacle_list flock
  = Flock.impulse frame population' obstacle_list flock.
Proof.
  unfold Flock.impulse.
  now rewrite alignment_vector_reads, cohesion_vector_reads,
    separation_vector_reads, fear_vector_reads.
Qed.

End Impulse_reads.

Lemma update_step_integrate (frame : Vector2D.t) (obstacle_list : list Obstacle.t)
  (timestep : R) (population : list Boid.t) (flock : Flock.t)
  (impulse : Vector2D.t) :
  (Flock.boid flock < length population)%nat ->
  Flock.impulse frame population obstacle_list flock = Ok impulse ->
  BoidSystem.update_step frame obstacle_list timestep population flock
  = BoidSystem.integrate_step frame timestep population (flock, impulse).
Proof.
  intros Hlt Himpulse.
  unfold BoidSystem.update_step, BoidSystem.integrate_step, Flock.apply_impulse.
  rewrite Himpulse. cbn [bind fst snd].
  destruct (lookup population (Flock.boid flock)) as [owner | e];
    cbn [bind]; [ | reflexivity ].
  destruct (Boid.set_acceleration owner impulse) as [owner1 | e];
    cbn [bind]; [ | reflexivity ].
  rewrite lookup_assign_same by assumption. cbn [bind].
  destruct (Boid.update frame owner1 timestep) as [owner2 | e];
    cbn [bind]; [ | reflexivity ].
  now rewrite assign_assign.
Qed.

Lemma integrate_step_Ok (frame : Vector2D.t) (timestep : R)
  (population : list Boid.t) (flock : Flock.t) (impulse : Vector2D.t) :
  0 < Vector2D.x frame -> 0 < Vector2D.y frame ->
  (Flock.boid flock < length population)%nat ->
  exists owner : Boid.t,
    BoidSystem.integrate_step frame timestep population (flock, impulse)
    = Ok (assign population (Flock.boid flock) owner).
Proof.
  intros Hwidth Hheight Hlt. unfold BoidSystem.integrate_step. cbn [fst snd].
  destruct (lookup_Ok population _ Hlt) as [owner ->]. cbn [bind].
  destruct (set_acceleration_spec owner impulse) as [owner1 [-> _]]. cbn [bind].
  destruct (update_spec frame owner1 timestep Hwidth Hheight) as [owner2 [-> _]].
  cbn [bind]. exists owner2. reflexivity.
Qed.

(** Two populations that hold the same boid at the owner of a flock are
    given the same boid there by [integrate_step]. *)
Lemma integrate_step_same (frame : Vector2D.t) (timestep : R)
  (population population' : list Boid.t) (flock : Flock.t)
  (impulse : Vector2D.t) (owner owner' : Boid.t) :
  lookup population (Flock.boid flock)
  = lookup population' (Flock.boid flock) ->
  BoidSystem.integrate_step frame timestep population (flock, impulse)
  = Ok (assign population (Flock.boid flock) owner) ->
  BoidSystem.integrate_step frame timestep population' (flock, impulse)
  = Ok (assign population' (Flock.boid flock) owner') ->
  (Flock.boid flock < length population)%nat ->
  (Flock.boid flock < length population')%nat ->
  owner = owner'.
Proof.
  intros Hsame Hstep Hstep' Hlt Hlt'.
  unfold BoidSystem.integrate_step in Hstep, Hstep'. cbn [fst snd] in *.
  rewrite <- Hsame in Hstep'.
  destruct (lookup population (Flock.boid flock)) as [start | e];
    cbn [bind] in *; [ | discriminate ].
  destruct (Boid.set_acceleration start impulse) as [start1 | e];
    cbn [bind] in *; [ | discriminate ].
  destruct (Boid.update frame start1 timestep) as [start2 | e];
    cbn [bind] in *; [ | discriminate ].
  injection Hstep as Hstep. injection Hstep' as Hstep'.
  apply (f_equal (fun store => lookup store (Flock.boid flock))) in Hstep, Hstep'.
  rewrite !lookup_assign_same in Hstep, Hstep' by assumption.
  congruence.
Qed.

Section Loops.

Variable frame : Vector2D.t.
Hypothesis Hwidth : 0 < Vector2D.x frame.
Hypothesis Hheight : 0 < Vector2D.y frame.
Variable self : BoidSystem.t.
Variable timestep : R.

Lemma flocks_of_seq (count start : nat) :
  (start + count <= length (BoidSystem.population self))%nat ->
  exists flocks : list Flock.t,
    mapM (BoidSystem.flock_of frame self) (seq start count) = Ok flocks
    /\ map Flock.boid flocks = seq start count
    /\ forall flock : Flock.t,
        In flock flocks -> BoidSystem.flock_of frame self (Flock.boid flock) = Ok flock.
Proof.
  revert start. induction count as [ | count IH]; intros start Hbound.
  - exists []. repeat split. intros flock [].
  - destruct (lookup_Ok (BoidSystem.population self) start) as [owner Howner];
      [lia | ].
    destruct (IH (S start)) as [flocks [Hflocks [Hboids Hbuilt]]]; [lia | ].
    assert (exists flock, BoidSystem.flock_of frame self start = Ok flock /\ Flock.boid flock = start)
      as [flock [Hflock Hboid]].
    { unfold BoidSystem.flock_of, Flock.__init__. rewrite Howner. cbn [bind].
      eexists; split; reflexivity. }
    exists (flock :: flocks). cbn [seq mapM].
    rewrite Hflock, Hflocks. cbn [bind map]. rewrite Hboid, Hboids.
    repeat split.
    intros flock' [<- | Hin]; [now rewrite Hboid | now apply Hbuilt].
Qed.

(** The loop of [update] and the two loops of the reference, from a
    population [current] in which the boids from [start] on are as they
    were before the tick. *)
Lemma loops_agree (flocks : list Flock.t) :
  forall (start : nat) (current : list Boid.t),
    map Flock.boid flocks = seq start (length flocks) ->
    (start + length flocks <= length (BoidSystem.population self))%nat ->
    (forall flock : Flock.t,
        In flock flocks -> BoidSystem.flock_of frame self (Flock.boid flock) = Ok flock) ->
    (forall (flock : Flock.t) (n : nat) (d : R),
        In flock flocks -> In (n, d) (Flock.neighbors flock) ->
        (Flock.boid flock < n)%nat) ->
    length current = length (BoidSystem.population self) ->
    (forall i : nat,
        (start <= i)%nat ->
        lookup current i = lookup (BoidSystem.population self) i) ->
    exists (final : list Boid.t) (impulses : list Vector2D.t),
      foldM (BoidSystem.update_step frame (BoidSystem.obstacles self) timestep)
        flocks current = Ok final
      /\ mapM (Flock.impulse frame (BoidSystem.population self)
                 (BoidSystem.obstacles self)) flocks = Ok impulses
      /\ foldM (BoidSystem.integrate_step frame timestep)
           (combine flocks impulses) current = Ok final.
Proof.
  induction flocks as [ | flock rest IH];
    intros start current Hboids Hbound Hbuilt Hlater Hlength Hsame.
  - exists current, []. repeat split.
  - cbn [map length seq] in Hboids. injection Hboids as Hboid Hrest.
    cbn [length] in Hbound.
    assert (BoidSystem.flock_of frame self (Flock.boid flock) = Ok flock) as Hflock
        by (apply Hbuilt; now left).
    destruct (impulse_Ok frame _ _ _ _ _ _ _ _ _ Hflock
                (BoidSystem.population self) eq_refl) as [impulse Himpulse].
    assert (Flock.impulse frame current (BoidSystem.obstacles self) flock
            = Ok impulse) as Hlive.
    { rewrite <- Himpulse. apply impulse_reads.
      - apply Hsame. lia.
      - intros n d Hin. apply Hsame.
        specialize (Hlater flock n d (or_introl eq_refl) Hin). lia. }
    assert (Flock.boid flock < length current)%nat as Hlt by lia.
    destruct (integrate_step_Ok frame timestep current flock impulse
                Hwidth Hheight Hlt) as [owner Hstep].
    destruct (IH (S start) (assign current (Flock.boid flock) owner))
      as [final [impulses [Hfused [Himpulses Hphased]]]].
    + exact Hrest.
    + lia.
    + intros flock' Hin. apply Hbuilt. now right.
    + intros flock' n d Hin. apply Hlater. now right.
    + now rewrite length_assign.
    + intros i Hi. rewrite lookup_assign_other by lia. apply Hsame. lia.
    + exists final, (impulse :: impulses). cbn [foldM mapM combine].
      rewrite (update_step_integrate _ _ _ _ _ impulse Hlt Hlive).
      rewrite Hstep, Himpulse, Himpulses. cbn [bind].
      repeat split; assumption.
Qed.

(** The loop of [update] runs to its end, whatever the order of the boids. *)
Lemma update_loop_Ok (flocks : list Flock.t) :
  forall current : list Boid.t,
    (forall flock : Flock.t,
        In flock flocks ->
        BoidSystem.flock_of frame self (Flock.boid flock) = Ok flock) ->
    length current = length (BoidSystem.population self) ->
    exists final : list Boid.t,
      foldM (BoidSystem.update_step frame (BoidSystem.obstacles self) timestep)
        flocks current = Ok final
      /\ length final = length (BoidSystem.population self).
Proof.
  induction flocks as [ | flock rest IH]; intros current Hbuilt Hlength.
  - exists current. split; [reflexivity | assumption].
  - assert (BoidSystem.flock_of frame self (Flock.boid flock) = Ok flock)
      as Hflock by (apply Hbuilt; now left).
    destruct (impulse_Ok frame _ _ _ _ _ _ _ _ _ Hflock current Hlength)
      as [impulse Himpulse].
    destruct (built_owner _ _ _ _ _ _ _ _ _ _ Hflock) as [_ Hlt].
    rewrite <- Hlength in Hlt.
    destruct (integrate_step_Ok frame timestep current flock impulse
                Hwidth Hheight Hlt) as [owner Hstep].
    destruct (IH (assign current (Flock.boid flock) owner))
      as [final [Hfinal Hlen]].
    + intros flock' Hin. apply Hbuilt. now right.
    + now rewrite length_assign.
    + exists final. cbn [foldM].
      rewrite (update_step_integrate _ _ _ _ _ impulse Hlt Himpulse).
      rewrite Hstep. cbn [bind]. split; assumption.
Qed.

(** Boid by boid: [update] and the reference leave the same boid at the
    owner of every flock none of whose neighbours precedes it. *)
Lemma loops_agree_at (flocks : list Flock.t) :
  forall (start : nat) (current current' : list Boid.t),
    map Flock.boid flocks = seq start (length flocks) ->
    (start + length flocks <= length (BoidSystem.population self))%nat ->
    (forall flock : Flock.t,
        In flock flocks ->
        BoidSystem.flock_of frame self (Flock.boid flock) = Ok flock) ->
    length current = length (BoidSystem.population self) ->
    length current' = length (BoidSystem.population self) ->
    (forall i : nat,
        (start <= i)%nat ->
        lookup current i = lookup (BoidSystem.population self) i) ->
    (forall i : nat,
        (start <= i)%nat ->
        lookup current' i = lookup (BoidSystem.population self) i) ->
    exists (final : list Boid.t) (impulses : list Vector2D.t)
           (final' : list Boid.t),
      foldM (BoidSystem.update_step frame (BoidSystem.obstacles self) timestep)
        flocks current = Ok final
      /\ mapM (Flock.impulse frame (BoidSystem.population self)
                 (BoidSystem.obstacles self)) flocks = Ok impulses
      /\ foldM (BoidSystem.integrate_step frame timestep)
           (combine flocks impulses) current' = Ok final'
      /\ (forall i : nat,
             (i < start)%nat ->
             lookup final i = lookup current i
             /\ lookup final' i = lookup current' i)
      /\ (forall flock : Flock.t,
             In flock flocks ->
             (forall (n : nat) (d : R),
                 In (n, d) (Flock.neighbors flock) ->
                 (Flock.boid flock < n)%nat) ->
             lookup final (Flock.boid flock) = lookup final' (Flock.boid flock)).
Proof.
  induction flocks as [ | flock rest IH];
    intros start current current' Hboids Hbound Hbuilt Hlength Hlength'
           Hsame Hsame'.
  - exists current, [], current'. repeat split. intros flock [].
  - cbn [map length seq] in Hboids. injection Hboids as Hboid Hrest.
    cbn [length] in Hbound.
    assert (BoidSystem.flock_of frame self (Flock.boid flock) = Ok flock)
      as Hflock by (apply Hbuilt; now left).
    destruct (impulse_Ok frame _ _ _ _ _ _ _ _ _ Hflock
                (BoidSystem.population self) eq_refl) as [impulse Himpulse].
    destruct (impulse_Ok frame _ _ _ _ _ _ _ _ _ Hflock current Hlength)
      as [live Hlive].
    assert (Flock.boid flock < length current)%nat as Hlt by lia.
    assert (Flock.boid flock < length current')%nat as Hlt' by lia.
    destruct (integrate_step_Ok frame timestep current flock live
                Hwidth Hheight Hlt) as [owner Hstep].
    destruct (integrate_step_Ok frame timestep current' flock impulse
                Hwidth Hheight Hlt') as [owner' Hstep'].
    destruct (IH (S start) (assign current (Flock.boid flock) owner)
                (assign current' (Flock.boid flock) owner'))
      as [final [impulses [final' [Hfused [Himpulses [Hphased [Hkept Hat]]]]]]].
    + exact Hrest.
    + lia.
    + intros flock' Hin. apply Hbuilt. now right.
    + now rewrite length_assign.
    + now rewrite length_assign.
    + intros i Hi. rewrite lookup_assign_other by lia. apply Hsame. lia.
    + intros i Hi. rewrite lookup_assign_other by lia. apply Hsame'. lia.
    + exists final, (impulse :: impulses), final'. cbn [foldM mapM combine].
      rewrite (update_step_integrate _ _ _ _ _ live Hlt Hlive).
      rewrite Hstep, Himpulse, Himpulses, Hstep'. cbn [bind].
      split; [exact Hfused | ]. split; [reflexivity | ].
      split; [exact Hphased | ]. split.
      * intros i Hi. destruct (Hkept i) as [Hf Ht]; [lia | ].
        rewrite Hf, Ht. rewrite !lookup_assign_other by lia. split; reflexivity.
      * intros flock' [<- | Hin] Hlater; [ | now apply Hat ].
        destruct (Hkept (Flock.boid flock)) as [Hf Ht]; [lia | ].
        rewrite Hf, Ht. rewrite !lookup_assign_same by assumption.
        assert (live = impulse) as Heq.
        { assert (Ok live = Ok impulse) as Hok; [ | now injection Hok ].
          rewrite <- Hlive, <- Himpulse. apply impulse_reads.
          - apply Hsame. lia.
          - intros n d Hin. apply Hsame.
            specialize (Hlater n d Hin). lia. }
        subst live. f_equal.
        apply (integrate_step_same frame timestep current current' flock
                 impulse owner owner'); try assumption.
        rewrite Hsame, Hsame' by lia. reflexivity.
Qed.

End Loops.

(** What does hold of a tick in a frame of positive extents.  Neither
    [update] nor the two-phase reference raises.  Every flock is built
    from the population as it is before the tick: its owner is the boid of
    its rank, and the keys and distances of its two mappings are those of
    the positions before the tick.  The owner of a flock none of whose
    neighbours precedes it in the population (the first flock, for one)
    ends the tick as in the two-phase reference.  Being a neighbour goes
    both ways, so the last part, on every flock at once, speaks of
    populations in which no boid has a neighbour. *)
Lemma tick_snapshot_then_order (frame : Vector2D.t) (self : BoidSystem.t)
  (timestep : R) :
  0 < Vector2D.x frame -> 0 < Vector2D.y frame ->
  exists (flocks : list Flock.t) (self' reference : BoidSystem.t),
    BoidSystem.build_flocks frame self = Ok flocks
    /\ BoidSystem.update frame self timestep = Ok self'
    /\ BoidSystem.update_two_phase frame self timestep = Ok reference
    /\ BoidSystem.flocks self' = flocks
    /\ BoidSystem.flocks reference = flocks
    /\ map Flock.boid flocks = seq 0 (length (BoidSystem.population self))
    /\ (forall flock : Flock.t,
           In flock flocks ->
           exists owner : Boid.t,
             lookup (BoidSystem.population self) (Flock.boid flock) = Ok owner
             /\ Flock.neighbors flock
                = Flock.get_neighbors frame owner (BoidSystem.population self)
                    (BoidSystem.radius self)
             /\ Flock.obstacles flock
                = Flock.get_neighbors frame owner (BoidSystem.obstacles self)
                    (BoidSystem.radius self))
    /\ (forall flock : Flock.t,
           In flock flocks ->
           (forall (n : nat) (d : R),
               In (n, d) (Flock.neighbors flock) ->
               (Flock.boid flock < n)%nat) ->
           lookup (BoidSystem.population self') (Flock.boid flock)
           = lookup (BoidSystem.population reference) (Flock.boid flock))
    /\ ((forall (flock : Flock.t) (n : nat) (d : R),
            In flock flocks -> In (n, d) (Flock.neighbors flock) ->
            (Flock.boid flock < n)%nat) ->
        self' = reference).
Proof.
  intros Hwidth Hheight.
  destruct (flocks_of_seq frame self (length (BoidSystem.population self)) 0)
    as [flocks [Hflocks [Hboids Hbuilt]]]; [lia | ].
  assert (length flocks = length (BoidSystem.population self)) as Hlen
      by (rewrite <- (length_map Flock.boid flocks), Hboids; apply length_seq).
  destruct (loops_agree_at frame Hwidth Hheight self timestep flocks 0
              (BoidSystem.population self) (BoidSystem.population self))
    as [final [impulses [final' [Hfused [Himpulses [Hphased [_ Hat]]]]]]];
    try assumption; try reflexivity.
  { rewrite Hlen. exact Hboids. }
  { lia. }
  exists flocks, (BoidSystem.with_population self final flocks),
    (BoidSystem.with_population self final' flocks).
  split; [exact Hflocks | ].
  split.
  { unfold BoidSystem.update, BoidSystem.build_flocks.
    rewrite Hflocks. cbn [bind]. rewrite Hfused. reflexivity. }
  split.
  { unfold BoidSystem.update_two_phase, BoidSystem.build_flocks.
    rewrite Hflocks. cbn [bind]. rewrite Himpulses. cbn [bind].
    rewrite Hphased. reflexivity. }
  split; [reflexivity | ]. split; [reflexivity | ].
  split; [exact Hboids | ].
  split; [ | split ].
  - intros flock Hin. specialize (Hbuilt flock Hin).
    unfold BoidSystem.flock_of, Flock.__init__ in Hbuilt.
    destruct (lookup (BoidSystem.population self) (Flock.boid flock))
      as [owner | e]; [ | discriminate ].
    cbn [bind] in Hbuilt. exists owner.
    split; [reflexivity | ].
    injection Hbuilt as Hflock. rewrite <- Hflock. split; reflexivity.
  - exact Hat.
  - intros Hlater.
    destruct (loops_agree frame Hwidth Hheight self timestep flocks 0
                (BoidSystem.population self))
      as [final2 [impulses2 [Hfused2 [Himpulses2 Hphased2]]]];
      try assumption; try reflexivity.
    + rewrite Hlen. exact Hboids.
    + lia.
    + assert (final = final') as ->; [ | reflexivity ].
      rewrite Himpulses in Himpulses2. injection Himpulses2 as <-.
      congruence.
Qed.

(** C1.  The specification has every flock of a tick compute its steering
    vectors from the positions and velocities before the tick, as a
    two-phase update does.  [update] builds every flock before its loop
    and each flock keeps the distances of that moment, but the loop
    integrates a boid right after its impulse and the steering vectors of
    a flock are first read inside [apply_impulse], through the boids as
    they are then.  On two boids at rest at [(12, 5)] and [(10, 5)], with
    the frame and the radius of the tests and the initial coefficients,
    one call [update(0.1)] lets the second flock read the velocity
    [(5, 0)] and the position [(12.5, 5)] that the first boid has after its
    own integration: its impulse is [(1600, 0)] and its owner ends with
    the acceleration [(50, 0)].  The two-phase reference computes the
    impulse [(-400, 0)] from the population as it is before the tick, and
    the owner ends with [(-50, 0)]: the two results differ.  The second
    flock also divides the displacement of that moment, [(-2.5, 0)], by
    the distance [2] that it stored before the tick: its separation term
    is [(-1.25, 0)], no unit vector. *)
Theorem update_reads_integrated_neighbors :
  BoidSystem.update test_frame pair_system (1 / 10)
  = Ok (BoidSystem.with_population pair_system [moved; follower]
          [first_flock; second_flock])
  /\ BoidSystem.update_two_phase test_frame pair_system (1 / 10)
     = Ok (BoidSystem.with_population pair_system [moved; fleeing]
             [first_flock; second_flock])
  /\ Boid.acceleration follower = Vector2D.mk 50 0
  /\ Boid.acceleration fleeing = Vector2D.mk (-50) 0
  /\ Flock.impulse test_frame pair_population [] second_flock
     = Ok (Vector2D.mk (-400) 0)
  /\ Flock.impulse test_frame [moved; boid_at 10 5] [] second_flock
     = Ok (Vector2D.mk 1600 0)
  /\ Flock.separation_terms test_frame [moved; boid_at 10 5] second_flock
     = Ok [Vector2D.mk (- (5 / 4)) 0]
  /\ BoidSystem.update test_frame pair_system (1 / 10)
     <> BoidSystem.update_two_phase test_frame pair_system (1 / 10).
Proof.
  assert (BoidSystem.update test_frame pair_system (1 / 10)
          = Ok (BoidSystem.with_population pair_system [moved; follower]
                  [first_flock; second_flock])) as Hfused.
  { unfold BoidSystem.update. rewrite pair_flocks_built.
    cbn [bind foldM pair_system BoidSystem.obstacles BoidSystem.population].
    rewrite first_step. cbn [bind]. rewrite second_step. reflexivity. }
  assert (BoidSystem.update_two_phase test_frame pair_system (1 / 10)
          = Ok (BoidSystem.with_population pair_system [moved; fleeing]
                  [first_flock; second_flock])) as Hphased.
  { unfold BoidSystem.update_two_phase. rewrite pair_flocks_built.
    cbn [bind mapM pair_system BoidSystem.obstacles BoidSystem.population].
    rewrite first_impulse, second_impulse_before.
    cbn [bind combine foldM].
    rewrite first_integration. cbn [bind].
    rewrite second_integration. reflexivity. }
  split; [exact Hfused | ]. split; [exact Hphased | ].
  split; [reflexivity | ]. split; [reflexivity | ].
  split; [exact second_impulse_before | ].
  split; [exact second_impulse_after | ].
  split.
  { unfold Flock.separation_terms.
    cbn [second_flock Flock.neighbors Flock.boid mapM fst snd lookup
         nth_error bind].
    rewrite vector_truediv_Ok by lra. cbn [bind].
    rewrite (separation_axis test_frame _ _ (- (5 / 2)) 2)
      by (simpl; try lra; abs_lra).
    do 2 f_equal. apply vector_eq; simpl; lra. }
  rewrite Hfused, Hphased. intros Heq.
  apply (f_equal (fun r => match r with
                           | Ok sys => nth_error (BoidSystem.population sys) 1
                           | Raise _ => None
                           end)) in Heq.
  cbn in Heq. injection Heq as Hx _. lra.
Qed.

(** * Further properties of the code *)

(** ** vector2d.py *)

(** X1.  [unit] raises [ZeroDivisionError] exactly on a vector of magnitude
    zero; on any other vector it returns a vector of magnitude one which,
    scaled by the magnitude of the receiver, is the receiver again. *)
Theorem unit_spec (v : Vector2D.t) :
  (Vector2D.unit v = Raise ZeroDivisionError <-> Vector2D.magnitude v = 0)
  /\ (Vector2D.magnitude v <> 0 ->
      exists u : Vector2D.t,
        Vector2D.unit v = Ok u
        /\ Vector2D.magnitude u = 1
        /\ Vector2D.scale (Vector2D.magnitude v) u = v).
Proof.
  split.
  - split.
    + intros Hraise.
      destruct (Req_dec_T (Vector2D.magnitude v) 0) as [Hz | Hnz]; [assumption | ].
      rewrite unit_value in Hraise by assumption. discriminate.
    + intros Hz. unfold Vector2D.unit. rewrite Hz, truediv_zero. reflexivity.
  - intros Hnz. pose proof (magnitude_nonneg v) as Hpos.
    exists (Vector2D.scale (/ Vector2D.magnitude v) v).
    split; [now apply unit_value | split].
    + rewrite magnitude_scale, Rabs_inv, (Rabs_right (Vector2D.magnitude v)) by lra.
      now apply Rinv_l.
    + rewrite scale_scale, Rinv_r by assumption. apply scale_one.
Qed.

Lemma divisor_cases (operator : Operator) :
  operator = operator.truediv \/ operator = operator.floordiv
  \/ operator = operator.mod_ ->
  forall a b : R,
    (b = 0 -> operator a b = Raise ZeroDivisionError)
    /\ (b <> 0 -> exists r : R, operator a b = Ok r).
Proof.
  intros [-> | [-> | ->]] a b;
    unfold operator.truediv, operator.floordiv, operator.mod_;
    (split; intros Hb;
     [rewrite Reqb_true by assumption; reflexivity
     | rewrite Reqb_false by assumption; eexists; reflexivity]).
Qed.

(** X2.  The three dividing operators ([/], [//] and [%]) raise
    [ZeroDivisionError] exactly when the number on the right is zero or a
    component of the vector on the right is zero, and return a vector
    otherwise; [+], [-] and [*] never raise on a number or a vector; and
    every operator raises [NotImplementedError] on any other operand. *)
Theorem operator_errors (operator : Operator) (v : Vector2D.t) :
  Vector2D._apply_operator operator v Vector2D.Object = Raise NotImplementedError
  /\ (operator = operator.truediv \/ operator = operator.floordiv
      \/ operator = operator.mod_ ->
      (forall s : R,
          (Vector2D._apply_operator operator v (Vector2D.Number s)
           = Raise ZeroDivisionError <-> s = 0)
          /\ (s <> 0 ->
              exists r : Vector2D.t,
                Vector2D._apply_operator operator v (Vector2D.Number s) = Ok r))
      /\ (forall w : Vector2D.t,
             (Vector2D._apply_operator operator v (Vector2D.Vector w)
              = Raise ZeroDivisionError
              <-> Vector2D.x w = 0 \/ Vector2D.y w = 0)
             /\ (Vector2D.x w <> 0 -> Vector2D.y w <> 0 ->
                 exists r : Vector2D.t,
                   Vector2D._apply_operator operator v (Vector2D.Vector w)
                   = Ok r)))
  /\ (operator = operator.add \/ operator = operator.sub
      \/ operator = operator.mul ->
      forall s : R, forall w : Vector2D.t,
        (exists r : Vector2D.t,
            Vector2D._apply_operator operator v (Vector2D.Number s) = Ok r)
        /\ (exists r : Vector2D.t,
               Vector2D._apply_operator operator v (Vector2D.Vector w) = Ok r)).
Proof.
  split; [reflexivity | split].
  - intros Hdivides. pose proof (divisor_cases operator Hdivides) as Hcases.
    split.
    + intros s.
      assert (s <> 0 ->
              exists r : Vector2D.t,
                Vector2D._apply_operator operator v (Vector2D.Number s) = Ok r)
        as Hok.
      { intros Hs. cbn [Vector2D._apply_operator].
        destruct (proj2 (Hcases (Vector2D.x v) s) Hs) as [rx ->].
        destruct (proj2 (Hcases (Vector2D.y v) s) Hs) as [ry ->].
        cbn [bind]. eexists; reflexivity. }
      split; [split | exact Hok].
      * intros Hraise. destruct (Req_dec_T s 0) as [Hz | Hnz]; [assumption | ].
        destruct (Hok Hnz) as [r Hr]. congruence.
      * intros ->. cbn [Vector2D._apply_operator].
        now rewrite (proj1 (Hcases (Vector2D.x v) 0) eq_refl).
    + intros w.
      assert (Vector2D.x w <> 0 -> Vector2D.y w <> 0 ->
              exists r : Vector2D.t,
                Vector2D._apply_operator operator v (Vector2D.Vector w) = Ok r)
        as Hok.
      { intros Hx Hy. cbn [Vector2D._apply_operator].
        destruct (proj2 (Hcases (Vector2D.x v) _) Hx) as [rx ->].
        destruct (proj2 (Hcases (Vector2D.y v) _) Hy) as [ry ->].
        cbn [bind]. eexists; reflexivity. }
      split; [split | exact Hok].
      * intros Hraise.
        destruct (Req_dec_T (Vector2D.x w) 0) as [Hx | Hx]; [now left | ].
        destruct (Req_dec_T (Vector2D.y w) 0) as [Hy | Hy]; [now right | ].
        destruct (Hok Hx Hy) as [r Hr]. congruence.
      * intros [Hx | Hy]; cbn [Vector2D._apply_operator].
        -- now rewrite (proj1 (Hcases (Vector2D.x v) _) Hx).
        -- destruct (Req_dec_T (Vector2D.x w) 0) as [Hx | Hx].
           ++ now rewrite (proj1 (Hcases (Vector2D.x v) _) Hx).
           ++ destruct (proj2 (Hcases (Vector2D.x v) _) Hx) as [rx ->].
              cbn [bind].
              now rewrite (proj1 (Hcases (Vector2D.y v) _) Hy).
  - intros [-> | [-> | ->]] s w; split; eexists; reflexivity.
Qed.

(** X3.  Addition and multiplication do not depend on the order of their
    operands, between two vectors and between a vector and a number (the
    reflected methods [__radd__] and [__rmul__] serve a number on the
    left); subtraction of two vectors changes sign with their order. *)
Theorem operators_commute (v w : Vector2D.t) (s : R) :
  Vector2D.__add__ v (Vector2D.Vector w) = Vector2D.__add__ w (Vector2D.Vector v)
  /\ Vector2D.__mul__ v (Vector2D.Vector w)
     = Vector2D.__mul__ w (Vector2D.Vector v)
  /\ Vector2D.__radd__ v (Vector2D.Number s)
     = Vector2D.__add__ v (Vector2D.Number s)
  /\ Vector2D.__rmul__ v (Vector2D.Number s)
     = Vector2D.__mul__ v (Vector2D.Number s)
  /\ Vector2D.__sub__ v (Vector2D.Vector w)
     = Ok (Vector2D.__neg__ (Vector2D.minus w v))
  /\ Vector2D.__sub__ w (Vector2D.Vector v) = Ok (Vector2D.minus w v).
Proof.
  repeat split; try reflexivity;
    unfold Vector2D.__add__, Vector2D.__mul__, Vector2D.__sub__;
    simpl; f_equal; apply vector_eq; simpl; ring.
Qed.

Lemma mod_spec (a b : R) :
  0 < b ->
  exists r : R,
    operator.mod_ a b = Ok r
    /\ 0 <= r < b
    /\ operator.mod_ r b = Ok r
    /\ exists k : Z, a = r + IZR k * b.
Proof.
  intros Hb. destruct (mod_range a b Hb) as [r [Hr Hrange]].
  exists r. split; [exact Hr | split; [exact Hrange | split]].
  - now apply mod_small.
  - unfold operator.mod_ in Hr. rewrite Reqb_false in Hr by lra.
    injection Hr as <-. exists (Int_part (a / b)). unfold floor. ring.
Qed.

Lemma vector_mod_spec (frame p : Vector2D.t) :
  0 < Vector2D.x frame -> 0 < Vector2D.y frame ->
  exists q : Vector2D.t,
    Vector2D.__mod__ p (Vector2D.Vector frame) = Ok q
    /\ normalized frame q
    /\ Vector2D.__mod__ q (Vector2D.Vector frame) = Ok q
    /\ exists k l : Z,
        Vector2D.x p = Vector2D.x q + IZR k * Vector2D.x frame
        /\ Vector2D.y p = Vector2D.y q + IZR l * Vector2D.y frame.
Proof.
  intros Hx Hy.
  destruct (mod_spec (Vector2D.x p) _ Hx) as [rx [Hrx [Hxr [_ [k Hk]]]]].
  destruct (mod_spec (Vector2D.y p) _ Hy) as [ry [Hry [Hyr [_ [l Hl]]]]].
  exists (Vector2D.mk rx ry).
  split; [ | split; [ | split ] ].
  - unfold Vector2D.__mod__, Vector2D._apply_operator. now rewrite Hrx, Hry.
  - split; assumption.
  - now apply vector_mod_small.
  - exists k, l. split; assumption.
Qed.

(** X4.  Reduction modulo a frame of positive extents never raises, puts
    both coordinates into the frame, moves each coordinate by a whole
    number of frame extents, and leaves a reduced vector as it is. *)
Theorem mod_frame_spec (frame p : Vector2D.t) :
  0 < Vector2D.x frame -> 0 < Vector2D.y frame ->
  exists q : Vector2D.t,
    Vector2D.__mod__ p (Vector2D.Vector frame) = Ok q
    /\ normalized frame q
    /\ Vector2D.__mod__ q (Vector2D.Vector frame) = Ok q
    /\ exists k l : Z,
        Vector2D.x p = Vector2D.x q + IZR k * Vector2D.x frame
        /\ Vector2D.y p = Vector2D.y q + IZR l * Vector2D.y frame.
Proof.
  intros Hx Hy.
  destruct (mod_spec (Vector2D.x p) _ Hx) as [rx [Hrx [Hxr [_ [k Hk]]]]].
  destruct (mod_spec (Vector2D.y p) _ Hy) as [ry [Hry [Hyr [_ [l Hl]]]]].
  exists (Vector2D.mk rx ry).
  split; [ | split; [ | split ] ].
  - unfold Vector2D.__mod__, Vector2D._apply_operator. now rewrite Hrx, Hry.
  - split; assumption.
  - now apply vector_mod_small.
  - exists k, l. split; assumption.
Qed.

Lemma mod_frame_spec_witness :
  exists q : Vector2D.t,
    Vector2D.__mod__ (Vector2D.mk (-5) 10) (Vector2D.Vector test_frame) = Ok q
    /\ normalized test_frame q.
Proof.
  assert (0 < Vector2D.x test_frame) as Hwidth by (simpl; lra).
  assert (0 < Vector2D.y test_frame) as Hheight by (simpl; lra).
  destruct (mod_frame_spec test_frame (Vector2D.mk (-5) 10) Hwidth Hheight)
    as [q [Hq [Hnormal _]]].
  exists q. split; assumption.
Defined.

Lemma sin2_cos2_mult (a : R) : sin a * sin a + cos a * cos a = 1.
Proof. pose proof (sin2_cos2 a) as Hone. unfold Rsqr in Hone. exact Hone. Qed.

(** X5.  A rotation keeps the magnitude of a vector, the rotation by zero
    keeps the vector, and two rotations in a row are the rotation by the
    sum of their angles. *)
Theorem rotate_spec (v : Vector2D.t) (a b : R) :
  Vector2D.magnitude (Vector2D.rotate v a) = Vector2D.magnitude v
  /\ Vector2D.rotate v 0 = v
  /\ Vector2D.rotate (Vector2D.rotate v a) b = Vector2D.rotate v (a + b).
Proof.
  split; [ | split ].
  - unfold Vector2D.magnitude, Vector2D.rotate; simpl. f_equal.
    pose proof (sin2_cos2_mult a) as Hone.
    replace ((Vector2D.x v * cos a - Vector2D.y v * sin a)
             * (Vector2D.x v * cos a - Vector2D.y v * sin a)
             + (Vector2D.y v * cos a + Vector2D.x v * sin a)
               * (Vector2D.y v * cos a + Vector2D.x v * sin a))
      with ((Vector2D.x v * Vector2D.x v + Vector2D.y v * Vector2D.y v)
            * (sin a * sin a + cos a * cos a)) by ring.
    rewrite Hone. ring.
  - unfold Vector2D.rotate. rewrite cos_0, sin_0. apply vector_eq; simpl; ring.
  - unfold Vector2D.rotate; simpl. rewrite cos_plus, sin_plus.
    apply vector_eq; simpl; ring.
Qed.

Lemma magnitude_from_radial (angle m : R) :
  Vector2D.magnitude (Vector2D.from_radial angle m) = Rabs m.
Proof.
  unfold Vector2D.magnitude, Vector2D.from_radial; simpl.
  pose proof (sin2_cos2_mult angle) as Hone.
  replace (m * cos angle * (m * cos angle) + m * sin angle * (m * sin angle))
    with (Rsqr m * (sin angle * sin angle + cos angle * cos angle))
    by (unfold Rsqr; ring).
  rewrite Hone, Rmult_1_r. apply sqrt_Rsqr_abs.
Qed.

(** X6.  The vector built from an angle and a magnitude [m] has the
    magnitude [|m|], and rotating it adds to its angle.  A random vector
    lies in the unit disk: its magnitude is the second number drawn, which
    is below one. *)
Theorem from_radial_spec (angle m turn first second : R) :
  Vector2D.magnitude (Vector2D.from_radial angle m) = Rabs m
  /\ Vector2D.rotate (Vector2D.from_radial angle m) turn
     = Vector2D.from_radial (angle + turn) m
  /\ (drawn second ->
      Vector2D.magnitude (Vector2D.random first second) = second
      /\ Vector2D.magnitude (Vector2D.random first second) < 1).
Proof.
  split; [apply magnitude_from_radial | split].
  - unfold Vector2D.rotate, Vector2D.from_radial; simpl.
    rewrite cos_plus, sin_plus. apply vector_eq; simpl; ring.
  - intros [Hlow Hhigh]. unfold Vector2D.random.
    rewrite magnitude_from_radial, Rabs_right by lra. split; [reflexivity | assumption].
Qed.

Lemma tolerance_pos : 0 < Vector2D.tolerance.
Proof. unfold Vector2D.tolerance. apply Rinv_0_lt_compat. lra. Qed.

(** X7.  The equality of vectors holds between a vector and itself and
    does not depend on the order of its operands, but it is no
    equivalence: three vectors, each within the tolerance of the next one,
    need not have the first within the tolerance of the last. *)
Theorem eq_tolerant :
  (forall v : Vector2D.t, Vector2D.__eq__ v v = true)
  /\ (forall v w : Vector2D.t, Vector2D.__eq__ v w = Vector2D.__eq__ w v)
  /\ (exists a b c : Vector2D.t,
         Vector2D.__eq__ a b = true
         /\ Vector2D.__eq__ b c = true
         /\ Vector2D.__eq__ a c = false).
Proof.
  split; [apply eq_refl_tolerance | split].
  - intros v w. unfold Vector2D.__eq__.
    rewrite (Rabs_minus_sym (Vector2D.x w)), (Rabs_minus_sym (Vector2D.y w)).
    reflexivity.
  - pose proof tolerance_pos as Hpos.
    exists (Vector2D.mk 0 0),
      (Vector2D.mk (Vector2D.tolerance * (3 / 4)) 0),
      (Vector2D.mk (Vector2D.tolerance * (3 / 2)) 0).
    unfold Vector2D.__eq__; simpl.
    repeat split.
    + rewrite !Rltb_true; [reflexivity | abs_lra | abs_lra].
    + rewrite !Rltb_true; [reflexivity | abs_lra | abs_lra].
    + rewrite Rltb_false; [reflexivity | abs_lra].
Qed.

(** ** utilities.py *)

Lemma fold_plus_components (data : list Vector2D.t) (start : Vector2D.t) :
  Vector2D.x (fold_left Vector2D.plus data start)
  = Vector2D.x start + total (map Vector2D.x data)
  /\ Vector2D.y (fold_left Vector2D.plus data start)
     = Vector2D.y start + total (map Vector2D.y data).
Proof.
  revert start. induction data as [ | v rest IH]; intros start; simpl.
  - split; ring.
  - destruct (IH (Vector2D.plus start v)) as [-> ->]. simpl. split; ring.
Qed.

Lemma total_Permutation (l l' : list R) :
  Permutation l l' -> total l = total l'.
Proof.
  induction 1 as [ | a l l' _ IH | a b l | l l' l'' _ IH _ IH']; simpl; lra.
Qed.

(** X8.  [mean] raises [ZeroDivisionError] exactly on an empty collection.
    On any other it returns the vector whose coordinates are the sums of
    the coordinates divided by the number of items, so the order of the
    items does not matter. *)
Theorem mean_spec (data : list Vector2D.t) :
  (utilities.mean data = Raise ZeroDivisionError <-> data = [])
  /\ (data <> [] ->
      utilities.mean data
      = Ok (Vector2D.mk
              (total (map Vector2D.x data) / INR (length data))
              (total (map Vector2D.y data) / INR (length data))))
  /\ (forall data' : list Vector2D.t,
         Permutation data data' -> utilities.mean data = utilities.mean data').
Proof.
  assert (forall l : list Vector2D.t,
             l <> [] ->
             utilities.mean l
             = Ok (Vector2D.mk
                     (total (map Vector2D.x l) / INR (length l))
                     (total (map Vector2D.y l) / INR (length l)))) as Hvalue.
  { intros l Hl. rewrite mean_Ok by assumption. f_equal.
    unfold utilities.sum.
    destruct (fold_plus_components l Vector2D.Zero) as [Hx Hy].
    assert (INR (length l) <> 0) as Hlen
        by (apply not_0_INR; destruct l; [contradiction | simpl; lia]).
    apply vector_eq; simpl; rewrite ?Hx, ?Hy; simpl; field; assumption. }
  split; [split | split].
  - intros Hraise. destruct data as [ | v rest]; [reflexivity | ].
    rewrite Hvalue in Hraise by discriminate. discriminate.
  - intros ->. apply mean_empty.
  - apply Hvalue.
  - intros data' Hperm. destruct data as [ | v rest].
    + apply Permutation_nil in Hperm. now subst.
    + assert (data' <> []) as Hne.
      { intros ->. apply Permutation_sym, Permutation_nil in Hperm. discriminate. }
      rewrite !Hvalue by (assumption || discriminate).
      rewrite <- (Permutation_length Hperm).
      rewrite (total_Permutation _ _ (Permutation_map Vector2D.x Hperm)).
      rewrite (total_Permutation _ _ (Permutation_map Vector2D.y Hperm)).
      reflexivity.
Qed.

(** ** models.py *)

Lemma magnitude_neg (v : Vector2D.t) :
  Vector2D.magnitude (Vector2D.__neg__ v) = Vector2D.magnitude v.
Proof.
  unfold Vector2D.magnitude, Vector2D.__neg__; simpl. f_equal. ring.
Qed.

Lemma square_abs (a : R) : a * a = Rabs a * Rabs a.
Proof. unfold Rabs. destruct (Rcase_abs a); ring. Qed.

Lemma magnitude_monotone (v w : Vector2D.t) :
  Rabs (Vector2D.x v) <= Rabs (Vector2D.x w) ->
  Rabs (Vector2D.y v) <= Rabs (Vector2D.y w) ->
  Vector2D.magnitude v <= Vector2D.magnitude w.
Proof.
  intros Hx Hy. unfold Vector2D.magnitude. apply sqrt_le_1_alt.
  rewrite (square_abs (Vector2D.x v)), (square_abs (Vector2D.y v)),
    (square_abs (Vector2D.x w)), (square_abs (Vector2D.y w)).
  pose proof (Rabs_pos (Vector2D.x v)). pose proof (Rabs_pos (Vector2D.y v)).
  nra.
Qed.

Lemma wrap_shorter (extent delta : R) :
  0 <= extent -> Rabs (wrap extent delta) <= Rabs delta.
Proof.
  intros Hext.
  destruct (wrap_cases extent delta) as [[Hfar Hd] | [Hnear Hd]].
  - rewrite (Rabs_right extent) in Hd by lra.
    destruct Hd as [[Hneg ->] | [Hpos ->]]; revert Hfar; abs_lra.
  - rewrite Hd. lra.
Qed.

Lemma wrap_zero (extent delta : R) :
  Rabs delta < extent -> wrap extent delta = 0 -> delta = 0.
Proof.
  intros Hin Hzero.
  destruct (wrap_cases extent delta) as [[Hfar Hd] | [Hnear Hd]].
  - assert (0 <= extent) as Hext by (pose proof (Rabs_pos delta); lra).
    rewrite (Rabs_right extent) in Hd by lra.
    destruct Hd as [[Hneg Hd] | [Hpos Hd]]; rewrite Hd in Hzero;
      revert Hin; abs_lra.
  - congruence.
Qed.

Lemma distance_sym {A B : Type} `{Model A} `{Model B}
  (frame : Vector2D.t) (a : A) (b : B) :
  valid_frame frame -> distance frame a b = distance frame b a.
Proof.
  intros Hframe. unfold distance.
  rewrite (displacement_opp frame a b Hframe). apply magnitude_neg.
Qed.

(** X9.  In a frame of nonnegative extents the wrap-aware distance is
    nonnegative, is the same in both directions, and is never longer than
    the straight distance between the two positions.  Between two models
    whose positions are reduced into the frame it is zero exactly when the
    positions are equal. *)
Theorem distance_spec {A B : Type} `{Model A} `{Model B}
  (frame : Vector2D.t) (a : A) (b : B) :
  valid_frame frame ->
  0 <= distance frame a b
  /\ distance frame a b = distance frame b a
  /\ distance frame a b
     <= Vector2D.magnitude (Vector2D.minus (position b) (position a))
  /\ (normalized frame (position a) -> normalized frame (position b) ->
      (distance frame a b = 0 <-> position a = position b)).
Proof.
  intros Hframe. split; [apply magnitude_nonneg | split; [ | split ] ].
  - now apply distance_sym.
  - destruct Hframe as [Hx Hy]. unfold distance.
    apply magnitude_monotone; unfold displacement; simpl;
      now apply wrap_shorter.
  - intros [Hax Hay] [Hbx Hby]. split.
    + intros Hzero. unfold distance in Hzero. apply magnitude_zero in Hzero.
      unfold displacement in Hzero. injection Hzero as Hx Hy. simpl in Hx, Hy.
      apply wrap_zero in Hx; [ | abs_lra ].
      apply wrap_zero in Hy; [ | abs_lra ].
      apply vector_eq; lra.
    + intros Hsame. now apply distance_self.
Qed.

Lemma distance_spec_witness :
  distance test_frame (boid_at 5 5) (boid_at 30 15)
  = distance test_frame (boid_at 30 15) (boid_at 5 5).
Proof.
  apply (distance_spec test_frame (boid_at 5 5) (boid_at 30 15)).
  unfold valid_frame, test_frame; simpl; lra.
Defined.

(** X10.  For two models inside of the frame, [a.get_image(b)] is the copy
    of [a] nearest to [b]: it lies within half a frame extent of the
    position of [b] on each axis, at the wrap-aware distance from it, and
    it is the position of [a] itself when [a] is no further than that from
    [b] on both axes. *)
Theorem get_image_nearest {A B : Type} `{Model A} `{Model B}
  (frame : Vector2D.t) (a : A) (b : B) :
  valid_frame frame ->
  in_frame frame (position a) -> in_frame frame (position b) ->
  Rabs (Vector2D.x (get_image frame a b) - Vector2D.x (position b))
  <= Vector2D.x frame / 2
  /\ Rabs (Vector2D.y (get_image frame a b) - Vector2D.y (position b))
     <= Vector2D.y frame / 2
  /\ Vector2D.magnitude (Vector2D.minus (get_image frame a b) (position b))
     = distance frame b a
  /\ (Rabs (2 * (Vector2D.x (position a) - Vector2D.x (position b)))
      <= Vector2D.x frame ->
      Rabs (2 * (Vector2D.y (position a) - Vector2D.y (position b)))
      <= Vector2D.y frame ->
      get_image frame a b = position a).
Proof.
  intros Hframe Ha Hb.
  assert (Vector2D.minus (get_image frame a b) (position b)
          = displacement frame b a) as Hdiff
      by (unfold get_image; apply vector_eq; simpl; ring).
  destruct (displacement_bound frame b a Hframe Hb Ha) as [Hx Hy].
  rewrite <- Hdiff in Hx, Hy. simpl in Hx, Hy.
  split; [exact Hx | split; [exact Hy | split] ].
  - now rewrite Hdiff.
  - intros Hnearx Hneary. unfold get_image, displacement; simpl.
    rewrite !wrap_near by assumption. apply vector_eq; simpl; ring.
Qed.

Lemma get_image_nearest_witness :
  Rabs (Vector2D.x (get_image test_frame (boid_at 5 5) (boid_at 30 15))
        - Vector2D.x (position (boid_at 30 15)))
  <= Vector2D.x test_frame / 2.
Proof.
  apply (get_image_nearest test_frame (boid_at 5 5) (boid_at 30 15)).
  - unfold valid_frame, test_frame; simpl; lra.
  - unfold in_frame, test_frame; simpl; lra.
  - unfold in_frame, test_frame; simpl; lra.
Defined.

(** X11.  In a frame of positive extents the constructor of [Boid] never
    raises, reduces the position into the frame and stores the velocity
    and the acceleration as they are given.  [update] never raises either:
    it leaves the boid at the position reached with the new velocity over
    the timestep, reduced into the frame (moved by whole frame extents). *)
Theorem boid_position_spec (frame p v a : Vector2D.t) (self : Boid.t)
  (timestep : R) :
  0 < Vector2D.x frame -> 0 < Vector2D.y frame ->
  (exists b : Boid.t,
      Boid.__init__ frame p v a = Ok b
      /\ normalized frame (position b)
      /\ (normalized frame p -> position b = p)
      /\ Boid.velocity b = v
      /\ Boid.acceleration b = a)
  /\ (exists self' : Boid.t,
         Boid.update frame self timestep = Ok self'
         /\ normalized frame (position self')
         /\ exists k l : Z,
             Vector2D.x (position self) + timestep * Vector2D.x (Boid.velocity self')
             = Vector2D.x (position self') + IZR k * Vector2D.x frame
             /\ Vector2D.y (position self)
                + timestep * Vector2D.y (Boid.velocity self')
                = Vector2D.y (position self') + IZR l * Vector2D.y frame).
Proof.
  intros Hwidth Hheight. split.
  - destruct (vector_mod_spec frame p Hwidth Hheight) as [q [Hq [Hnormal _]]].
    exists (Boid.mk q v a). unfold Boid.__init__. rewrite Hq. cbn [bind].
    repeat split; try apply Hnormal.
    intros [Hpx Hpy]. rewrite (vector_mod_small frame p Hpx Hpy) in Hq.
    injection Hq as <-. reflexivity.
  - unfold Boid.update.
    destruct (set_velocity_spec self
                (Vector2D.plus (Boid.velocity self)
                   (Vector2D.scale timestep (Boid.acceleration self))))
      as [moved [-> [Hpos _]]].
    cbn [bind].
    destruct (vector_mod_spec frame
                (Vector2D.plus (Boid._position moved)
                   (Vector2D.scale timestep (Boid.velocity moved)))
                Hwidth Hheight) as [q [-> [Hnormal [_ [k [l [Hk Hl]]]]]]].
    cbn [bind]. eexists; split; [reflexivity | ].
    split; [exact Hnormal | ].
    exists k, l. simpl in *. rewrite <- Hpos. simpl. split; lra.
Qed.

Lemma boid_position_spec_witness :
  exists self' : Boid.t,
    Boid.update test_frame (boid_at 5 10) 1 = Ok self'
    /\ normalized test_frame (position self').
Proof.
  assert (0 < Vector2D.x test_frame) as Hwidth by (simpl; lra).
  assert (0 < Vector2D.y test_frame) as Hheight by (simpl; lra).
  destruct (proj2 (boid_position_spec test_frame Vector2D.Zero Vector2D.Zero
                     Vector2D.Zero (boid_at 5 10) 1 Hwidth Hheight))
    as [self' [Hupdate [Hnormal _]]].
  exists self'. split; assumption.
Defined.

Lemma round_nearest (a : R) :
  exists i : Z, Obstacle.round a = IZR i /\ Rabs (Obstacle.round a - a) <= 1 / 2.
Proof.
  destruct (base_Int_part a) as [Hlow Hhigh]. unfold Obstacle.round.
  destruct (Rlt_dec (a - IZR (Int_part a)) (1 / 2)) as [Hless | Hmore].
  - rewrite (Rltb_true _ _ Hless). exists (Int_part a).
    split; [reflexivity | abs_lra].
  - rewrite Rltb_false by lra.
    destruct (Rlt_dec (1 / 2) (a - IZR (Int_part a))) as [Hover | Htie].
    + rewrite (Rltb_true _ _ Hover). exists (Int_part a + 1)%Z.
      split; [reflexivity | rewrite plus_IZR; abs_lra].
    + rewrite Rltb_false by lra.
      destruct (Z.even (Int_part a)).
      * exists (Int_part a). split; [reflexivity | abs_lra].
      * exists (Int_part a + 1)%Z.
        split; [reflexivity | rewrite plus_IZR; abs_lra].
Qed.

Lemma round_up_to (w : Z) : Obstacle.round (IZR w - 1 / 4) = IZR w.
Proof.
  assert (Int_part (IZR w - 1 / 4) = (w - 1)%Z) as Hpart.
  { symmetry. apply Int_part_spec. rewrite minus_IZR. lra. }
  unfold Obstacle.round. rewrite Hpart, minus_IZR.
  rewrite Rltb_false by lra. rewrite Rltb_true by lra.
  f_equal. lia.
Qed.

(** X12.  In a frame of whole positive extents the constructor of
    [Obstacle] never raises and leaves the obstacle on the whole-number
    grid, inside of the frame with its far edges included, within half a
    unit of the reduced position on each axis.  The far edge is reached:
    an obstacle given the first coordinate [width - 1/4] ends at [width],
    which is not a reduced position. *)
Theorem obstacle_position_spec (w h : Z) (p : Vector2D.t) :
  (0 < w)%Z -> (0 < h)%Z ->
  (exists (o : Obstacle.t) (q : Vector2D.t),
      Obstacle.__init__ (Vector2D.mk (IZR w) (IZR h)) p = Ok o
      /\ Vector2D.__mod__ p (Vector2D.Vector (Vector2D.mk (IZR w) (IZR h)))
         = Ok q
      /\ in_frame (Vector2D.mk (IZR w) (IZR h)) (position o)
      /\ (exists i j : Z,
             Vector2D.x (position o) = IZR i /\ Vector2D.y (position o) = IZR j)
      /\ Rabs (Vector2D.x (position o) - Vector2D.x q) <= 1 / 2
      /\ Rabs (Vector2D.y (position o) - Vector2D.y q) <= 1 / 2)
  /\ (exists o : Obstacle.t,
         Obstacle.__init__ (Vector2D.mk (IZR w) (IZR h))
           (Vector2D.mk (IZR w - 1 / 4) 0) = Ok o
         /\ Vector2D.x (position o) = IZR w
         /\ ~ normalized (Vector2D.mk (IZR w) (IZR h)) (position o)).
Proof.
  intros Hw Hh.
  assert (0 < IZR w) as Hwidth by now apply (IZR_lt 0).
  assert (0 < IZR h) as Hheight by now apply (IZR_lt 0).
  split.
  - destruct (vector_mod_spec (Vector2D.mk (IZR w) (IZR h)) p Hwidth Hheight)
      as [q [Hq [[Hx Hy] _]]].
    simpl in Hx, Hy.
    exists (Obstacle.mk (Vector2D.mk (Obstacle.round (Vector2D.x q))
                                     (Obstacle.round (Vector2D.y q)))), q.
    split; [unfold Obstacle.__init__; now rewrite Hq | ].
    split; [exact Hq | ].
    destruct (round_nearest (Vector2D.x q)) as [i [Hi Hnearx]].
    destruct (round_nearest (Vector2D.y q)) as [j [Hj Hneary]].
    split; [ | split; [ | split ] ].
    + unfold in_frame; simpl. split; now apply round_range.
    + exists i, j. simpl. split; assumption.
    + exact Hnearx.
    + exact Hneary.
  - assert (1 <= IZR w) as Hone by (apply (IZR_le 1); lia).
    exists (Obstacle.mk (Vector2D.mk (IZR w) 0)).
    split; [ | split ].
    + unfold Obstacle.__init__.
      rewrite vector_mod_small by (simpl; lra). cbn [bind]. simpl.
      rewrite round_up_to. do 3 f_equal.
      destruct (round_nearest 0) as [i [Hi Hnear]].
      rewrite Hi in *.
      assert (-1 < i < 1)%Z as Hrange.
      { split; apply lt_IZR; simpl; revert Hnear; abs_lra. }
      replace i with 0%Z by lia. reflexivity.
    + reflexivity.
    + intros [[_ Hlt] _]. simpl in Hlt. lra.
Qed.

Lemma obstacle_position_spec_witness :
  exists o : Obstacle.t,
    Obstacle.__init__ (Vector2D.mk (IZR 40) (IZR 30))
      (Vector2D.mk (IZR 40 - 1 / 4) 0) = Ok o
    /\ Vector2D.x (position o) = IZR 40.
Proof.
  destruct (proj2 (obstacle_position_spec 40 30 Vector2D.Zero
                     eq_refl eq_refl)) as [o [Ho [Hedge _]]].
  exists o. split; assumption.
Defined.

Lemma Boid_random_Ok (frame : Vector2D.t) (draw1 draw2 draw3 draw4 : R) :
  0 < Vector2D.x frame -> 0 < Vector2D.y frame ->
  drawn draw2 -> drawn draw4 ->
  exists b : Boid.t,
    Boid.random frame draw1 draw2 draw3 draw4 = Ok b
    /\ position b = Vector2D.mk (Vector2D.x frame / 2) (Vector2D.y frame / 2)
    /\ Vector2D.magnitude (Boid.velocity b) = Boid.max_velocity * draw2
    /\ Vector2D.magnitude (Boid.acceleration b) = draw4
    /\ Vector2D.magnitude (Boid.velocity b) < Boid.max_velocity
    /\ Vector2D.magnitude (Boid.acceleration b) < 1
    /\ within_limits b.
Proof.
  intros Hwidth Hheight [Hlow2 Hhigh2] [Hlow4 Hhigh4].
  unfold Boid.random.
  rewrite vector_truediv_Ok by lra. cbn [bind]. unfold Boid.__init__.
  rewrite vector_mod_small by (simpl; lra). cbn [bind].
  eexists; split; [reflexivity | ]. simpl.
  pose proof max_velocity_pos as Hmax.
  assert (Vector2D.magnitude
            (Vector2D.scale Boid.max_velocity (Vector2D.random draw1 draw2))
          = Boid.max_velocity * draw2) as Hvel.
  { rewrite magnitude_scale. unfold Vector2D.random.
    rewrite magnitude_from_radial, !Rabs_right by lra. reflexivity. }
  assert (Vector2D.magnitude (Vector2D.random draw3 draw4) = draw4) as Hacc.
  { unfold Vector2D.random. rewrite magnitude_from_radial.
    apply Rabs_right. lra. }
  unfold within_limits; simpl. rewrite Hvel, Hacc.
  unfold Boid.max_acceleration, Boid.max_velocity in *.
  repeat split; try reflexivity; nra.
Qed.

(** X13.  In a frame of positive extents [Boid.random] never raises.  The
    boid it returns is at the centre of the frame; its velocity has the
    magnitude [max_velocity] times the second number drawn and its
    acceleration the fourth number drawn, so both are within the limits
    of the setters although the constructor does not apply them. *)
Theorem boid_random_spec (frame : Vector2D.t) (draw1 draw2 draw3 draw4 : R) :
  0 < Vector2D.x frame -> 0 < Vector2D.y frame ->
  drawn draw2 -> drawn draw4 ->
  exists b : Boid.t,
    Boid.random frame draw1 draw2 draw3 draw4 = Ok b
    /\ position b = Vector2D.mk (Vector2D.x frame / 2) (Vector2D.y frame / 2)
    /\ Vector2D.magnitude (Boid.velocity b) = Boid.max_velocity * draw2
    /\ Vector2D.magnitude (Boid.acceleration b) = draw4
    /\ Vector2D.magnitude (Boid.velocity b) < Boid.max_velocity
    /\ Vector2D.magnitude (Boid.acceleration b) < 1
    /\ within_limits b.
Proof.
  intros Hwidth Hheight [Hlow2 Hhigh2] [Hlow4 Hhigh4].
  unfold Boid.random.
  rewrite vector_truediv_Ok by lra. cbn [bind]. unfold Boid.__init__.
  rewrite vector_mod_small by (simpl; lra). cbn [bind].
  eexists; split; [reflexivity | ]. simpl.
  pose proof max_velocity_pos as Hmax.
  assert (Vector2D.magnitude
            (Vector2D.scale Boid.max_velocity (Vector2D.random draw1 draw2))
          = Boid.max_velocity * draw2) as Hvel.
  { rewrite magnitude_scale. unfold Vector2D.random.
    rewrite magnitude_from_radial, !Rabs_right by lra. reflexivity. }
  assert (Vector2D.magnitude (Vector2D.random draw3 draw4) = draw4) as Hacc.
  { unfold Vector2D.random. rewrite magnitude_from_radial.
    apply Rabs_right. lra. }
  unfold within_limits; simpl. rewrite Hvel, Hacc.
  unfold Boid.max_acceleration, Boid.max_velocity in *.
  repeat split; try reflexivity; nra.
Qed.

Lemma boid_random_spec_witness :
  exists b : Boid.t,
    Boid.random test_frame 0 (1 / 2) 0 (1 / 2) = Ok b /\ within_limits b.
Proof.
  assert (0 < Vector2D.x test_frame) as Hwidth by (simpl; lra).
  assert (0 < Vector2D.y test_frame) as Hheight by (simpl; lra).
  assert (drawn (1 / 2)) as Hdrawn by (unfold drawn; lra).
  destruct (boid_random_spec test_frame 0 (1 / 2) 0 (1 / 2)
              Hwidth Hheight Hdrawn Hdrawn) as [b [Hb [_ [_ [_ [_ [_ Hlimits]]]]]]].
  exists b. split; assumption.
Defined.

(** ** system.py *)

Section More_neighbors.

Context {A : Type} `{Model A}.
Variable frame : Vector2D.t.
Variable boid : Boid.t.

Lemma get_neighbors_from_keys (population : list A) (radius : R) :
  forall start : nat,
    NoDup (map fst (Flock.get_neighbors_from frame boid population radius start))
    /\ (forall key : nat,
           In key (map fst (Flock.get_neighbors_from frame boid population
                              radius start)) ->
           (start <= key < start + length population)%nat)
    /\ (length (Flock.get_neighbors_from frame boid population radius start)
        <= length population)%nat.
Proof.
  induction population as [ | other rest IH]; intros start; simpl.
  - split; [constructor | split; [intros key [] | lia] ].
  - destruct (IH (S start)) as [Hnodup [Hkeys Hlength]].
    destruct (Rltb 0 (distance frame boid other)
              && Rltb (distance frame boid other) radius); simpl.
    + split; [ | split ].
      * constructor; [ | assumption ].
        intros Hin. apply Hkeys in Hin. lia.
      * intros key [<- | Hin]; [lia | ]. apply Hkeys in Hin. lia.
      * lia.
    + split; [assumption | split; [ | lia] ].
      intros key Hin. apply Hkeys in Hin. lia.
Qed.

Lemma get_neighbors_none (population : list A) (radius : R) :
  (radius <= 0 \/ forall other : A, In other population -> distance frame boid other = 0) ->
  forall start : nat,
    Flock.get_neighbors_from frame boid population radius start = [].
Proof.
  intros Hnone. induction population as [ | other rest IH]; intros start; simpl;
    [reflexivity | ].
  assert (Rltb 0 (distance frame boid other)
          && Rltb (distance frame boid other) radius = false) as ->.
  { destruct Hnone as [Hradius | Hzero].
    - destruct (Rlt_dec 0 (distance frame boid other)) as [Hpos | Hneg].
      + rewrite (Rltb_false _ radius) by lra. apply andb_false_r.
      + now rewrite Rltb_false by lra.
    - rewrite (Hzero other (or_introl eq_refl)). now rewrite Rltb_false by lra. }
  apply IH. destruct Hnone as [Hradius | Hzero]; [now left | right].
  intros other' Hin. apply Hzero. now right.
Qed.

End More_neighbors.

(** X14.  The mapping returned by [get_neighbors] has each key once, every
    key is the rank of a candidate, and it has no more items than there
    are candidates.  It is empty for a radius that is not positive, and it
    grows with the radius. *)
Theorem get_neighbors_shape {A : Type} `{Model A} (frame : Vector2D.t)
  (boid : Boid.t) (population : list A) (radius radius' : R) :
  NoDup (map fst (Flock.get_neighbors frame boid population radius))
  /\ (forall key : nat,
         In key (map fst (Flock.get_neighbors frame boid population radius)) ->
         (key < length population)%nat)
  /\ (length (Flock.get_neighbors frame boid population radius)
      <= length population)%nat
  /\ (radius <= 0 -> Flock.get_neighbors frame boid population radius = [])
  /\ (radius <= radius' ->
      incl (Flock.get_neighbors frame boid population radius)
           (Flock.get_neighbors frame boid population radius')).
Proof.
  unfold Flock.get_neighbors.
  destruct (get_neighbors_from_keys frame boid population radius 0)
    as [Hnodup [Hkeys Hlength]].
  split; [exact Hnodup | split; [ | split; [exact Hlength | split] ] ].
  - intros key Hin. apply Hkeys in Hin. lia.
  - intros Hradius. apply get_neighbors_none. now left.
  - intros Hle [i d] Hin.
    apply (get_neighbors_In frame boid radius) in Hin.
    apply (get_neighbors_In frame boid radius').
    destruct Hin as [other [Hnth [Hd Hrange]]].
    exists other. repeat split; try assumption; lra.
Qed.

(** X15.  Being a neighbour goes both ways: in a frame of nonnegative
    extents, the boid of rank [j] is in the mapping of the boid of rank
    [i] exactly when the boid of rank [i] is in the mapping of the boid of
    rank [j], and with the same distance. *)
Theorem neighbors_symmetric (frame : Vector2D.t) (population : list Boid.t)
  (radius : R) (i j : nat) (first second : Boid.t) (d : R) :
  valid_frame frame ->
  nth_error population i = Some first ->
  nth_error population j = Some second ->
  (In (j, d) (Flock.get_neighbors frame first population radius)
   <-> In (i, d) (Flock.get_neighbors frame second population radius)).
Proof.
  intros Hframe Hfirst Hsecond.
  pose proof (distance_sym frame first second Hframe) as Hsym.
  rewrite !get_neighbors_In. split.
  - intros [other [Hnth [Hd Hrange]]].
    assert (other = second) by congruence. subst other.
    exists first. repeat split; try assumption; try apply Hrange. congruence.
  - intros [other [Hnth [Hd Hrange]]].
    assert (other = first) by congruence. subst other.
    exists second. repeat split; try assumption; try apply Hrange. congruence.
Qed.

Lemma neighbors_symmetric_witness :
  In (1%nat, 2) (Flock.get_neighbors test_frame (boid_at 12 5) pair_population 10)
  <-> In (0%nat, 2)
        (Flock.get_neighbors test_frame (boid_at 10 5) pair_population 10).
Proof.
  apply (neighbors_symmetric test_frame pair_population 10 0 1
           (boid_at 12 5) (boid_at 10 5) 2).
  - unfold valid_frame, test_frame; simpl; lra.
  - reflexivity.
  - reflexivity.
Defined.

(** X16.  [steering_vector] returns the zero vector for a desired velocity
    of magnitude zero.  For any other desired velocity it returns the
    change of velocity that brings its owner to the speed [max_velocity]
    in the desired direction: added to the velocity of the owner it gives
    the desired velocity scaled by a positive factor, of magnitude
    [max_velocity]. *)
Theorem steering_vector_spec (population : list Boid.t) (self : Flock.t)
  (owner : Boid.t) (desired : Vector2D.t) :
  lookup population (Flock.boid self) = Ok owner ->
  (Vector2D.magnitude desired = 0 ->
   Flock.steering_vector population self desired = Ok Vector2D.Zero)
  /\ (Vector2D.magnitude desired <> 0 ->
      exists steer : Vector2D.t,
        Flock.steering_vector population self desired = Ok steer
        /\ Vector2D.plus steer (Boid.velocity owner)
           = Vector2D.scale (Boid.max_velocity / Vector2D.magnitude desired)
               desired
        /\ 0 < Boid.max_velocity / Vector2D.magnitude desired
        /\ Vector2D.magnitude (Vector2D.plus steer (Boid.velocity owner))
           = Boid.max_velocity).
Proof.
  intros Howner. rewrite (steering_vector_value _ _ owner) by assumption.
  split.
  - intros Hzero. apply bool_false_zero in Hzero. now rewrite Hzero.
  - intros Hnz. pose proof (magnitude_nonneg desired) as Hpos.
    pose proof max_velocity_pos as Hmax.
    assert (Vector2D.__bool__ desired = true) as ->.
    { destruct (Vector2D.__bool__ desired) eqn:Hbool; [reflexivity | ].
      apply bool_false_zero in Hbool. contradiction. }
    eexists; split; [reflexivity | ].
    assert (Vector2D.plus
              (Vector2D.minus
                 (Vector2D.scale (Boid.max_velocity / Vector2D.magnitude desired)
                    desired) (Boid.velocity owner)) (Boid.velocity owner)
            = Vector2D.scale (Boid.max_velocity / Vector2D.magnitude desired)
                desired) as -> by (apply vector_eq; simpl; ring).
    split; [reflexivity | split].
    + apply Rmult_lt_0_compat; [assumption | apply Rinv_0_lt_compat; lra].
    + rewrite magnitude_resized by assumption. apply Rabs_right. lra.
Qed.

Lemma steering_vector_spec_witness :
  Flock.steering_vector lone_boid lone_flock Vector2D.Zero = Ok Vector2D.Zero.
Proof.
  apply (steering_vector_spec lone_boid lone_flock (boid_at 5 5) Vector2D.Zero).
  - reflexivity.
  - now apply magnitude_zero.
Defined.

Lemma magnitude_Zero : Vector2D.magnitude Vector2D.Zero = 0.
Proof. now apply magnitude_zero. Qed.

(** X17.  A flock with no neighbour and no obstacle gives the zero
    impulse, and [apply_impulse] then puts the acceleration of its owner
    to zero whatever it was, leaving its position and its velocity.  A
    flock with neighbours and no obstacle adds the three weighted vectors
    of its neighbours and nothing for fear; a flock with obstacles and no
    neighbour gives the weighted fear vector alone. *)
Theorem impulse_by_parts (frame : Vector2D.t) (population : list Boid.t)
  (obstacle_list : list Obstacle.t) (self : Flock.t) (owner : Boid.t) :
  lookup population (Flock.boid self) = Ok owner ->
  (Flock.neighbors self = [] -> Flock.obstacles self = [] ->
   Flock.impulse frame population obstacle_list self = Ok Vector2D.Zero
   /\ Flock.apply_impulse frame population obstacle_list self
      = Ok (assign population (Flock.boid self)
              (Boid.mk (position owner) (Boid.velocity owner) Vector2D.Zero)))
  /\ (Flock.neighbors self <> [] -> Flock.obstacles self = [] ->
      forall alignment cohesion separation : Vector2D.t,
        Flock.alignment_vector population self = Ok alignment ->
        Flock.cohesion_vector frame population self = Ok cohesion ->
        Flock.separation_vector frame population self = Ok separation ->
        Flock.impulse frame population obstacle_list self
        = Ok (Vector2D.plus
                (Vector2D.plus
                   (Vector2D.scale (Flock.alignment_coefficient self) alignment)
                   (Vector2D.scale (Flock.cohesion_coefficient self) cohesion))
                (Vector2D.scale (Flock.separation_coefficient self) separation)))
  /\ (Flock.neighbors self = [] -> Flock.obstacles self <> [] ->
      forall fear : Vector2D.t,
        Flock.fear_vector frame population obstacle_list self = Ok fear ->
        Flock.impulse frame population obstacle_list self
        = Ok (Vector2D.scale (Flock.fear_coefficient self) fear)).
Proof.
  intros Howner. split; [ | split ].
  - intros Hneighbors Hobstacles.
    assert (Flock.impulse frame population obstacle_list self = Ok Vector2D.Zero)
      as Himpulse
        by (unfold Flock.impulse; now rewrite Hneighbors, Hobstacles).
    split; [exact Himpulse | ].
    unfold Flock.apply_impulse. rewrite Himpulse, Howner. cbn [bind].
    unfold Boid.set_acceleration.
    rewrite Rltb_false
      by (rewrite magnitude_Zero; pose proof max_acceleration_pos; lra).
    reflexivity.
  - intros Hneighbors Hobstacles alignment cohesion separation Ha Hc Hs.
    unfold Flock.impulse. rewrite Hobstacles, Ha, Hc, Hs.
    destruct (Flock.neighbors self); [contradiction | ].
    cbn [bind]. now rewrite plus_Zero_l.
  - intros Hneighbors Hobstacles fear Hf.
    unfold Flock.impulse. rewrite Hneighbors, Hf.
    destruct (Flock.obstacles self); [contradiction | ].
    cbn [bind]. now rewrite plus_Zero_l.
Qed.

Lemma impulse_by_parts_witness :
  Flock.impulse test_frame lone_boid []
    (Flock.mk 0 10 [] [] 10 10 10 12) = Ok Vector2D.Zero.
Proof.
  apply (impulse_by_parts test_frame lone_boid []
           (Flock.mk 0 10 [] [] 10 10 10 12) (boid_at 5 5) eq_refl);
    reflexivity.
Defined.

(** X18.  Read on a flock without neighbours, [average_velocity],
    [center_of_mass] and the alignment, cohesion and separation vectors
    raise [ZeroDivisionError], and so does [fear_vector] on a flock
    without obstacles: the mean of an empty collection.  [apply_impulse]
    reads none of them in these cases. *)
Theorem empty_mapping_raises (frame : Vector2D.t) (population : list Boid.t)
  (obstacle_list : list Obstacle.t) (self : Flock.t) :
  (Flock.neighbors self = [] ->
   Flock.average_velocity population self = Raise ZeroDivisionError
   /\ Flock.center_of_mass frame population self = Raise ZeroDivisionError
   /\ Flock.alignment_vector population self = Raise ZeroDivisionError
   /\ Flock.cohesion_vector frame population self = Raise ZeroDivisionError
   /\ Flock.separation_vector frame population self = Raise ZeroDivisionError)
  /\ (Flock.obstacles self = [] ->
      Flock.fear_vector frame population obstacle_list self
      = Raise ZeroDivisionError).
Proof.
  split.
  - intros Hneighbors.
    unfold Flock.alignment_vector, Flock.cohesion_vector,
      Flock.separation_vector, Flock.separation_terms,
      Flock.average_velocity, Flock.center_of_mass.
    rewrite Hneighbors. cbn [mapM bind]. rewrite mean_empty.
    repeat split.
  - intros Hobstacles. unfold Flock.fear_vector, Flock.fear_terms.
    rewrite Hobstacles. cbn [mapM bind]. now rewrite mean_empty.
Qed.

(** X19.  On a flock built by the constructor, [apply_impulse] never
    raises, whatever the positions of the boids at that moment.  It
    changes one thing: the acceleration of the owner, which ends within
    [max_acceleration]; the position and the velocity of the owner and
    every other boid of the population are left as they were. *)
Theorem apply_impulse_frame (frame : Vector2D.t) (population : list Boid.t)
  (obstacle_list : list Obstacle.t)
  (boid : nat) (radius alignment cohesion fear separation : R)
  (flock : Flock.t) (population' : list Boid.t) :
  Flock.__init__ frame population obstacle_list boid radius
    alignment cohesion fear separation = Ok flock ->
  length population' = length population ->
  exists (owner owner' : Boid.t) (after : list Boid.t),
    lookup population' boid = Ok owner
    /\ Flock.apply_impulse frame population' obstacle_list flock = Ok after
    /\ length after = length population'
    /\ lookup after boid = Ok owner'
    /\ position owner' = position owner
    /\ Boid.velocity owner' = Boid.velocity owner
    /\ Vector2D.magnitude (Boid.acceleration owner') <= Boid.max_acceleration
    /\ forall other : nat,
        other <> boid -> lookup after other = lookup population' other.
Proof.
  intros Hbuilt Hsame.
  destruct (built_owner _ _ _ _ _ _ _ _ _ _ Hbuilt) as [Hboid Hlt].
  destruct (impulse_Ok _ _ _ _ _ _ _ _ _ _ Hbuilt population' Hsame)
    as [impulse Himpulse].
  destruct (lookup_Ok population' boid) as [owner Howner]; [lia | ].
  destruct (set_acceleration_spec owner impulse)
    as [owner' [Hset [Hpos [Hvel [Hacc _]]]]].
  exists owner, owner', (assign population' boid owner').
  split; [exact Howner | split].
  { unfold Flock.apply_impulse. rewrite Himpulse, Hboid. cbn [bind].
    rewrite Howner. cbn [bind]. now rewrite Hset. }
  split; [apply length_assign | ].
  split; [apply lookup_assign_same; lia | ].
  repeat split; try assumption.
  intros other Hother. apply lookup_assign_other. congruence.
Qed.

Lemma apply_impulse_frame_witness :
  exists after : list Boid.t,
    Flock.apply_impulse test_frame lone_boid lone_obstacle lone_flock = Ok after
    /\ length after = length lone_boid.
Proof.
  destruct (apply_impulse_frame test_frame lone_boid lone_obstacle
              0 10 10 10 10 12 lone_flock lone_boid lone_flock_built eq_refl)
    as [owner [owner' [after [_ [Hafter [Hlength _]]]]]].
  exists after. split; assumption.
Defined.

Lemma update_settles (frame : Vector2D.t) (self : Boid.t) (timestep : R) :
  0 < Vector2D.x frame -> 0 < Vector2D.y frame ->
  exists self' : Boid.t,
    Boid.update frame self timestep = Ok self'
    /\ Boid.acceleration self' = Boid.acceleration self
    /\ Vector2D.magnitude (Boid.velocity self') <= Boid.max_velocity
    /\ normalized frame (position self').
Proof.
  intros Hwidth Hheight. unfold Boid.update.
  destruct (set_velocity_spec self
              (Vector2D.plus (Boid.velocity self)
                 (Vector2D.scale timestep (Boid.acceleration self))))
    as [moved [-> [_ [Hacc [Hvel _]]]]].
  cbn [bind].
  destruct (vector_mod_spec frame
              (Vector2D.plus (Boid._position moved)
                 (Vector2D.scale timestep (Boid.velocity moved)))
              Hwidth Hheight) as [q [-> [Hnormal _]]].
  cbn [bind]. eexists; split; [reflexivity | ]. simpl.
  repeat split; try assumption; apply Hnormal.
Qed.

Lemma integrate_step_settles (frame : Vector2D.t) (timestep : R)
  (population : list Boid.t) (flock : Flock.t) (impulse : Vector2D.t) :
  0 < Vector2D.x frame -> 0 < Vector2D.y frame ->
  (Flock.boid flock < length population)%nat ->
  exists owner : Boid.t,
    BoidSystem.integrate_step frame timestep population (flock, impulse)
    = Ok (assign population (Flock.boid flock) owner)
    /\ settled frame owner.
Proof.
  intros Hwidth Hheight Hlt. unfold BoidSystem.integrate_step. cbn [fst snd].
  destruct (lookup_Ok population _ Hlt) as [owner ->]. cbn [bind].
  destruct (set_acceleration_spec owner impulse)
    as [owner1 [-> [_ [_ [Hacc _]]]]].
  cbn [bind].
  destruct (update_settles frame owner1 timestep Hwidth Hheight)
    as [owner2 [-> [Hsame [Hvel Hnormal]]]].
  cbn [bind]. exists owner2. split; [reflexivity | ].
  split; [exact Hnormal | split; [exact Hvel | ] ].
  now rewrite Hsame.
Qed.

Lemma update_loop_settles (frame : Vector2D.t) (self : BoidSystem.t)
  (timestep : R) (flocks : list Flock.t) :
  0 < Vector2D.x frame -> 0 < Vector2D.y frame ->
  forall (start : nat) (current : list Boid.t),
    map Flock.boid flocks = seq start (length flocks) ->
    (forall flock : Flock.t,
        In flock flocks ->
        BoidSystem.flock_of frame self (Flock.boid flock) = Ok flock) ->
    length current = length (BoidSystem.population self) ->
    exists final : list Boid.t,
      foldM (BoidSystem.update_step frame (BoidSystem.obstacles self) timestep)
        flocks current = Ok final
      /\ length final = length (BoidSystem.population self)
      /\ (forall i : nat,
             (start <= i < start + length flocks)%nat ->
             exists b : Boid.t, lookup final i = Ok b /\ settled frame b)
      /\ (forall i : nat,
             (i < start)%nat -> lookup final i = lookup current i).
Proof.
  intros Hwidth Hheight.
  induction flocks as [ | flock rest IH];
    intros start current Hboids Hbuilt Hlength.
  - exists current. repeat split; try assumption.
    intros i Hi. simpl in Hi. lia.
  - cbn [map length seq] in Hboids. injection Hboids as Hboid Hrest.
    assert (BoidSystem.flock_of frame self (Flock.boid flock) = Ok flock)
      as Hflock by (apply Hbuilt; now left).
    destruct (impulse_Ok frame _ _ _ _ _ _ _ _ _ Hflock current Hlength)
      as [impulse Himpulse].
    destruct (built_owner _ _ _ _ _ _ _ _ _ _ Hflock) as [_ Hlt].
    rewrite <- Hlength in Hlt.
    destruct (integrate_step_settles frame timestep current flock impulse
                Hwidth Hheight Hlt) as [owner [Hstep Hsettled]].
    destruct (IH (S start) (assign current (Flock.boid flock) owner))
      as [final [Hfinal [Hlen [Hnew Hold]]]].
    + exact Hrest.
    + intros flock' Hin. apply Hbuilt. now right.
    + now rewrite length_assign.
    + exists final. cbn [foldM].
      rewrite (update_step_integrate _ _ _ _ _ impulse Hlt Himpulse).
      rewrite Hstep. cbn [bind].
      split; [exact Hfinal | split; [exact Hlen | split] ].
      * intros i Hi. cbn [length] in Hi.
        destruct (Nat.eq_dec i start) as [-> | Hneq].
        -- exists owner. rewrite Hold by lia. rewrite <- Hboid.
           split; [now apply lookup_assign_same | exact Hsettled].
        -- apply Hnew. lia.
      * intros i Hi. rewrite Hold by lia.
        apply lookup_assign_other. lia.
Qed.

(** X20.  In a frame of positive extents one call of [update] never
    raises, whatever the state of the boids before it.  Afterwards there
    are as many boids and as many flocks as there were boids, the
    obstacles, the radius and the coefficients are as before, and every
    boid is reduced into the frame with its velocity within [max_velocity]
    and its acceleration within [max_acceleration]. *)
Theorem update_settles_population (frame : Vector2D.t) (self : BoidSystem.t)
  (timestep : R) :
  0 < Vector2D.x frame -> 0 < Vector2D.y frame ->
  exists self' : BoidSystem.t,
    BoidSystem.update frame self timestep = Ok self'
    /\ length (BoidSystem.population self')
       = length (BoidSystem.population self)
    /\ length (BoidSystem.flocks self') = length (BoidSystem.population self)
    /\ BoidSystem.obstacles self' = BoidSystem.obstacles self
    /\ BoidSystem.radius self' = BoidSystem.radius self
    /\ (BoidSystem.alignment self', BoidSystem.cohesion self',
        BoidSystem.fear self', BoidSystem.separation self')
       = (BoidSystem.alignment self, BoidSystem.cohesion self,
          BoidSystem.fear self, BoidSystem.separation self)
    /\ forall b : Boid.t,
        In b (BoidSystem.population self') -> settled frame b.
Proof.
  intros Hwidth Hheight.
  destruct (flocks_of_seq frame self (length (BoidSystem.population self)) 0)
    as [flocks [Hflocks [Hboids Hbuilt]]]; [lia | ].
  assert (length flocks = length (BoidSystem.population self)) as Hlen
      by (rewrite <- (length_map Flock.boid flocks), Hboids; apply length_seq).
  destruct (update_loop_settles frame self timestep flocks Hwidth Hheight 0
              (BoidSystem.population self))
    as [final [Hfinal [Hlength [Hsettled _]]]];
    try assumption; try reflexivity.
  { rewrite Hlen. exact Hboids. }
  exists (BoidSystem.with_population self final flocks).
  split.
  { unfold BoidSystem.update, BoidSystem.build_flocks.
    rewrite Hflocks. cbn [bind]. now rewrite Hfinal. }
  simpl. split; [exact Hlength | split; [exact Hlen | ] ].
  split; [reflexivity | split; [reflexivity | split; [reflexivity | ] ] ].
  intros b Hin. apply In_nth_error in Hin. destruct Hin as [i Hi].
  assert (i < length final)%nat as Hlt
      by (apply nth_error_Some; congruence).
  destruct (Hsettled i) as [b' [Hb' Hgood]]; [lia | ].
  unfold lookup in Hb'. rewrite Hi in Hb'. injection Hb' as <-. exact Hgood.
Qed.

Lemma update_settles_population_witness :
  exists self' : BoidSystem.t,
    BoidSystem.update test_frame pair_system (1 / 10) = Ok self'
    /\ length (BoidSystem.population self') = 2%nat.
Proof.
  assert (0 < Vector2D.x test_frame) as Hwidth by (simpl; lra).
  assert (0 < Vector2D.y test_frame) as Hheight by (simpl; lra).
  destruct (update_settles_population test_frame pair_system (1 / 10)
              Hwidth Hheight) as [self' [Hupdate [Hlength _]]].
  exists self'. split; assumption.
Defined.

(** X21.  In a frame of positive extents [add_boid] and [add_obstacle]
    never raise.  [add_boid] puts a boid at rest, at the given point
    reduced into the frame, after the boids there are, and [add_obstacle]
    puts an obstacle after the obstacles there are; the boids and the
    obstacles that were there, the flocks, the radius and the coefficients
    are left as they were. *)
Theorem add_models_spec (frame : Vector2D.t) (self : BoidSystem.t)
  (x_coordinate y_coordinate : R) :
  0 < Vector2D.x frame -> 0 < Vector2D.y frame ->
  (exists baby_boid : Boid.t,
      BoidSystem.add_boid frame self x_coordinate y_coordinate
      = Ok (BoidSystem.mk (BoidSystem.radius self)
              (BoidSystem.population self ++ [baby_boid])
              (BoidSystem.obstacles self) (BoidSystem.flocks self)
              (BoidSystem.alignment self) (BoidSystem.cohesion self)
              (BoidSystem.fear self) (BoidSystem.separation self))
      /\ normalized frame (position baby_boid)
      /\ (normalized frame (Vector2D.mk x_coordinate y_coordinate) ->
          position baby_boid = Vector2D.mk x_coordinate y_coordinate)
      /\ Boid.velocity baby_boid = Vector2D.Zero
      /\ Boid.acceleration baby_boid = Vector2D.Zero
      /\ lookup (BoidSystem.population self ++ [baby_boid])
           (length (BoidSystem.population self)) = Ok baby_boid
      /\ forall i : nat,
          (i < length (BoidSystem.population self))%nat ->
          lookup (BoidSystem.population self ++ [baby_boid]) i
          = lookup (BoidSystem.population self) i)
  /\ (exists obstacle : Obstacle.t,
         BoidSystem.add_obstacle frame self x_coordinate y_coordinate
         = Ok (BoidSystem.mk (BoidSystem.radius self)
                 (BoidSystem.population self)
                 (BoidSystem.obstacles self ++ [obstacle])
                 (BoidSystem.flocks self)
                 (BoidSystem.alignment self) (BoidSystem.cohesion self)
                 (BoidSystem.fear self) (BoidSystem.separation self))).
Proof.
  intros Hwidth Hheight.
  destruct (vector_mod_spec frame (Vector2D.mk x_coordinate y_coordinate)
              Hwidth Hheight) as [q [Hq [Hnormal _]]].
  split.
  - exists (Boid.mk q Vector2D.Zero Vector2D.Zero).
    split.
    { unfold BoidSystem.add_boid, Boid.__init__. rewrite Hq. reflexivity. }
    split; [exact Hnormal | split; [ | split; [reflexivity | split; [reflexivity | split] ] ] ].
    + intros [Hx Hy]. simpl.
      rewrite (vector_mod_small frame _ Hx Hy) in Hq. now injection Hq.
    + unfold lookup. rewrite nth_error_app2 by lia.
      now rewrite Nat.sub_diag.
    + intros i Hi. unfold lookup. now rewrite nth_error_app1 by assumption.
  - unfold BoidSystem.add_obstacle, Obstacle.__init__. rewrite Hq.
    cbn [bind]. eexists; reflexivity.
Qed.

Lemma add_models_spec_witness :
  exists baby_boid : Boid.t,
    BoidSystem.add_boid test_frame pair_system 45 5
    = Ok (BoidSystem.mk 10 (pair_population ++ [baby_boid]) [] [] 10 10 10 12)
    /\ normalized test_frame (position baby_boid).
Proof.
  assert (0 < Vector2D.x test_frame) as Hwidth by (simpl; lra).
  assert (0 < Vector2D.y test_frame) as Hheight by (simpl; lra).
  destruct (proj1 (add_models_spec test_frame pair_system 45 5 Hwidth Hheight))
    as [baby_boid [Hadd [Hnormal _]]].
  exists baby_boid. split; assumption.
Defined.

Lemma mapM_Forall {A B : Type} (f : A -> result B) (P : B -> Prop)
  (l : list A) :
  (forall a : A, In a l -> exists b : B, f a = Ok b /\ P b) ->
  exists bs : list B,
    mapM f l = Ok bs /\ length bs = length l /\ Forall P bs.
Proof.
  induction l as [ | a rest IH]; intros Hall; simpl.
  - exists []. repeat split. constructor.
  - destruct (Hall a (or_introl eq_refl)) as [b [-> Hb]].
    destruct IH as [bs [-> [Hlen Hbs]]].
    { intros a' Hin. apply Hall. now right. }
    simpl. exists (b :: bs).
    split; [reflexivity | split; [simpl; congruence | now constructor] ].
Qed.

Lemma Obstacle_random_Ok (frame : Vector2D.t) (draw1 draw2 : R) :
  0 < Vector2D.x frame -> 0 < Vector2D.y frame ->
  exists o : Obstacle.t, Obstacle.random frame draw1 draw2 = Ok o.
Proof.
  intros Hwidth Hheight. unfold Obstacle.random, Obstacle.__init__.
  cbn [Vector2D.__mul__ Vector2D._apply_operator operator.mul bind].
  destruct (vector_mod_spec frame
              (Vector2D.mk
                 (Vector2D.x (Vector2D.random draw1 draw2) * Vector2D.x frame)
                 (Vector2D.y (Vector2D.random draw1 draw2) * Vector2D.y frame))
              Hwidth Hheight) as [q [-> _]].
  cbn [bind]. eexists; reflexivity.
Qed.

(** X22.  In a frame of positive extents the constructor of [BoidSystem]
    never raises.  It makes as many boids and obstacles as there are
    draws, no flock, and the coefficients 10, 10, 10 and 12.  Every boid is
    at the centre of the frame, within the limits of the setters; since
    all of them are at one point, no flock built before they move has an
    agent neighbour. *)
Theorem new_system_spec (frame : Vector2D.t)
  (boid_draws : list (R * R * R * R)) (obstacle_draws : list (R * R))
  (radius : R) :
  0 < Vector2D.x frame -> 0 < Vector2D.y frame ->
  Forall magnitudes_drawn boid_draws ->
  exists self : BoidSystem.t,
    BoidSystem.__init__ frame boid_draws obstacle_draws radius = Ok self
    /\ length (BoidSystem.population self) = length boid_draws
    /\ length (BoidSystem.obstacles self) = length obstacle_draws
    /\ BoidSystem.flocks self = []
    /\ BoidSystem.radius self = radius
    /\ (BoidSystem.alignment self, BoidSystem.cohesion self,
        BoidSystem.fear self, BoidSystem.separation self) = (10, 10, 10, 12)
    /\ (forall b : Boid.t,
           In b (BoidSystem.population self) ->
           position b
           = Vector2D.mk (Vector2D.x frame / 2) (Vector2D.y frame / 2)
           /\ within_limits b)
    /\ forall flocks : list Flock.t,
        BoidSystem.build_flocks frame self = Ok flocks ->
        forall flock : Flock.t, In flock flocks -> Flock.neighbors flock = [].
Proof.
  intros Hwidth Hheight Hdraws.
  set (centred := fun b : Boid.t =>
         position b = Vector2D.mk (Vector2D.x frame / 2) (Vector2D.y frame / 2)
         /\ within_limits b).
  destruct (mapM_Forall
              (fun draws : R * R * R * R =>
                 let '(draw1, draw2, draw3, draw4) := draws in
                 Boid.random frame draw1 draw2 draw3 draw4)
              centred boid_draws) as [boids [Hboids [Hcount Hcentred]]].
  { intros [[[draw1 draw2] draw3] draw4] Hin.
    rewrite Forall_forall in Hdraws.
    destruct (Hdraws _ Hin) as [Hdrawn2 Hdrawn4].
    destruct (Boid_random_Ok frame draw1 draw2 draw3 draw4
                Hwidth Hheight Hdrawn2 Hdrawn4)
      as [b [Hb [Hpos [_ [_ [_ [_ Hlimits]]]]]]].
    exists b. split; [exact Hb | split; assumption]. }
  destruct (mapM_Ok
              (fun draws : R * R =>
                 Obstacle.random frame (fst draws) (snd draws))
              obstacle_draws) as [obstacles [Hobstacles Hocount]].
  { intros draws _. now apply Obstacle_random_Ok. }
  exists (BoidSystem.mk radius boids obstacles [] 10 10 10 12).
  split.
  { unfold BoidSystem.__init__, BoidSystem.new.
    rewrite Hboids. cbn [bind]. rewrite Hobstacles. reflexivity. }
  rewrite Forall_forall in Hcentred. simpl.
  split; [exact Hcount | split; [exact Hocount | ] ].
  split; [reflexivity | split; [reflexivity | split; [reflexivity | split] ] ].
  - exact Hcentred.
  - intros flocks Hflocks flock Hin.
    destruct (flocks_of_seq frame
                (BoidSystem.mk radius boids obstacles [] 10 10 10 12)
                (length boids) 0) as [flocks' [Hflocks' [_ Hbuilt]]];
      [simpl; lia | ].
    unfold BoidSystem.build_flocks in Hflocks. simpl in Hflocks, Hflocks'.
    rewrite Hflocks' in Hflocks. injection Hflocks as <-.
    specialize (Hbuilt flock Hin).
    unfold BoidSystem.flock_of, Flock.__init__ in Hbuilt. simpl in Hbuilt.
    destruct (lookup boids (Flock.boid flock)) as [owner | e] eqn:Howner;
      [ | discriminate ].
    cbn [bind] in Hbuilt. injection Hbuilt as Hflock. rewrite <- Hflock. simpl.
    unfold Flock.get_neighbors. apply get_neighbors_none. right.
    intros other Hother.
    apply distance_self; [split; lra | ].
    apply lookup_Ok_inv in Howner. destruct Howner as [Howner _].
    apply nth_error_In in Howner.
    destruct (Hcentred owner Howner) as [-> _].
    destruct (Hcentred other Hother) as [-> _]. reflexivity.
Qed.

Lemma new_system_spec_witness :
  exists self : BoidSystem.t,
    BoidSystem.__init__ test_frame [(0, 1 / 2, 0, 1 / 2)] [(0, 1 / 2)] 150
    = Ok self
    /\ length (BoidSystem.population self) = 1%nat.
Proof.
  assert (0 < Vector2D.x test_frame) as Hwidth by (simpl; lra).
  assert (0 < Vector2D.y test_frame) as Hheight by (simpl; lra).
  assert (Forall magnitudes_drawn [(0, 1 / 2, 0, 1 / 2)]) as Hdraws
      by (repeat constructor; unfold drawn; lra).
  destruct (new_system_spec test_frame [(0, 1 / 2, 0, 1 / 2)] [(0, 1 / 2)] 150
              Hwidth Hheight Hdraws) as [self [Hself [Hlength _]]].
  exists self. split; assumption.
Defined.

Lemma mapM_lookup {A B : Type} (store : list A) (g : A -> B)
  (items : list (nat * R)) :
  mapM (fun item : nat * R => a <- lookup store (fst item) ;; Ok (g a)) items
  = (found <- mapM (lookup store) (map fst items) ;; Ok (map g found)).
Proof.
  induction items as [ | item rest IH]; simpl; [reflexivity | ].
  destruct (lookup store (fst item)) as [a | e]; cbn [bind]; [ | reflexivity ].
  rewrite IH.
  destruct (mapM (lookup store) (map fst rest)); reflexivity.
Qed.

(** X23.  The stage of the flock that the tests read: [average_velocity]
    is the mean of the velocities of the neighbours, and [center_of_mass]
    is the mean of their positions when no neighbour is further from the
    owner than half a frame extent on either axis (no wrap). *)
Theorem flock_means (frame : Vector2D.t) (population : list Boid.t)
  (self : Flock.t) (owner : Boid.t) (found : list Boid.t) :
  lookup population (Flock.boid self) = Ok owner ->
  mapM (lookup population) (map fst (Flock.neighbors self)) = Ok found ->
  Flock.average_velocity population self
  = utilities.mean (map Boid.velocity found)
  /\ ((forall neighbor : Boid.t,
          In neighbor found ->
          Rabs (2 * (Vector2D.x (position neighbor)
                     - Vector2D.x (position owner))) <= Vector2D.x frame
          /\ Rabs (2 * (Vector2D.y (position neighbor)
                        - Vector2D.y (position owner))) <= Vector2D.y frame) ->
      Flock.center_of_mass frame population self
      = utilities.mean (map (fun neighbor : Boid.t => position neighbor) found)).
Proof.
  intros Howner Hfound. split.
  - unfold Flock.average_velocity. now rewrite mapM_lookup, Hfound.
  - intros Hnear. unfold Flock.center_of_mass.
    rewrite (mapM_ext _
               (fun item : nat * R =>
                  neighbor <- lookup population (fst item) ;;
                  Ok (get_image frame neighbor owner))).
    + rewrite mapM_lookup, Hfound. cbn [bind]. f_equal.
      apply map_ext_in. intros neighbor Hin.
      destruct (Hnear neighbor Hin) as [Hx Hy].
      unfold get_image, displacement; simpl.
      rewrite !wrap_near by assumption. apply vector_eq; simpl; ring.
    + intros item _. rewrite Howner.
      destruct (lookup population (fst item)); reflexivity.
Qed.

Lemma flock_means_witness :
  Flock.average_velocity pair_population first_flock
  = utilities.mean (map Boid.velocity [boid_at 10 5]).
Proof.
  apply (flock_means test_frame pair_population first_flock
           (boid_at 12 5) [boid_at 10 5]); reflexivity.
Defined.

(** X24.  A boid alone in a system without obstacles drifts: in a frame of
    positive extents one call of [update] builds a flock without items
    for it, puts its acceleration to zero, keeps its velocity when that is
    below [max_velocity], and moves it by the timestep times that velocity,
    up to whole frame extents. *)
Theorem lone_boid_drifts (frame : Vector2D.t) (b : Boid.t)
  (radius alignment cohesion fear separation timestep : R)
  (flocks : list Flock.t) :
  0 < Vector2D.x frame -> 0 < Vector2D.y frame ->
  Vector2D.magnitude (Boid.velocity b) < Boid.max_velocity ->
  exists b' : Boid.t,
    BoidSystem.update frame
      (BoidSystem.mk radius [b] [] flocks alignment cohesion fear separation)
      timestep
    = Ok (BoidSystem.mk radius [b'] []
            [Flock.mk 0 radius [] [] alignment cohesion fear separation]
            alignment cohesion fear separation)
    /\ Boid.acceleration b' = Vector2D.Zero
    /\ Boid.velocity b' = Boid.velocity b
    /\ normalized frame (position b')
    /\ exists k l : Z,
        Vector2D.x (position b) + timestep * Vector2D.x (Boid.velocity b)
        = Vector2D.x (position b') + IZR k * Vector2D.x frame
        /\ Vector2D.y (position b) + timestep * Vector2D.y (Boid.velocity b)
           = Vector2D.y (position b') + IZR l * Vector2D.y frame.
Proof.
  intros Hwidth Hheight Hslow.
  assert (valid_frame frame) as Hframe by (split; lra).
  assert (Flock.get_neighbors frame b [b] radius = []) as Hnone.
  { unfold Flock.get_neighbors. apply get_neighbors_none. right.
    intros other [<- | []]. now apply distance_self. }
  destruct (vector_mod_spec frame
              (Vector2D.plus (position b)
                 (Vector2D.scale timestep (Boid.velocity b)))
              Hwidth Hheight) as [q [Hq [Hnormal [_ [k [l [Hk Hl]]]]]]].
  exists (Boid.mk q (Boid.velocity b) Vector2D.Zero).
  split; [ | split; [reflexivity | split; [reflexivity | split] ] ].
  - unfold BoidSystem.update, BoidSystem.build_flocks, BoidSystem.flock_of,
      Flock.__init__.
    cbn [BoidSystem.population BoidSystem.obstacles BoidSystem.radius
         BoidSystem.alignment BoidSystem.cohesion BoidSystem.fear
         BoidSystem.separation length seq mapM lookup nth_error bind].
    rewrite Hnone.
    assert (Flock.get_neighbors frame b (@nil Obstacle.t) radius = []) as ->
        by reflexivity.
    cbn [bind foldM]. unfold BoidSystem.update_step, Flock.apply_impulse.
    unfold Flock.impulse.
    cbn [Flock.neighbors Flock.obstacles Flock.boid bind lookup nth_error].
    unfold Boid.set_acceleration.
    rewrite Rltb_false
      by (rewrite magnitude_Zero; pose proof max_acceleration_pos; lra).
    cbn [bind assign lookup nth_error]. unfold Boid.update.
    cbn [Boid.velocity Boid.acceleration Boid._position].
    assert (Vector2D.plus (Boid.velocity b)
              (Vector2D.scale timestep Vector2D.Zero) = Boid.velocity b) as ->
        by (apply vector_eq; simpl; ring).
    rewrite set_velocity_small by assumption.
    cbn [bind Boid.velocity Boid.acceleration Boid._position position
         Boid_Model].
    change (Boid._position b) with (position b).
    rewrite Hq. reflexivity.
  - exact Hnormal.
  - exists k, l. simpl in Hk, Hl. simpl. split; lra.
Qed.

Lemma lone_boid_drifts_witness :
  exists b' : Boid.t,
    BoidSystem.update test_frame
      (BoidSystem.mk 10 [Boid.mk (Vector2D.mk 5 10) (Vector2D.mk 10 0)
                           Vector2D.Zero] [] [] 10 10 10 12) 1
    = Ok (BoidSystem.mk 10 [b'] [] [Flock.mk 0 10 [] [] 10 10 10 12]
            10 10 10 12)
    /\ Boid.velocity b' = Vector2D.mk 10 0.
Proof.
  assert (0 < Vector2D.x test_frame) as Hwidth by (simpl; lra).
  assert (0 < Vector2D.y test_frame) as Hheight by (simpl; lra).
  assert (Vector2D.magnitude (Vector2D.mk 10 0) < Boid.max_velocity) as Hslow
      by (rewrite magnitude_axis; unfold Boid.max_velocity; abs_lra).
  destruct (lone_boid_drifts test_frame
              (Boid.mk (Vector2D.mk 5 10) (Vector2D.mk 10 0) Vector2D.Zero)
              10 10 10 10 12 1 [] Hwidth Hheight Hslow)
    as [b' [Hupdate [_ [Hvelocity _]]]].
  exists b'. split; assumption.
Defined.
